(** * AIFormFiller: autofill orchestration core, shallow embedding.

    Sources embedded here:
    - [src/lib/field-safety.js]: the sensitivity classifier, both call shapes;
    - [src/unnamed/part_000] (the content script, final revision):
      [cleanText], [getFieldDescriptor], [collectFields], [fillField],
      [hasFillableForms], [notifyFormAvailability] and the click handler
      of the hover button;
    - [src/background.js]: [cleanModelAnswer], [shouldRetry], [withRetry],
      [chunkArray], [fieldFingerprint], [queryFieldBatchAnswers],
      [processAutofill], [runWithConcurrency], [fieldDisplayName],
      [parseOutputText], [encodeURIComponentSafe], [extractJsonObject],
      [processSingleField] and the file-store operations
      ([uploadFileToOpenAI], [listAllVectorStoreFilesRaw],
      [processVectorFileAdd], [processVectorFileUpdate],
      [processVectorStoreDelete] and the requests they make);
    - [src/shared-utils.js]: [bytesToBase64], [base64ToBytes];
    - [src/popup.js]: [fileToPayload].

    JS strings are modelled as Rocq [string] (UTF-8 bytes); case mapping and
    the whitespace class [\s] are the ASCII ones.  JS [Map]s are insertion
    ordered, so they are association lists here. *)

From Stdlib Require Import String Ascii List Bool ZArith QArith Qround Lia Relations.
From Stdlib Require Strings.Byte.
Import ListNotations.
Close Scope Q_scope.
Open Scope string_scope.
Open Scope nat_scope.

(* ------------------------------------------------------------------ *)
(** ** JS string primitives *)

Module JsStr.

(** Characters matched by [\s] and removed by [String.prototype.trim]. *)
Definition is_ws (c : ascii) : bool :=
  match nat_of_ascii c with
  | 9 | 10 | 11 | 12 | 13 | 32 => true
  | _ => false
  end.

Definition space : ascii := " "%char.

(** [toLowerCase] on one character. *)
Definition lower_char (c : ascii) : ascii :=
  let n := nat_of_ascii c in
  if (65 <=? n) && (n <=? 90) then ascii_of_nat (n + 32) else c.

Fixpoint lower (s : string) : string :=
  match s with
  | EmptyString => EmptyString
  | String c s' => String (lower_char c) (lower s')
  end.

(** [s.replace(/\s+/g, " ")]: every maximal run of whitespace becomes one
    space; [in_run] says the previous character was whitespace. *)
Fixpoint collapse_aux (in_run : bool) (s : string) : string :=
  match s with
  | EmptyString => EmptyString
  | String c s' =>
      if is_ws c then
        if in_run then collapse_aux true s' else String space (collapse_aux true s')
      else String c (collapse_aux false s')
  end.

Definition collapse (s : string) : string := collapse_aux false s.

Fixpoint trim_left (s : string) : string :=
  match s with
  | EmptyString => EmptyString
  | String c s' => if is_ws c then trim_left s' else s
  end.

Fixpoint trim_right (s : string) : string :=
  match s with
  | EmptyString => EmptyString
  | String c s' =>
      let r := trim_right s' in
      match r with
      | EmptyString => if is_ws c then EmptyString else String c EmptyString
      | _ => String c r
      end
  end.

(** [String.prototype.trim]. *)
Definition trim (s : string) : string := trim_right (trim_left s).

(** [cleanText] of the content script and [clean] of field-safety.js:
    [String(v || "").replace(/\s+/g, " ").trim()]. *)
Definition clean (s : string) : string := trim (collapse s).

Fixpoint prefixb (p s : string) : bool :=
  match p, s with
  | EmptyString, _ => true
  | String a p', String b s' => Ascii.eqb a b && prefixb p' s'
  | String _ _, EmptyString => false
  end.

(** [s.includes(sub)]. *)
Fixpoint includes (s sub : string) : bool :=
  prefixb sub s ||
  match s with
  | EmptyString => false
  | String _ s' => includes s' sub
  end.

(** [s.split(/\s+/).filter(Boolean)]. *)
Fixpoint split_ws_aux (cur : string) (s : string) : list string :=
  match s with
  | EmptyString => [cur]
  | String c s' =>
      if is_ws c then cur :: split_ws_aux EmptyString s'
      else split_ws_aux (cur ++ String c EmptyString) s'
  end.

Definition split_ws (s : string) : list string :=
  filter (fun w => negb (String.eqb w EmptyString)) (split_ws_aux EmptyString s).

(** [arr.filter(Boolean).join(" ")] over strings. *)
Definition join_nonempty (xs : list string) : string :=
  String.concat " " (filter (fun w => negb (String.eqb w EmptyString)) xs).

End JsStr.

(* ------------------------------------------------------------------ *)
(** ** Unanchored regular expressions with the [i] flag

    The patterns of the source use literals, character classes, [?] and
    [\s*] only.  [matches p s] lists the remainders of [s] after a match of
    [p] at its start; [test] is [RegExp.prototype.test], searching every
    position, on the lower-cased input (all pattern literals are lower
    case, which is what the [i] flag amounts to on ASCII). *)

Module Rx.
Import JsStr.

Inductive pat : Type :=
| PLit (l : string)
| PClass (cs : list ascii)
| PWsStar
| POpt (p : pat)
| PSeq (p q : pat)
| PAlt (p q : pat).

Fixpoint ws_suffixes (s : string) : list string :=
  s :: match s with
       | String c s' => if is_ws c then ws_suffixes s' else []
       | EmptyString => []
       end.

Fixpoint matches (p : pat) (s : string) : list string :=
  match p with
  | PLit l => if prefixb l s then [substring (String.length l) (String.length s) s] else []
  | PClass cs =>
      match s with
      | String c s' => if existsb (Ascii.eqb c) cs then [s'] else []
      | EmptyString => []
      end
  | PWsStar => ws_suffixes s
  | POpt q => s :: matches q s
  | PSeq q r => flat_map (matches r) (matches q s)
  | PAlt q r => matches q s ++ matches r s
  end.

Fixpoint search (p : pat) (s : string) : bool :=
  match matches p s with [] => false | _ => true end ||
  match s with
  | EmptyString => false
  | String _ s' => search p s'
  end.

Definition test (p : pat) (s : string) : bool := search p (lower s).

Fixpoint alts (ps : list pat) : pat :=
  match ps with
  | [] => PClass []
  | [p] => p
  | p :: ps' => PAlt p (alts ps')
  end.

Definition seqs (ps : list pat) : pat := fold_right PSeq (PLit "") ps.

(** The right single quotation mark, U+2019, in UTF-8. *)
Definition rsquo : string :=
  String (ascii_of_nat 226) (String (ascii_of_nat 128) (String (ascii_of_nat 153) EmptyString)).

(** [SENSITIVE_PATTERN] of field-safety.js. *)
Definition SENSITIVE_PATTERN : pat :=
  alts [ PLit "password"; PLit "passcode"; PLit "otp";
         seqs [PLit "one"; POpt (PClass ["-"%char; "_"%char; " "%char]); PLit "time"];
         PLit "2fa"; PLit "mfa"; PLit "token";
         seqs [PLit "security"; PWsStar; PLit "code"];
         seqs [PLit "verification"; PWsStar; PLit "code"];
         PLit "cvv"; PLit "cvc";
         seqs [PLit "card"; PWsStar; PLit "number"];
         seqs [PLit "credit"; PWsStar; PLit "card"];
         seqs [PLit "debit"; PWsStar; PLit "card"];
         PLit "routing"; PLit "iban"; PLit "swift"; PLit "ssn";
         seqs [PLit "social"; PWsStar; PLit "security"];
         seqs [PLit "tax"; PWsStar; PLit "id"];
         PLit "tin"; PLit "ein"; PLit "passport";
         seqs [PLit "driver"; PAlt (PLit "'") (PLit rsquo); POpt (PLit "s");
               PWsStar; PLit "license"];
         seqs [PLit "bank"; PWsStar; PLit "account"] ].

End Rx.

(* ------------------------------------------------------------------ *)
(** ** The content script's view of the DOM *)

Module Dom.

(** An [<option>] of a [<select>]: its [textContent] and [value]. *)
Record option_el := mk_option { opt_text : string; opt_value : string }.

(** One element of the document.  Attributes read with [getAttribute] are
    [""] when absent ([cleanText(null)] and [clean(null)] are both [""]).
    [el_label_text] is what [getLabelText(el)] resolves to on the current
    document (aria-label, aria-labelledby, label[for], ancestor label,
    sibling text). *)
Record element := mk_element {
  el_tagName : string;          (* el.tagName, e.g. "INPUT" *)
  el_type : string;             (* el.type *)
  el_name : string;             (* getAttribute("name"), el.name *)
  el_id : string;               (* el.id *)
  el_placeholder : string;      (* getAttribute("placeholder") *)
  el_aria_label : string;       (* getAttribute("aria-label") *)
  el_autocomplete : string;     (* getAttribute("autocomplete") *)
  el_required : bool;
  el_disabled : bool;
  el_readOnly : bool;
  el_display : string;          (* computed style display *)
  el_visibility : string;       (* computed style visibility *)
  el_width : Z;                 (* bounding rect *)
  el_height : Z;
  el_label_text : string;       (* getLabelText(el) *)
  el_options : list option_el;  (* el.options, for a select *)
  el_value : string;
  el_checked : bool;
  el_aff_uid : option string    (* el.dataset.affUid *)
}.

End Dom.

(* ------------------------------------------------------------------ *)
(** ** Sensitivity classifier (src/lib/field-safety.js) *)

Module FieldSafety.
Import JsStr Dom.

Record result := mk_result { res_sensitive : bool; res_reason : string }.

Definition not_sensitive : result := mk_result false "".

Definition SENSITIVE_INPUT_TYPES : list string := ["password"].

Definition SENSITIVE_AUTOCOMPLETE_TOKENS : list string :=
  [ "current-password"; "new-password"; "one-time-code"; "cc-name";
    "cc-given-name"; "cc-additional-name"; "cc-family-name"; "cc-number";
    "cc-exp"; "cc-exp-month"; "cc-exp-year"; "cc-csc"; "cc-type";
    "transaction-amount"; "transaction-currency"; "bday"; "bday-day";
    "bday-month"; "bday-year"; "sex"; "tel"; "tel-country-code";
    "tel-national"; "tel-area-code"; "tel-local"; "tel-extension" ].

Definition mem (x : string) (xs : list string) : bool := existsb (String.eqb x) xs.

Definition quoted (s : string) : string := "'" ++ s ++ "'".

(** [getAutocompleteTokens(element)]. *)
Definition getAutocompleteTokens (el : element) : list string :=
  let autocomplete := lower (clean (el_autocomplete el)) in
  if String.eqb autocomplete "" then [] else split_ws autocomplete.

(** [getElementTextForSensitivity(element, label)]. *)
Definition getElementTextForSensitivity (el : element) (label : string) : string :=
  join_nonempty (map clean [label; el_name el; el_id el; el_placeholder el; el_aria_label el]).

(** Rules 2 to 4, shared text of both shapes. *)
Definition isSensitiveFieldElement (el : element) (label : string) : result :=
  let tag := lower (el_tagName el) in
  if String.eqb tag "" then not_sensitive else
  let inputType :=
    let t := lower (clean (el_type el)) in if String.eqb t "" then "text" else t in
  if String.eqb tag "input" && mem inputType SENSITIVE_INPUT_TYPES then
    mk_result true ("input type " ++ quoted inputType)
  else
  match find (fun tok => mem tok SENSITIVE_AUTOCOMPLETE_TOKENS) (getAutocompleteTokens el) with
  | Some tok => mk_result true ("autocomplete " ++ quoted tok)
  | None =>
      if Rx.test Rx.SENSITIVE_PATTERN (getElementTextForSensitivity el label)
      then mk_result true "field metadata matched sensitive pattern"
      else not_sensitive
  end.

End FieldSafety.

(** ** Field descriptors (the objects built by [getFieldDescriptor]) *)

Module Desc.

(** [options] is [None] when the property is absent (every non-select). *)
Record field := mk_field {
  uid : string;
  tag : string;
  type : string;
  autocomplete : string;
  ariaLabel : string;
  name : string;
  id : string;
  placeholder : string;
  label : string;
  required : bool;
  sensitive : bool;
  sensitiveReason : string;
  options : option (list string)
}.

End Desc.

Module FieldSafetyDesc.
Import JsStr Desc FieldSafety.

(** [isSensitiveFieldDescriptor(field)], the detached call shape. *)
Definition isSensitiveFieldDescriptor (f : field) : result :=
  let tg := lower (clean (tag f)) in
  let ty := lower (clean (type f)) in
  if String.eqb tg "input" && mem ty SENSITIVE_INPUT_TYPES then
    mk_result true ("input type " ++ quoted ty)
  else
  let ac := lower (clean (autocomplete f)) in
  let autocompleteTokens := if String.eqb ac "" then [] else split_ws ac in
  match find (fun tok => mem tok SENSITIVE_AUTOCOMPLETE_TOKENS) autocompleteTokens with
  | Some tok => mk_result true ("autocomplete " ++ quoted tok)
  | None =>
      let text := join_nonempty (map clean [label f; name f; id f; placeholder f; ariaLabel f]) in
      if Rx.test Rx.SENSITIVE_PATTERN text
      then mk_result true "field metadata matched sensitive pattern"
      else not_sensitive
  end.

End FieldSafetyDesc.

(* ------------------------------------------------------------------ *)
(** ** Content script (src/unnamed/part_000): collection and filling *)

Module Content.
Import JsStr Dom FieldSafety Desc.

Fixpoint uint_to_string (d : Decimal.uint) : string :=
  match d with
  | Decimal.Nil => ""
  | Decimal.D0 d' => "0" ++ uint_to_string d'
  | Decimal.D1 d' => "1" ++ uint_to_string d'
  | Decimal.D2 d' => "2" ++ uint_to_string d'
  | Decimal.D3 d' => "3" ++ uint_to_string d'
  | Decimal.D4 d' => "4" ++ uint_to_string d'
  | Decimal.D5 d' => "5" ++ uint_to_string d'
  | Decimal.D6 d' => "6" ++ uint_to_string d'
  | Decimal.D7 d' => "7" ++ uint_to_string d'
  | Decimal.D8 d' => "8" ++ uint_to_string d'
  | Decimal.D9 d' => "9" ++ uint_to_string d'
  end.

(** [String(n)] for a natural number. *)
Definition nat_to_string (n : nat) : string := uint_to_string (Nat.to_uint n).

Fixpoint update_nth {A} (n : nat) (f : A -> A) (l : list A) : list A :=
  match l, n with
  | [], _ => []
  | x :: l', O => f x :: l'
  | x :: l', S n' => x :: update_nth n' f l'
  end.

(** The page-context state: the document's elements in document order
    (an element is named by its position), the module-level [uidCounter]
    and [fieldMap] (uid to element), and the log of dispatched events. *)
Record page := mk_page {
  elements : list element;
  uidCounter : nat;
  fieldMap : list (string * nat);
  events : list (nat * string)
}.

Definition set_elements (st : page) (es : list element) : page :=
  mk_page es (uidCounter st) (fieldMap st) (events st).
Definition set_counter (st : page) (n : nat) : page :=
  mk_page (elements st) n (fieldMap st) (events st).
Definition set_fieldMap (st : page) (m : list (string * nat)) : page :=
  mk_page (elements st) (uidCounter st) m (events st).
Definition dispatch (st : page) (i : nat) (ev : string) : page :=
  mk_page (elements st) (uidCounter st) (fieldMap st) (app (events st) [(i, ev)]).

Fixpoint map_get (k : string) (m : list (string * nat)) : option nat :=
  match m with
  | [] => None
  | (k', v) :: m' => if String.eqb k k' then Some v else map_get k m'
  end.

Definition with_aff_uid (u : string) (e : element) : element :=
  mk_element (el_tagName e) (el_type e) (el_name e) (el_id e) (el_placeholder e)
    (el_aria_label e) (el_autocomplete e) (el_required e) (el_disabled e)
    (el_readOnly e) (el_display e) (el_visibility e) (el_width e) (el_height e)
    (el_label_text e) (el_options e) (el_value e) (el_checked e) (Some u).

Definition with_value (v : string) (e : element) : element :=
  mk_element (el_tagName e) (el_type e) (el_name e) (el_id e) (el_placeholder e)
    (el_aria_label e) (el_autocomplete e) (el_required e) (el_disabled e)
    (el_readOnly e) (el_display e) (el_visibility e) (el_width e) (el_height e)
    (el_label_text e) (el_options e) v (el_checked e) (el_aff_uid e).

Definition with_checked (b : bool) (e : element) : element :=
  mk_element (el_tagName e) (el_type e) (el_name e) (el_id e) (el_placeholder e)
    (el_aria_label e) (el_autocomplete e) (el_required e) (el_disabled e)
    (el_readOnly e) (el_display e) (el_visibility e) (el_width e) (el_height e)
    (el_label_text e) (el_options e) (el_value e) b (el_aff_uid e).

(** [isVisible(el)]. *)
Definition isVisible (e : element) : bool :=
  negb (String.eqb (el_display e) "none") && negb (String.eqb (el_visibility e) "hidden")
  && (0 <? el_width e)%Z && (0 <? el_height e)%Z.

(** [(el.type || "text").toLowerCase()]. *)
Definition input_type (e : element) : string :=
  lower (if String.eqb (el_type e) "" then "text" else el_type e).

(** [shouldSkipInput(el)]. *)
Definition shouldSkipInput (e : element) : bool :=
  if el_disabled e || el_readOnly e || negb (isVisible e) then true
  else if String.eqb (lower (el_tagName e)) "input" then
    mem (input_type e) ["hidden"; "submit"; "button"; "reset"; "file"; "image"; "range"; "color"]
  else false.

(** Matched by [querySelectorAll("input, textarea, select")]. *)
Definition is_form_control (e : element) : bool :=
  mem (lower (el_tagName e)) ["input"; "textarea"; "select"].

(** [ensureFieldUid(el)], with [Date.now()] given as [now]. *)
Definition ensureFieldUid (now : nat) (i : nat) (st : page) : string * page :=
  match nth_error (elements st) i with
  | Some e =>
      match el_aff_uid e with
      | Some u => if String.eqb u "" then
                    let n := S (uidCounter st) in
                    let u' := "aff-" ++ nat_to_string now ++ "-" ++ nat_to_string n in
                    (u', set_elements (set_counter st n) (update_nth i (with_aff_uid u') (elements st)))
                  else (u, st)
      | None =>
          let n := S (uidCounter st) in
          let u' := "aff-" ++ nat_to_string now ++ "-" ++ nat_to_string n in
          (u', set_elements (set_counter st n) (update_nth i (with_aff_uid u') (elements st)))
      end
  | None => ("", st)
  end.

(** The object literal of [getFieldDescriptor], for element [e] with uid
    [u] and resolved label [lbl]. *)
Definition descriptor_of (u : string) (e : element) (lbl : string) : field :=
  let tg := lower (el_tagName e) in
  let sens := isSensitiveFieldElement e lbl in
  mk_field u tg (lower (el_type e)) (clean (el_autocomplete e)) (clean (el_aria_label e))
    (clean (el_name e)) (clean (el_id e)) (clean (el_placeholder e)) lbl (el_required e)
    (res_sensitive sens) (res_reason sens)
    (if String.eqb tg "select" then
       Some (firstn 50 (filter (fun s => negb (String.eqb s ""))
               (map (fun o => clean (if String.eqb (opt_text o) "" then opt_value o else opt_text o))
                    (el_options e))))
     else None).

(** [getFieldDescriptor(el)]. *)
Definition getFieldDescriptor (now : nat) (i : nat) (st : page) : field * page :=
  let (u, st1) := ensureFieldUid now i st in
  let e := match nth_error (elements st1) i with Some e => e | None => mk_element "" "" "" "" "" "" "" false false false "" "" 0 0 "" [] "" false None end in
  (descriptor_of u e (el_label_text e), set_fieldMap st1 ((u, i) :: fieldMap st1)).

Fixpoint describe_all (now : nat) (idxs : list nat) (st : page) : list field * page :=
  match idxs with
  | [] => ([], st)
  | i :: r =>
      let (d, st1) := getFieldDescriptor now i st in
      let (ds, st2) := describe_all now r st1 in
      (d :: ds, st2)
  end.

(** Positions of the elements kept by [collectFields]. *)
Definition eligible (es : list element) : list nat :=
  filter (fun i => match nth_error es i with
                   | Some e => is_form_control e && negb (shouldSkipInput e)
                   | None => false
                   end) (seq 0 (length es)).

(** [collectFields(includeSensitive)]. *)
Definition collectFields (now : nat) (includeSensitive : bool) (st : page) : list field * page :=
  let st0 := set_fieldMap st [] in
  let (ds, st1) := describe_all now (eligible (elements st0)) st0 in
  (if includeSensitive then ds else filter (fun f => negb (sensitive f)) ds, st1).

End Content.

Module Fill.
Import JsStr Dom FieldSafety Desc Content.

Inductive fill_result := FillOk | FillErr (error : string).

Definition option_candidate (o : option_el) : string :=
  lower (clean (if String.eqb (opt_text o) "" then opt_value o else opt_text o)).

(** The [exactOption] / [partialOption] search of the select branch. *)
Definition select_match (normalized : string) (opts : list option_el) : option option_el :=
  match find (fun o => String.eqb (option_candidate o) normalized
                       || String.eqb (lower (clean (opt_value o))) normalized) opts with
  | Some o => Some o
  | None => find (fun o => includes (option_candidate o) normalized
                           || includes normalized (option_candidate o)) opts
  end.

Definition is_truthy (v : string) : bool := mem (lower v) ["true"; "yes"; "1"; "checked"].
Definition is_falsy (v : string) : bool := mem (lower v) ["false"; "no"; "0"; "unchecked"].

(** [document.querySelectorAll('input[type="radio"][name="..."]')]. *)
Definition radio_group (es : list element) (radioName : string) : list nat :=
  filter (fun j => match nth_error es j with
                   | Some r => String.eqb (lower (el_tagName r)) "input"
                               && String.eqb (lower (el_type r)) "radio"
                               && String.eqb (el_name r) radioName
                   | None => false
                   end) (seq 0 (length es)).

Definition radio_matches (normalizedValue : string) (r : element) : bool :=
  let lbl := lower (el_label_text r) in
  let val := lower (clean (el_value r)) in
  String.eqb lbl normalizedValue || String.eqb val normalizedValue || includes lbl normalizedValue.

Definition elem_at (es : list element) (j : nat) : element :=
  match nth_error es j with
  | Some e => e
  | None => mk_element "" "" "" "" "" "" "" false false false "" "" 0 0 "" [] "" false None
  end.

(** [match.checked = true]: the other radios of its name group are
    unchecked by the DOM. *)
Definition check_radio (st : page) (group : list nat) (m : nat) : page :=
  set_elements st
    (fold_left (fun es j => update_nth j (with_checked (Nat.eqb j m)) es) group (elements st)).

(** [setNativeValue(el, value)]. *)
Definition setNativeValue (st : page) (i : nat) (v : string) : page :=
  dispatch (dispatch (set_elements st (update_nth i (with_value v) (elements st))) i "input") i "change".

(** [fillField(uid, value, allowSensitive)]: the result and the page after. *)
Definition fillField (uid : string) (value : string) (allowSensitive : bool) (st : page)
  : fill_result * page :=
  match map_get uid (fieldMap st) with
  | None => (FillErr "Field not found in page context.", st)
  | Some i =>
  match nth_error (elements st) i with
  | None => (FillErr "Field not found in page context.", st)
  | Some el =>
  let sensitivity := isSensitiveFieldElement el (el_label_text el) in
  if res_sensitive sensitivity && negb allowSensitive then
    (FillErr "Refusing to fill sensitive field without explicit confirmation.", st)
  else
  let tg := lower (el_tagName el) in
  let trimmedValue := clean value in
  if String.eqb trimmedValue "" then (FillErr "Empty value was provided.", st) else
  if String.eqb tg "select" then
    match select_match (lower trimmedValue) (el_options el) with
    | None => (FillErr "No matching option found for select field.", st)
    | Some o =>
        (FillOk, dispatch (set_elements st (update_nth i (with_value (opt_value o)) (elements st))) i "change")
    end
  else if String.eqb tg "input" && String.eqb (input_type el) "checkbox" then
    let truthy := is_truthy trimmedValue in
    let falsy := is_falsy trimmedValue in
    if negb truthy && negb falsy then
      (FillErr "Checkbox value must resolve to true/false.", st)
    else
      (FillOk, dispatch (set_elements st (update_nth i (with_checked truthy) (elements st))) i "change")
  else if String.eqb tg "input" && String.eqb (input_type el) "radio" then
    let radioName := el_name el in
    if String.eqb radioName "" then (FillErr "Radio button has no name group.", st) else
    let radios := radio_group (elements st) radioName in
    match find (fun j => radio_matches (lower trimmedValue) (elem_at (elements st) j)) radios with
    | None => (FillErr "No matching radio option found.", st)
    | Some m => (FillOk, dispatch (check_radio st radios m) m "change")
    end
  else (FillOk, setNativeValue st i trimmedValue)
  end
  end.

End Fill.

(* ------------------------------------------------------------------ *)
(** ** Background worker (src/background.js) *)

Module Json.
Import JsStr.

Definition dq : string := String (ascii_of_nat 34) EmptyString.

Definition hex_digit (n : nat) : string :=
  substring n 1 "0123456789abcdef".

(** The escaping of [JSON.stringify] for one character. *)
Definition escape_char (c : ascii) : string :=
  match nat_of_ascii c with
  | 34 => "\" ++ dq
  | 92 => "\\"
  | 8 => "\b"
  | 9 => "\t"
  | 10 => "\n"
  | 12 => "\f"
  | 13 => "\r"
  | n => if n <? 32 then "\u00" ++ hex_digit (n / 16) ++ hex_digit (n mod 16)
         else String c EmptyString
  end.

Fixpoint escape (s : string) : string :=
  match s with
  | EmptyString => EmptyString
  | String c s' => escape_char c ++ escape s'
  end.

(** [JSON.stringify] of a string. *)
Definition quote (s : string) : string := dq ++ escape s ++ dq.

Definition member (k v : string) : string := quote k ++ ":" ++ v.

(** JSON values, as produced by [JSON.parse]. *)
#[warnings="-register-all"]
Inductive json : Type :=
| JNull
| JBool (b : bool)
| JNum (n : Z)
| JStr (s : string)
| JArr (xs : list json)
| JObj (kvs : list (string * json)).

(** [parsed[key]] for an own property: the last binding wins in
    [JSON.parse]; an array has no property named like a field uid
    ([aff-...]), and inherited properties are never strings. *)
Definition get_prop (key : string) (v : json) : option json :=
  match v with
  | JObj kvs => fold_left (fun acc kv => if String.eqb (fst kv) key then Some (snd kv) else acc) kvs None
  | _ => None
  end.

(** [!parsed || typeof parsed !== "object"]. *)
Definition is_object (v : json) : bool :=
  match v with JArr _ | JObj _ => true | _ => false end.

End Json.

Module Background.
Import JsStr Desc Json.

Definition AUTOFILL_BATCH_SIZE : nat := 4.
Definition AUTOFILL_MAX_CONCURRENCY : nat := 2.
Definition AUTOFILL_RETRIES : nat := 3.

(** [String(v || "").trim().toLowerCase()]. *)
Definition norm (s : string) : string := lower (trim s).

Definition fp_options (f : field) : list string :=
  match options f with
  | Some os => firstn 50 (map norm os)
  | None => []
  end.

(** [fieldFingerprint(field)]: [JSON.stringify] of the normalised object. *)
Definition fieldFingerprint (f : field) : string :=
  "{" ++ member "label" (quote (norm (label f)))
  ++ "," ++ member "name" (quote (norm (name f)))
  ++ "," ++ member "id" (quote (norm (id f)))
  ++ "," ++ member "placeholder" (quote (norm (placeholder f)))
  ++ "," ++ member "type" (quote (norm (type f)))
  ++ "," ++ member "tag" (quote (norm (tag f)))
  ++ "," ++ member "options" ("[" ++ String.concat "," (map quote (fp_options f)) ++ "]")
  ++ "}".

(** [s.replace(/^"|"$/g, "")]. *)
Definition strip_quotes (s : string) : string :=
  let drop_last t :=
    match String.length t with
    | O => t
    | S n => if String.eqb (substring n 1 t) dq then substring 0 n t else t
    end in
  match s with
  | String c s' => if Ascii.eqb c (ascii_of_nat 34) then drop_last s' else drop_last s
  | EmptyString => EmptyString
  end.

(** [cleanModelAnswer(answer)]. *)
Definition cleanModelAnswer (answer : string) : string :=
  let stripped := strip_quotes (trim answer) in
  if String.eqb stripped "" then ""
  else if String.eqb (lower stripped) "not_found" then ""
  else stripped.

(** A thrown JS error: its message and its [status] property, if any. *)
Record js_error := mk_error { err_message : string; err_status : option Z }.

Definition status_text (s : Z) : string := Content.nat_to_string (Z.to_nat s).

(** [classifyHttpError(status)] with the English fallbacks of [t]. *)
Definition classifyHttpError (status : Z) : string :=
  if (status =? 401)%Z || (status =? 403)%Z then "Authentication failed. Check your API key."
  else if (status =? 429)%Z then "Rate limited by OpenAI. Please retry shortly."
  else if (500 <=? status)%Z then "OpenAI service error. Please try again."
  else "OpenAI request failed with status " ++ status_text status ++ ".".

(** [createHttpError(status, details)]. *)
Definition createHttpError (status : Z) (details : string) : js_error :=
  mk_error (classifyHttpError status ++ (if String.eqb details "" then "" else " " ++ details))
           (Some status).

(** What one request of [queryFieldBatchAnswers] meets: the abort of the
    35 s timer, a rejected [fetch] or body read, a non-ok HTTP status with
    the server's detail text, or a response whose output text went through
    [extractJsonObject(parseOutputText(json))] with the given result. *)
Inductive fetch_outcome :=
| FTimeout
| FNetworkError (e : js_error)
| FHttpError (status : Z) (details : string)
| FResponse (parsed : option json).

Definition uid_answers := list (string * string).

(** [answersByUid[uid]], [undefined] as [None]. *)
Definition get_answer (uid : string) (m : uid_answers) : option string :=
  fold_left (fun acc kv => if String.eqb (fst kv) uid then Some (snd kv) else acc) m None.

(** [queryFieldBatchAnswers({..., fields})] for one request. *)
Definition queryFieldBatchAnswers (fields : list field) (o : fetch_outcome)
  : js_error + uid_answers :=
  match o with
  | FTimeout => inl (mk_error "OpenAI request timed out." (Some 408%Z))
  | FNetworkError e => inl e
  | FHttpError status details => inl (createHttpError status details)
  | FResponse None => inl (mk_error "Model response format was invalid." None)
  | FResponse (Some parsed) =>
      if negb (is_object parsed) then inl (mk_error "Model response format was invalid." None)
      else inr (map (fun f =>
                  (uid f, cleanModelAnswer
                            (match get_prop (uid f) parsed with
                             | Some (JStr raw) => raw
                             | _ => ""
                             end))) fields)
  end.

(** [shouldRetry(error)]: [Number(undefined)] is [NaN]. *)
Definition shouldRetry (e : js_error) : bool :=
  match err_status e with
  | Some s => (s =? 408)%Z || (s =? 429)%Z || (500 <=? s)%Z
  | None => false
  end.

End Background.

Module Retry.
Import Background.

(** What [withRetry] does, in order: an attempt [n] (a call of [work]) or
    the [sleep(delay)] that follows a failed attempt [n]. *)
Inductive retry_event := EAttempt (n : nat) | ESleep (n : nat) (delay : Z).

Inductive outcome (A : Type) := Returned (a : A) | Thrown (e : option js_error).
Arguments Returned {A} a.
Arguments Thrown {A} e.

(** [Math.min(5000, 400 * (2 ** (attempt - 1)))]. *)
Definition base_delay (attempt : nat) : Z := Z.min 5000 (400 * 2 ^ Z.of_nat (attempt - 1)).

(** [Math.floor(Math.random() * 120)], [rnd n] being the value of
    [Math.random()] drawn after attempt [n]. *)
Definition jitter (rnd : nat -> Q) (attempt : nat) : Z := Qfloor (rnd attempt * 120).

Section WithRetry.
Context {A : Type}.
Variable work : nat -> js_error + A.   (* the result of the [n]-th call of [work()] *)
Variable rnd : nat -> Q.
Variable attempts : nat.

(** The [for] loop of [withRetry] from [attempt] on, [fuel] iterations
    left, [lastError] the error caught last. *)
Fixpoint retry_loop (fuel attempt : nat) (lastError : option js_error)
  : list retry_event * outcome A :=
  match fuel with
  | O => ([], Thrown lastError)
  | S fuel' =>
      match work attempt with
      | inr a => ([EAttempt attempt], Returned a)
      | inl e =>
          if (attempts <=? attempt) || negb (shouldRetry e) then ([EAttempt attempt], Thrown (Some e))
          else
            let delay := (base_delay attempt + jitter rnd attempt)%Z in
            let (evs, o) := retry_loop fuel' (S attempt) (Some e) in
            (EAttempt attempt :: ESleep attempt delay :: evs, o)
      end
  end.

(** [withRetry(work, attempts)]. *)
Definition withRetry : list retry_event * outcome A := retry_loop attempts 1 None.

End WithRetry.

(** The attempt numbers among the events, in order. *)
Definition attempts_of (evs : list retry_event) : list nat :=
  flat_map (fun ev => match ev with EAttempt n => [n] | ESleep _ _ => [] end) evs.

End Retry.

Module Autofill.
Import JsStr Desc Json Background Retry.

(** [chunkArray(values, size)]; the source loop runs [values.length / size]
    rounded up times for [size > 0] (and never stops for [size = 0]). *)
Fixpoint chunk_loop {T} (fuel size : nat) (values : list T) : list (list T) :=
  match fuel with
  | O => []
  | S fuel' =>
      match values with
      | [] => []
      | _ => firstn size values :: chunk_loop fuel' size (skipn size values)
      end
  end.

Definition chunkArray {T} (values : list T) (size : nat) : list (list T) :=
  chunk_loop (length values) size values.

(** The [byFingerprint] map, [Array.from(byFingerprint.values())]: the
    first field of each fingerprint, in order of first occurrence. *)
Fixpoint dedup_loop (seen : list string) (fields : list field) : list field :=
  match fields with
  | [] => []
  | f :: r =>
      if FieldSafety.mem (fieldFingerprint f) seen then dedup_loop seen r
      else f :: dedup_loop (fieldFingerprint f :: seen) r
  end.

Definition uniqueFields (fields : list field) : list field := dedup_loop [] fields.

(** A JS [Map] from fingerprint to string; [set] puts the newest binding
    in front, [get] returns it. *)
Definition fmap := list (string * string).

Fixpoint fm_get (k : string) (m : fmap) : option string :=
  match m with
  | [] => None
  | (k', v) :: m' => if String.eqb k k' then Some v else fm_get k m'
  end.

Definition fm_has (k : string) (m : fmap) : bool :=
  match fm_get k m with Some _ => true | None => false end.

(** The state of the retrieval phase. *)
Record retrieval := mk_retrieval {
  answerByFingerprint : fmap;
  errorByFingerprint : fmap;
  calls : list (list field * list retry_event * bool)   (* each batch, its attempts, success *)
}.

(** The network: [net batch n] is what the [n]-th request for [batch]
    meets; [rnd k] is the jitter source of the [k]-th batch. *)
Definition run_batch (net : list field -> nat -> fetch_outcome) (rnd : nat -> Q)
    (batch : list field) (r : retrieval) : retrieval :=
  let (evs, o) := withRetry (fun n => queryFieldBatchAnswers batch (net batch n)) rnd AUTOFILL_RETRIES in
  match o with
  | Returned answersByUid =>
      mk_retrieval
        (fold_left (fun m f => (fieldFingerprint f,
                                match get_answer (uid f) answersByUid with
                                | Some a => if String.eqb a "" then "" else a
                                | None => ""
                                end) :: m) batch (answerByFingerprint r))
        (errorByFingerprint r) (app (calls r) [(batch, evs, true)])
  | Thrown e =>
      let msg := match e with
                 | Some e' => if String.eqb (err_message e') "" then "request failed" else err_message e'
                 | None => "request failed"
                 end in
      mk_retrieval (answerByFingerprint r)
        (fold_left (fun m f => (fieldFingerprint f, msg) :: m) batch (errorByFingerprint r))
        (app (calls r) [(batch, evs, false)])
  end.

(** [runWithConcurrency(batches, AUTOFILL_MAX_CONCURRENCY, ...)]: each batch
    is taken from the queue exactly once.  The two workers interleave, but a
    batch only writes the fingerprints of its own fields, which no other
    batch holds, and [net] answers per batch; so the maps do not depend on
    the interleaving and the batches are run here in queue order. *)
Fixpoint run_batches (net : list field -> nat -> fetch_outcome) (rnd : nat -> nat -> Q)
    (k : nat) (batches : list (list field)) (r : retrieval) : retrieval :=
  match batches with
  | [] => r
  | b :: bs => run_batches net rnd (S k) bs (run_batch net (rnd k) b r)
  end.

(** Whether [withRetry] returns for [batch]; the jitter only delays the
    attempts, so any source of it will do. *)
Definition batch_succeeds (net : list field -> nat -> fetch_outcome) (batch : list field) : bool :=
  match snd (withRetry (fun n => queryFieldBatchAnswers batch (net batch n)) (fun _ => 0%Q)
               AUTOFILL_RETRIES) with
  | Returned _ => true
  | Thrown _ => false
  end.

(** The outcome reported for one field in the application phase. *)
Inductive field_outcome :=
| OError (msg : string)                 (* progressError *)
| ONotFound                             (* progressNotFound *)
| OFilled (value : string)              (* progressFilled *)
| OCouldNotFill (value : string) (err : string).  (* progressCouldNotFill *)

Definition is_filled (o : field_outcome) : bool :=
  match o with OFilled _ => true | _ => false end.

(** The value sent with [FILL_FORM_FIELD] for the field, if any. *)
Definition fill_value (o : field_outcome) : option string :=
  match o with OFilled v | OCouldNotFill v _ => Some v | _ => None end.

Section Apply.
(** The page, behind [tabMessage(tabId, {type: "FILL_FORM_FIELD", ...})]. *)
Variable P : Type.
Variable page_fill : P -> string -> string -> Fill.fill_result * P.

(** The application loop over the original field list. *)
Fixpoint apply_loop (r : retrieval) (fields : list field) (pg : P)
  : list field_outcome * nat * nat * P :=
  match fields with
  | [] => ([], 0, 0, pg)
  | f :: rest =>
      let key := fieldFingerprint f in
      match fm_get key (errorByFingerprint r) with
      | Some msg =>
          let '(os, filled, skipped, pg') := apply_loop r rest pg in
          (OError msg :: os, filled, S skipped, pg')
      | None =>
          let answer := match fm_get key (answerByFingerprint r) with Some a => a | None => "" end in
          if String.eqb answer "" then
            let '(os, filled, skipped, pg') := apply_loop r rest pg in
            (ONotFound :: os, filled, S skipped, pg')
          else
            match page_fill pg (uid f) answer with
            | (Fill.FillErr err, pg1) =>
                let '(os, filled, skipped, pg') := apply_loop r rest pg1 in
                (OCouldNotFill answer err :: os, filled, S skipped, pg')
            | (Fill.FillOk, pg1) =>
                let '(os, filled, skipped, pg') := apply_loop r rest pg1 in
                (OFilled answer :: os, S filled, skipped, pg')
            end
      end
  end.

(** How a run of [processAutofill] ends. *)
Inductive run_result :=
| RunThrew (msg : string)
| RunNoFields
| RunCompleted (rt : retrieval) (outcomes : list field_outcome) (filled skipped : nat) (pg : P).

(** [processAutofill(tabId)] with trimmed settings and the fields the page
    answered to [GET_FORM_FIELDS] with [includeSensitive: false]. *)
Definition processAutofill (apiKey vectorStoreId : string) (fields : list field)
    (net : list field -> nat -> fetch_outcome) (rnd : nat -> nat -> Q) (pg : P) : run_result :=
  if String.eqb apiKey "" then RunThrew "OpenAI API key is missing. Add it in the extension popup." else
  if String.eqb vectorStoreId "" then RunThrew "Vector Store ID is missing. Add it in the extension popup." else
  match fields with
  | [] => RunNoFields
  | _ =>
      let batches := chunkArray (uniqueFields fields) AUTOFILL_BATCH_SIZE in
      let r := run_batches net rnd 0 batches (mk_retrieval [] [] []) in
      let '(os, filled, skipped, pg') := apply_loop r fields pg in
      RunCompleted r os filled skipped pg'
  end.

End Apply.

End Autofill.

(* ------------------------------------------------------------------ *)
(** ** Content script: form availability *)

Module Availability.
Import Content.

(** [hasFillableForms()]: a collection without sensitive fields; it
    rebuilds [fieldMap] as any collection does. *)
Definition hasFillableForms (now : nat) (st : page) : bool * page :=
  let (fs, st') := collectFields now false st in (negb (length fs =? 0), st').

(** [notifyFormAvailability(force)]: the new [lastKnownHasForm], the
    [hasForm] values sent with [FORM_AVAILABILITY_CHANGED], the page. *)
Definition notifyFormAvailability (now : nat) (force : bool) (lastKnownHasForm : option bool)
    (st : page) : option bool * list bool * page :=
  let (hasForm, st') := hasFillableForms now st in
  if negb force && match lastKnownHasForm with Some b => Bool.eqb hasForm b | None => false end
  then (lastKnownHasForm, [], st')
  else (Some hasForm, [hasForm], st').

(** Successive calls, each on the page as the DOM then is: the final
    [lastKnownHasForm] and all the values sent, in order. *)
Fixpoint notify_run (calls : list (nat * bool * page)) (lastKnownHasForm : option bool)
  : option bool * list bool :=
  match calls with
  | [] => (lastKnownHasForm, [])
  | (now, force, st) :: rest =>
      let '(last1, sent, _) := notifyFormAvailability now force lastKnownHasForm st in
      let (last2, sent2) := notify_run rest last1 in
      (last2, app sent sent2)
  end.

End Availability.

(* ------------------------------------------------------------------ *)
(** ** Background worker: text helpers *)

Module Helpers.
Import JsStr Desc Json.

(** [Boolean(v)] of a JSON value (JSON numbers are never [NaN]). *)
Definition js_truthy (v : json) : bool :=
  match v with
  | JNull => false
  | JBool b => b
  | JNum n => negb (n =? 0)%Z
  | JStr s => negb (String.eqb s "")
  | JArr _ | JObj _ => true
  end.

(** [fieldDisplayName(field)]. *)
Definition fieldDisplayName (f : field) : string :=
  if negb (String.eqb (label f) "") then label f
  else if negb (String.eqb (name f) "") then name f
  else if negb (String.eqb (placeholder f) "") then placeholder f
  else if negb (String.eqb (id f) "") then id f
  else if negb (String.eqb (tag f) "") then tag f
  else "field".

(** [typeof v === "string" && v.trim()], giving [v.trim()]. *)
Definition nonblank_text (v : option json) : option string :=
  match v with
  | Some (JStr s) => if String.eqb (trim s) "" then None else Some (trim s)
  | _ => None
  end.

(** [Array.isArray(v) ? v : []]. *)
Definition json_array (v : option json) : list json :=
  match v with Some (JArr xs) => xs | _ => [] end.

(** The first [Some] of a [for ... of] loop that returns early. *)
Fixpoint first_some {A B} (f : A -> option B) (l : list A) : option B :=
  match l with
  | [] => None
  | x :: r => match f x with Some y => Some y | None => first_some f r end
  end.

(** [parseOutputText(data)]. *)
Definition parseOutputText (data : json) : string :=
  match nonblank_text (get_prop "output_text" data) with
  | Some s => s
  | None =>
      match first_some (fun item =>
                          first_some (fun chunk => nonblank_text (get_prop "text" chunk))
                                     (json_array (get_prop "content" item)))
                       (json_array (get_prop "output" data)) with
      | Some s => s
      | None => ""
      end
  end.

(** [s.indexOf(sub)], [-1] as [None]. *)
Fixpoint index_of (sub s : string) : option nat :=
  if prefixb sub s then Some 0 else
  match s with
  | EmptyString => None
  | String _ s' => option_map S (index_of sub s')
  end.

(** [s.lastIndexOf(sub)]. *)
Fixpoint last_index_of (sub s : string) : option nat :=
  match s with
  | EmptyString => if prefixb sub s then Some 0 else None
  | String _ s' =>
      match last_index_of sub s' with
      | Some n => Some (S n)
      | None => if prefixb sub s then Some 0 else None
      end
  end.

Definition fence : string := "```".

(** The lazy [([\s\S]*?)```]: the text before the first fence. *)
Fixpoint before_fence (s : string) : option string :=
  if prefixb fence s then Some "" else
  match s with
  | EmptyString => None
  | String c s' => option_map (String c) (before_fence s')
  end.

(** [(?:json)?\s*([\s\S]*?)```] after an opening fence, with the [i]
    flag.  When [json] follows and no closing fence does, the branch
    without [json] finds none either, so only the first branch is tried. *)
Definition fence_body (s : string) : option string :=
  let s1 := if String.eqb (lower (substring 0 4 s)) "json" then substring 4 (String.length s) s else s in
  before_fence (trim_left s1).

(** [input.match(/```(?:json)?\s*([\s\S]*?)```/i)], its group 1: the
    leftmost opening fence that has a closing one. *)
Fixpoint fence_match (s : string) : option string :=
  match s with
  | EmptyString => None
  | String _ s' =>
      if prefixb fence s then
        match fence_body (substring 3 (String.length s) s) with
        | Some b => Some b
        | None => fence_match s'
        end
      else fence_match s'
  end.

Section Extract.
(** [JSON.parse], [None] when it throws. *)
Variable parse : string -> option json.

(** [extractJsonObject(text)], [null] as [None] (and [JSON.parse("null")]
    as [Some JNull]). *)
Definition extractJsonObject (text : string) : option json :=
  let input := trim text in
  if String.eqb input "" then None else
  let candidate := match fence_match input with Some b => trim b | None => input end in
  match parse candidate with
  | Some v => Some v
  | None =>
      match index_of "{" candidate, last_index_of "}" candidate with
      | Some firstBrace, Some lastBrace =>
          if firstBrace <? lastBrace
          then parse (substring firstBrace (S lastBrace - firstBrace) candidate)
          else None
      | _, _ => None
      end
  end.

End Extract.

Definition is_alnum (c : ascii) : bool :=
  let n := nat_of_ascii c in
  ((48 <=? n) && (n <=? 57)) || ((65 <=? n) && (n <=? 90)) || ((97 <=? n) && (n <=? 122)).

(** The characters [encodeURIComponent] leaves alone. *)
Definition uri_unreserved (c : ascii) : bool :=
  is_alnum c || existsb (Ascii.eqb c) ["-"; "_"; "."; "!"; "~"; "*"; "'"; "("; ")"]%char.

Definition hex_upper (n : nat) : ascii :=
  match String.get n "0123456789ABCDEF" with Some c => c | None => "0"%char end.

(** [encodeURIComponent] on the UTF-8 bytes of a string: every other byte
    becomes [%XX]. *)
Fixpoint encodeURIComponent (s : string) : string :=
  match s with
  | EmptyString => EmptyString
  | String c s' =>
      if uri_unreserved c then String c (encodeURIComponent s')
      else String "%" (String (hex_upper (nat_of_ascii c / 16))
                        (String (hex_upper (nat_of_ascii c mod 16)) (encodeURIComponent s')))
  end.

(** [encodeURIComponentSafe(value)] of a string value ([String("")] for
    a missing one). *)
Definition encodeURIComponentSafe (value : string) : string := encodeURIComponent value.

End Helpers.

(* ------------------------------------------------------------------ *)
(** ** shared-utils.js: [bytesToBase64] and [base64ToBytes] *)

Module Base64.

(** The base64 alphabet. *)
Definition b64_char (n : nat) : ascii :=
  if n <? 26 then ascii_of_nat (65 + n)
  else if n <? 52 then ascii_of_nat (97 + (n - 26))
  else if n <? 62 then ascii_of_nat (48 + (n - 52))
  else if n =? 62 then "+"%char else "/"%char.

Definition b64_value (c : ascii) : option nat :=
  let n := nat_of_ascii c in
  if (65 <=? n) && (n <=? 90) then Some (n - 65)
  else if (97 <=? n) && (n <=? 122) then Some (n - 71)
  else if (48 <=? n) && (n <=? 57) then Some (n + 4)
  else if n =? 43 then Some 62
  else if n =? 47 then Some 63
  else None.

(** Three octets to four sextets, padding the last group with [=]. *)
Fixpoint encode_groups (bs : list nat) : string :=
  match bs with
  | b0 :: b1 :: b2 :: rest =>
      String (b64_char (b0 / 4)) (String (b64_char ((b0 mod 4) * 16 + b1 / 16))
        (String (b64_char ((b1 mod 16) * 4 + b2 / 64)) (String (b64_char (b2 mod 64))
          (encode_groups rest))))
  | [b0; b1] =>
      String (b64_char (b0 / 4)) (String (b64_char ((b0 mod 4) * 16 + b1 / 16))
        (String (b64_char ((b1 mod 16) * 4)) "="))
  | [b0] => String (b64_char (b0 / 4)) (String (b64_char ((b0 mod 4) * 16)) "==")
  | [] => ""
  end.

(** [btoa(binary)], the string given by its character codes; it throws
    [InvalidCharacterError] ([None]) on a code above 255. *)
Definition btoa (binary : list nat) : option string :=
  if forallb (fun n => n <=? 255) binary then Some (encode_groups binary) else None.

(** ASCII whitespace, removed by [atob]. *)
Definition ascii_whitespace (c : ascii) : bool :=
  match nat_of_ascii c with 9 | 10 | 12 | 13 | 32 => true | _ => false end.

Definition pad : ascii := "="%char.

(** Step 2 of forgiving-base64 decode: one or two trailing [=] go when the
    length is a multiple of 4. *)
Definition strip_padding (cs : list ascii) : list ascii :=
  if length cs mod 4 =? 0 then
    match rev cs with
    | c1 :: c2 :: r => if Ascii.eqb c1 pad then
                         if Ascii.eqb c2 pad then rev r else rev (c2 :: r)
                       else cs
    | [c1] => if Ascii.eqb c1 pad then [] else cs
    | [] => cs
    end
  else cs.

(** Four sextets to three octets; a last group of 2 or 3 sextets gives 1
    or 2 octets, its extra bits dropped. *)
Fixpoint decode_groups (vs : list nat) : list nat :=
  match vs with
  | c0 :: c1 :: c2 :: c3 :: rest =>
      (c0 * 4 + c1 / 16) :: ((c1 mod 16) * 16 + c2 / 4) :: ((c2 mod 4) * 64 + c3)
        :: decode_groups rest
  | [c0; c1; c2] => [c0 * 4 + c1 / 16; (c1 mod 16) * 16 + c2 / 4]
  | [c0; c1] => [c0 * 4 + c1 / 16]
  | _ => []
  end.

Fixpoint map_option {A B} (f : A -> option B) (l : list A) : option (list B) :=
  match l with
  | [] => Some []
  | x :: r => match f x, map_option f r with
              | Some y, Some ys => Some (y :: ys)
              | _, _ => None
              end
  end.

(** [atob(data)]: the character codes of the result, [None] for the
    [InvalidCharacterError]. *)
Definition atob (data : string) : option (list nat) :=
  let cs := strip_padding (filter (fun c => negb (ascii_whitespace c)) (list_ascii_of_string data)) in
  if length cs mod 4 =? 1 then None else
  match map_option b64_value cs with
  | Some vs => Some (decode_groups vs)
  | None => None
  end.

(** [new Uint8Array(n)] element assignment: ToUint8. *)
Definition to_uint8 (n : nat) : Byte.byte :=
  match Byte.of_nat (n mod 256) with Some b => b | None => Byte.x00 end.

(** [bytesToBase64(bytes)]: [String.fromCharCode] of each byte, then
    [btoa]. *)
Definition bytesToBase64 (bytes : list Byte.byte) : option string :=
  btoa (map Byte.to_nat bytes).

(** [base64ToBytes(base64)]. *)
Definition base64ToBytes (base64 : string) : option (list Byte.byte) :=
  match atob base64 with
  | Some binary => Some (map to_uint8 binary)
  | None => None
  end.

End Base64.

(* ------------------------------------------------------------------ *)
(** ** [runWithConcurrency(items, limit, worker)] *)

Module Concurrency.

Section Pool.
Variable T : Type.
(** [Boolean(item)]. *)
Variable truthy : T -> bool.

(** A worker of the pool: awaiting [worker(x)], or returned. *)
Inductive worker_state := Running (x : T) | Finished.

(** The queue, the workers and the items passed to [worker], in order. *)
Record pool := mk_pool { queue : list T; workers : list worker_state; started : list T }.

(** One turn of the [while] loop of a worker: [queue.shift()], then
    [break] on a falsy item or the call [worker(next)]. *)
Definition take (q : list T) (s : list T) : worker_state * list T * list T :=
  match q with
  | [] => (Finished, [], s)
  | x :: q' => if truthy x then (Running x, q', app s [x]) else (Finished, q', s)
  end.

(** The [for] loop: each async worker runs synchronously to its first
    [await]. *)
Fixpoint start_workers (n : nat) (q s : list T) : list worker_state * list T * list T :=
  match n with
  | O => ([], q, s)
  | S n' =>
      let '(w, q1, s1) := take q s in
      let '(ws, q2, s2) := start_workers n' q1 s1 in
      (w :: ws, q2, s2)
  end.

Definition runWithConcurrency_init (items : list T) (limit : nat) : pool :=
  let '(ws, q, s) := start_workers (Nat.min limit (length items)) items [] in mk_pool q ws s.

(** A pending [worker(x)] settles, in any order, and its worker goes on.
    The worker of [processAutofill] catches every error, so none rejects. *)
Inductive step : pool -> pool -> Prop :=
| step_settle (q : list T) (ws1 ws2 : list worker_state) (x : T) (s : list T)
    (w : worker_state) (q' s' : list T) :
    take q s = (w, q', s') ->
    step (mk_pool q (app ws1 (Running x :: ws2)) s) (mk_pool q' (app ws1 (w :: ws2)) s').

(** [Promise.all(workers)] has settled. *)
Definition all_finished (p : pool) : Prop := Forall (fun w => w = Finished) (workers p).

End Pool.

Arguments Running {T} x.
Arguments Finished {T}.
Arguments mk_pool {T} queue workers started.
Arguments queue {T} p.
Arguments workers {T} p.
Arguments started {T} p.

End Concurrency.

(* ------------------------------------------------------------------ *)
(** ** Background worker: single-field requests and the file store *)

Module Store.
Import JsStr Desc Json FieldSafety FieldSafetyDesc Background Retry Helpers.

(** What [getSettings()] resolves to: the API key and the stored
    [settings.vectorStoreId || ""]. *)
Record settings := mk_settings { apiKey : string; vectorStoreId : string }.

Inductive single_result := SNotFound | SFound (value : string).

(** [processSingleField(field, allowSensitive)]: the attempts made and the
    thrown message or the result; [field] is [None] when it is not an
    object. *)
Definition processSingleField (s : settings) (field : option Desc.field) (allowSensitive : bool)
    (net : list Desc.field -> nat -> fetch_outcome) (rnd : nat -> Q)
  : list retry_event * (string + single_result) :=
  let key := trim (apiKey s) in
  let vs := trim (vectorStoreId s) in
  if String.eqb key "" then ([], inl "OpenAI API key is missing. Add it in the extension popup.") else
  if String.eqb vs "" then ([], inl "Vector Store ID is missing. Add it in the extension popup.") else
  match field with
  | None => ([], inl "Invalid field payload.")
  | Some f =>
      if res_sensitive (isSensitiveFieldDescriptor f) && negb allowSensitive
      then ([], inl "Sensitive field requires explicit confirmation.") else
      let (evs, o) := withRetry (fun n => queryFieldBatchAnswers [f] (net [f] n)) rnd AUTOFILL_RETRIES in
      match o with
      | Returned answerByUid =>
          let answer := match get_answer (uid f) answerByUid with Some a => a | None => "" end in
          (evs, inr (if String.eqb answer "" then SNotFound else SFound answer))
      | Thrown (Some e) => (evs, inl (err_message e))
      | Thrown None => (evs, inl "")   (* [throw null]: not reached, [AUTOFILL_RETRIES >= 1] *)
      end
  end.

(** The payload of [VECTOR_FILES_ADD]: [file.filename], [file.base64] and
    [file.mimeType] ([""] when absent). *)
Record file_payload := mk_payload { filename : string; base64 : string; mimeType : string }.

(** The requests to the OpenAI API, with the key of their [Authorization]
    header; file ids are the JSON values the code passes on. *)
Inductive request :=
| ListFiles (key vectorStoreId : string) (after : option json)   (* GET .../files?limit=100[&after=] *)
| DetachFile (key vectorStoreId : string) (fileId : json)        (* DELETE .../vector_stores/{vs}/files/{id} *)
| DeleteFile (key : string) (fileId : json)                      (* DELETE /v1/files/{id} *)
| DeleteStore (key vectorStoreId : string)                       (* DELETE /v1/vector_stores/{vs} *)
| UploadFile (key filename mimeType : string) (bytes : list Byte.byte)   (* POST /v1/files *)
| AttachFile (key vectorStoreId : string) (fileId : option json).        (* POST .../vector_stores/{vs}/files *)

(** What [fetch] gives: a rejection, a non-ok status with the details of
    [parseErrorDetails], or an ok response whose [json()] rejects or
    resolves. *)
Inductive response :=
| NetErr (msg : string)
| HttpErr (status : Z) (details : string)
| Ok (body : string + json).

(** How an async operation ends: resolved, rejected with a message, or
    still running when the fuel of a loop ran out. *)
Inductive res (A : Type) := Val (a : A) | Err (msg : string) | Diverge.
Arguments Val {A} a.
Arguments Err {A} msg.
Arguments Diverge {A}.

(** The requests made, in order, and the end of the operation. *)
Definition M (A : Type) : Type := list request * res A.

Definition ret {A} (a : A) : M A := ([], Val a).
Definition throw {A} (msg : string) : M A := ([], Err msg).

Definition bind {A B} (m : M A) (k : A -> M B) : M B :=
  match m with
  | (log, Val a) => let (log2, r) := k a in (app log log2, r)
  | (log, Err msg) => (log, Err msg)
  | (log, Diverge) => (log, Diverge)
  end.

Notation "x <- m ; k" := (bind m (fun x => k)) (at level 61, m at next level, right associativity).

Definition call (api : request -> response) (r : request) : M response := ([r], Val (api r)).

(** [if (!response.ok) throw new Error(classifyHttpError(...) ...)]. *)
Definition expect_ok (resp : response) : M unit :=
  match resp with
  | NetErr m => throw m
  | HttpErr st d => throw (err_message (createHttpError st d))
  | Ok _ => ret tt
  end.

(** The same check, then [await response.json()]. *)
Definition expect_json (resp : response) : M json :=
  match resp with
  | NetErr m => throw m
  | HttpErr st d => throw (err_message (createHttpError st d))
  | Ok (inl m) => throw m
  | Ok (inr v) => ret v
  end.

(** [try { await ... } catch (_ignored) {}]. *)
Definition ignore_errors (m : M unit) : M unit :=
  (fst m, match snd m with Diverge => Diverge | _ => Val tt end).

(** The [while (true)] loop of [listAllVectorStoreFilesRaw], [fuel]
    iterations at most. *)
Fixpoint list_pages (api : request -> response) (fuel : nat) (key vs : string) (after : option json)
  : M (list json) :=
  match fuel with
  | O => ([], Diverge)
  | S fuel' =>
      resp <- call api (ListFiles key vs after);
      payload <- expect_json resp;
      let pageFiles := json_array (get_prop "data" payload) in
      let hasMore := match get_prop "has_more" payload with Some v => js_truthy v | None => false end in
      if negb hasMore || (length pageFiles =? 0) then ret pageFiles else
      match get_prop "id" (last pageFiles JNull) with
      | Some idv =>
          if js_truthy idv then
            rest <- list_pages api fuel' key vs (Some idv);
            ret (app pageFiles rest)
          else ret pageFiles
      | None => ret pageFiles
      end
  end.

(** [listAllVectorStoreFilesRaw({apiKey, vectorStoreId})]. *)
Definition listAllVectorStoreFilesRaw (api : request -> response) (fuel : nat) (key vs : string)
  : M (list json) :=
  list_pages api fuel key vs None.

(** [item?.file_id || ""]. *)
Definition file_id_of (item : json) : json :=
  match get_prop "file_id" item with Some v => v | None => JStr "" end.

(** SameValueZero on JSON values: two parsed objects are never the same. *)
Definition same_value_zero (a b : json) : bool :=
  match a, b with
  | JNull, JNull => true
  | JBool x, JBool y => Bool.eqb x y
  | JNum x, JNum y => (x =? y)%Z
  | JStr x, JStr y => String.eqb x y
  | _, _ => false
  end.

(** [Array.from(new Set(xs))]. *)
Fixpoint set_values (seen : list json) (xs : list json) : list json :=
  match xs with
  | [] => []
  | x :: r =>
      if existsb (same_value_zero x) seen then set_values seen r
      else x :: set_values (x :: seen) r
  end.

Definition uniqueFileIds (files : list json) : list json :=
  set_values [] (filter js_truthy (map file_id_of files)).

Definition detachFileFromVectorStore (api : request -> response) (key vs : string) (fileId : json) : M unit :=
  resp <- call api (DetachFile key vs fileId); expect_ok resp.

Definition deleteOpenAIFile (api : request -> response) (key : string) (fileId : json) : M unit :=
  resp <- call api (DeleteFile key fileId); expect_ok resp.

Definition deleteVectorStore (api : request -> response) (key vs : string) : M unit :=
  resp <- call api (DeleteStore key vs); expect_ok resp.

(** The [for] loop of [processVectorStoreDelete]. *)
Fixpoint delete_files (api : request -> response) (key vs : string) (ids : list json) : M unit :=
  match ids with
  | [] => ret tt
  | fileId :: rest =>
      _ <- ignore_errors (detachFileFromVectorStore api key vs fileId);
      _ <- ignore_errors (deleteOpenAIFile api key fileId);
      delete_files api key vs rest
  end.

(** [processVectorStoreDelete(vectorStoreId)], [vectorStoreId] being [""]
    when absent; the result is [deletedFiles]. *)
Definition processVectorStoreDelete (api : request -> response) (fuel : nat) (vectorStoreIdArg : string)
    (s : settings) : M nat :=
  let key := trim (apiKey s) in
  let selectedVectorStoreId :=
    trim (if String.eqb vectorStoreIdArg "" then vectorStoreId s else vectorStoreIdArg) in
  if String.eqb key "" then throw "OpenAI API key is missing. Add it in the extension popup." else
  if String.eqb selectedVectorStoreId "" then throw "No file database selected." else
  files <- listAllVectorStoreFilesRaw api fuel key selectedVectorStoreId;
  let ids := uniqueFileIds files in
  _ <- delete_files api key selectedVectorStoreId ids;
  _ <- deleteVectorStore api key selectedVectorStoreId;
  ret (length ids).

(** [processVectorFileDelete(fileId)]. *)
Definition processVectorFileDelete (api : request -> response) (fileId : json) (s : settings) : M unit :=
  let key := trim (apiKey s) in
  let vs := trim (vectorStoreId s) in
  if String.eqb key "" then throw "OpenAI API key is missing. Add it in the extension popup." else
  if String.eqb vs "" then throw "Vector Store ID is missing. Add it in the extension popup." else
  if negb (js_truthy fileId) then throw "Missing file id." else
  _ <- detachFileFromVectorStore api key vs fileId;
  _ <- ignore_errors (deleteOpenAIFile api key fileId);
  ret tt.

(** The message of the [DOMException] thrown by [atob] (V8). *)
Definition atob_error : string := "The string to be decoded is not correctly encoded.".

(** The [TypeError] of reading [id] on [null] (V8). *)
Definition null_id_error : string := "Cannot read properties of null (reading 'id')".

(** [uploadFileToOpenAI({apiKey, file})], [file] being [None] when
    absent. *)
Definition uploadFileToOpenAI (api : request -> response) (key : string) (file : option file_payload)
  : M json :=
  match file with
  | None => throw "Invalid file payload."
  | Some f =>
      if String.eqb (filename f) "" || String.eqb (base64 f) "" then throw "Invalid file payload." else
      match Base64.base64ToBytes (base64 f) with
      | None => throw atob_error
      | Some bytes =>
          resp <- call api (UploadFile key (filename f)
                              (if String.eqb (mimeType f) "" then "application/octet-stream" else mimeType f)
                              bytes);
          expect_json resp
      end
  end.

(** [processVectorFileAdd(file)]. *)
Definition processVectorFileAdd (api : request -> response) (file : option file_payload) (s : settings)
  : M unit :=
  let key := trim (apiKey s) in
  let vs := trim (vectorStoreId s) in
  if String.eqb key "" then throw "OpenAI API key is missing. Add it in the extension popup." else
  if String.eqb vs "" then throw "Vector Store ID is missing. Add it in the extension popup." else
  uploaded <- uploadFileToOpenAI api key file;
  match uploaded with
  | JNull => throw null_id_error
  | _ =>
      resp <- call api (AttachFile key vs (get_prop "id" uploaded));
      _ <- expect_json resp;
      ret tt
  end.

(** [processVectorFileUpdate(fileId, file)]. *)
Definition processVectorFileUpdate (api : request -> response) (fileId : json) (file : option file_payload)
    (s : settings) : M unit :=
  _ <- processVectorFileDelete api fileId s;
  _ <- processVectorFileAdd api file s;
  ret tt.

End Store.

(* ------------------------------------------------------------------ *)
(** ** Content script: the inline "Fill with AI" button *)

Module Inline.
Import JsStr Dom Desc Content Fill Retry Background Store.

(** The click handler of the hover button on element [i], the user
    answering [confirmed] to the [window.confirm] of a sensitive field,
    the message relayed to [processSingleField] in the background: the
    status shown (text and error flag), the attempts made and the page. *)
Definition hoverFill (now : nat) (i : nat) (confirmed : bool) (s : settings)
    (net : list field -> nat -> fetch_outcome) (rnd : nat -> Q) (st : page)
  : (string * bool) * list retry_event * page :=
  match nth_error (elements st) i with
  | None => (("Field unavailable", true), [], st)
  | Some el =>
      if shouldSkipInput el then (("Field unavailable", true), [], st) else
      let (descriptor, st1) := getFieldDescriptor now i st in
      if sensitive descriptor && negb confirmed
      then (("Sensitive field fill cancelled.", true), [], st1) else
      let allowSensitive := sensitive descriptor && confirmed in
      let (evs, r) := processSingleField s (Some descriptor) allowSensitive net rnd in
      match r with
      | inl msg => ((if String.eqb msg "" then "Could not fill field." else msg, true), evs, st1)
      | inr SNotFound => (("No answer found", true), evs, st1)
      | inr (SFound v) =>
          match fillField (uid descriptor) v allowSensitive st1 with
          | (FillErr e, st2) =>
              ((if String.eqb e "" then "Unable to apply answer to field." else e, true), evs, st2)
          | (FillOk, st2) => (("Field filled", false), evs, st2)
          end
      end
  end.

End Inline.

(* ------------------------------------------------------------------ *)
(** ** popup.js: [fileToPayload] *)

Module Popup.
Import Store.

(** [fileToPayload(file)] of the popup: the file's name, its MIME type
    and its bytes. *)
Definition fileToPayload (name type : string) (bytes : list Byte.byte) : option file_payload :=
  match Base64.bytesToBase64 bytes with
  | Some b64 => Some (mk_payload name b64 (if String.eqb type "" then "application/octet-stream" else type))
  | None => None
  end.

End Popup.

(* ------------------------------------------------------------------ *)
(** ** Concrete pages used as inputs below *)

Module Examples.
Import Dom Content.

Definition text_input (nm lbl : string) : element :=
  mk_element "INPUT" "text" nm "" "" "" "" false false false "block" "visible" 100 20 lbl [] "" false None.

Definition password_input : element :=
  mk_element "INPUT" "password" "pass" "pw" "" "" "current-password" true false false
    "block" "visible" 100 20 "Password" [] "" false None.

Definition country_select : element :=
  mk_element "SELECT" "select-one" "country" "" "" "" "" false false false "block" "visible" 100 20
    "Country" [mk_option "United States" "United States"; mk_option "Canada" "Canada"] "United States"
    false None.

Definition newsletter_checkbox : element :=
  mk_element "INPUT" "checkbox" "news" "" "" "" "" false false false "block" "visible" 20 20
    "Newsletter" [] "on" false None.

Definition radio (lbl v : string) : element :=
  mk_element "INPUT" "radio" "consent" "" "" "" "" false false false "block" "visible" 20 20
    lbl [] v false None.

(** A page: email, password, country select, checkbox, two radios. *)
Definition page0 : page :=
  mk_page [text_input "email" "Email"; password_input; country_select; newsletter_checkbox;
           radio "No, thanks" "no_thanks"; radio "No" "no"] 0 [] [].

(** [page0] after one [collectFields]: uids [aff-1-1] to [aff-1-6] in
    document order, all six in [fieldMap]. *)
Definition page0_collected : page := snd (collectFields 1 false page0).

(** Descriptors as the page reports them. *)
Definition email_field (u : string) : Desc.field :=
  Desc.mk_field u "input" "email" "" "" "email" "" "" "Email" false false "" None.

End Examples.

(** Runs of [processAutofill] on a page that accepts every fill. *)

Module Runs.
Import Desc Json Background Retry Autofill.
(** A page that accepts every fill. *)
Definition accept_all (pg : unit) (u v : string) : Fill.fill_result * unit := (Fill.FillOk, pg).

(** Two "Email" inputs of a multi-row form, same fingerprint. *)
Definition two_emails : list field := [Examples.email_field "aff-1-1"; Examples.email_field "aff-1-7"].

Definition net_ok (batch : list field) (n : nat) : fetch_outcome :=
  FResponse (Some (JObj [("aff-1-1", JStr " a@b.c ")])).

Definition net_down (batch : list field) (n : nat) : fetch_outcome := FHttpError 503 "".

Definition net_not_found (batch : list field) (n : nat) : fetch_outcome :=
  FResponse (Some (JObj [("aff-1-1", JStr " NOT_FOUND ")])).

Definition rnd_half (k n : nat) : Q := (1 # 2)%Q.

(** The 35 s timer fires on the first request only. *)
Definition work_timeout_then_ok (n : nat) : js_error + uid_answers :=
  queryFieldBatchAnswers [Examples.email_field "aff-1-1"]
    (if n =? 1 then FTimeout else net_ok [] n).

Definition work_http408_then_ok (n : nat) : js_error + uid_answers :=
  queryFieldBatchAnswers [Examples.email_field "aff-1-1"]
    (if n =? 1 then FHttpError 408 "" else net_ok [] n).
End Runs.

(** Inputs for the text helpers, the file store and the worker pool. *)

Module ExtraRuns.
Import Json Helpers Store Concurrency.

(** [JSON.parse] on the one text used below. *)
Definition parse_empty_object (s : string) : option json :=
  if String.eqb s "{}" then Some (JObj []) else None.

(** Stored settings: a key with blanks around it, a file database. *)
Definition settings0 : settings := mk_settings " sk-1 " "vs_1".

(** Two vector-store file objects. *)
Definition vs_file1 : json := JObj [("id", JStr "vsf_1"); ("file_id", JStr "file-1")].
Definition vs_file2 : json := JObj [("id", JStr "vsf_2"); ("file_id", JStr "file-2")].

(** A server listing two pages of files; every other request succeeds. *)
Definition api_two_pages (r : request) : response :=
  match r with
  | ListFiles _ _ None => Ok (inr (JObj [("data", JArr [vs_file1]); ("has_more", JBool true)]))
  | ListFiles _ _ (Some _) => Ok (inr (JObj [("data", JArr [vs_file2]); ("has_more", JBool false)]))
  | _ => Ok (inr (JObj [("id", JStr "file-9")]))
  end.

(** A server that answers the first page again for every cursor. *)
Definition api_stuck (r : request) : response :=
  match r with
  | ListFiles _ _ _ => Ok (inr (JObj [("data", JArr [vs_file1]); ("has_more", JBool true)]))
  | _ => Ok (inr (JObj []))
  end.

(** A server on which detaching a file fails with 404. *)
Definition api_detach_404 (r : request) : response :=
  match r with
  | DetachFile _ _ _ => HttpErr 404 ""
  | _ => Ok (inr (JObj [("id", JStr "file-9")]))
  end.

(** [Boolean(n)] on numbers. *)
Definition nz (n : nat) : bool := negb (n =? 0).

(** A pool of two workers over three items, after every call settled. *)
Definition pool_done : pool nat := mk_pool [] [Finished; Finished] [1; 2; 3].

End ExtraRuns.

(* ================================================================== *)
(** * Properties *)

(** ** [cleanText] / [clean] and [toLowerCase] *)

Module StrFacts.
Import JsStr.

Lemma is_ws_lower_char (c : ascii) : is_ws (lower_char c) = is_ws c.
Proof. destruct c as [[] [] [] [] [] [] [] []]; reflexivity. Qed.

Lemma lower_char_ws (c : ascii) : is_ws c = true -> lower_char c = c.
Proof. destruct c as [[] [] [] [] [] [] [] []]; first [reflexivity | discriminate]. Qed.

Lemma lower_char_idem (c : ascii) : lower_char (lower_char c) = lower_char c.
Proof. destruct c as [[] [] [] [] [] [] [] []]; reflexivity. Qed.

Lemma lower_idem (s : string) : lower (lower s) = lower s.
Proof. induction s as [|c s IH]; simpl; [reflexivity | now rewrite lower_char_idem, IH]. Qed.

Lemma lower_empty (s : string) : lower s = EmptyString <-> s = EmptyString.
Proof. destruct s; simpl; split; congruence. Qed.

Lemma collapse_aux_lower (b : bool) (s : string) :
  collapse_aux b (lower s) = lower (collapse_aux b s).
Proof.
  revert b; induction s as [|c s IH]; intros b; simpl; [reflexivity|].
  rewrite is_ws_lower_char.
  destruct (is_ws c) eqn:Hc; [destruct b|]; simpl; rewrite ?IH; try reflexivity.
Qed.

Lemma trim_left_lower (s : string) : trim_left (lower s) = lower (trim_left s).
Proof.
  induction s as [|c s IH]; simpl; [reflexivity|].
  rewrite is_ws_lower_char. destruct (is_ws c); [exact IH | reflexivity].
Qed.

Lemma trim_right_lower (s : string) : trim_right (lower s) = lower (trim_right s).
Proof.
  induction s as [|c s IH]; simpl; [reflexivity|].
  rewrite IH, is_ws_lower_char.
  destruct (trim_right s); simpl; [destruct (is_ws c)|]; reflexivity.
Qed.

Lemma clean_lower (s : string) : clean (lower s) = lower (clean s).
Proof.
  unfold clean, trim, collapse.
  now rewrite collapse_aux_lower, trim_left_lower, trim_right_lower.
Qed.

(** Output shape of [collapse_aux]: whitespace only as single spaces,
    never two in a row, none first when [in_run]. *)
Fixpoint collapsed (in_run : bool) (s : string) : bool :=
  match s with
  | EmptyString => true
  | String c s' =>
      if is_ws c then negb in_run && Ascii.eqb c space && collapsed true s'
      else collapsed false s'
  end.

Lemma collapsed_cons (b : bool) (c : ascii) (t : string) :
  collapsed b (String c t) =
  if is_ws c then negb b && Ascii.eqb c space && collapsed true t else collapsed false t.
Proof. reflexivity. Qed.

Lemma collapsed_collapse_aux (b : bool) (s : string) : collapsed b (collapse_aux b s) = true.
Proof.
  revert b; induction s as [|c s IH]; intros b; simpl; [reflexivity|].
  destruct (is_ws c) eqn:Hc; [destruct b|]; simpl; rewrite ?Hc; try apply IH.
Qed.

Lemma collapse_aux_collapsed (b : bool) (s : string) :
  collapsed b s = true -> collapse_aux b s = s.
Proof.
  revert b; induction s as [|c s IH]; intros b H; simpl in *; [reflexivity|].
  destruct (is_ws c) eqn:Hc.
  - apply andb_prop in H as [H1 H3]. apply andb_prop in H1 as [H0 H2].
    destruct b; [discriminate|]. apply Ascii.eqb_eq in H2; subst c.
    now rewrite IH.
  - now rewrite IH.
Qed.

Lemma collapsed_trim_left (b : bool) (s : string) :
  collapsed b s = true -> collapsed false (trim_left s) = true.
Proof.
  revert b; induction s as [|c s IH]; intros b H; simpl in *; [reflexivity|].
  destruct (is_ws c) eqn:Hc.
  - apply andb_prop in H as [_ H]. exact (IH true H).
  - simpl. now rewrite Hc.
Qed.

Lemma collapsed_trim_right (b : bool) (s : string) :
  collapsed b s = true -> collapsed b (trim_right s) = true.
Proof.
  revert b; induction s as [|c s IH]; intros b H; simpl in *; [reflexivity|].
  destruct (is_ws c) eqn:Hc.
  - apply andb_prop in H as [H1 H2]. specialize (IH true H2).
    destruct (trim_right s) eqn:Hr; [reflexivity|].
    rewrite collapsed_cons, Hc, H1, IH. reflexivity.
  - specialize (IH false H).
    destruct (trim_right s) eqn:Hr; rewrite collapsed_cons, Hc; [reflexivity | exact IH].
Qed.

Lemma trim_right_cons (c : ascii) (t : string) :
  trim_right (String c t) =
  match trim_right t with
  | EmptyString => if is_ws c then EmptyString else String c EmptyString
  | _ => String c (trim_right t)
  end.
Proof. simpl. destruct (trim_right t); reflexivity. Qed.

Lemma trim_right_idem (s : string) : trim_right (trim_right s) = trim_right s.
Proof.
  induction s as [|c s IH]; [reflexivity|].
  rewrite (trim_right_cons c s).
  destruct (trim_right s) as [|a s0] eqn:Hr.
  - destruct (is_ws c) eqn:Hc; simpl; rewrite ?Hc; reflexivity.
  - rewrite trim_right_cons, IH. reflexivity.
Qed.

Lemma trim_left_trim_right_trim_left (s : string) :
  trim_left (trim_right (trim_left s)) = trim_right (trim_left s).
Proof.
  induction s as [|c s IH]; simpl; [reflexivity|].
  destruct (is_ws c) eqn:Hc; [exact IH|].
  simpl. destruct (trim_right s); [rewrite Hc|]; simpl; rewrite Hc; reflexivity.
Qed.

(** [clean] is idempotent: [cleanText] applied by [getFieldDescriptor]
    followed by [clean] in the classifier is [clean] once. *)
Lemma clean_idem (s : string) : clean (clean s) = clean s.
Proof.
  unfold clean at 1, trim at 1, collapse.
  rewrite (collapse_aux_collapsed false (clean s)).
  - unfold clean, trim. rewrite trim_left_trim_right_trim_left. apply trim_right_idem.
  - unfold clean, trim, collapse. apply collapsed_trim_right, (collapsed_trim_left false).
    apply collapsed_collapse_aux.
Qed.

End StrFacts.

(** ** The two call shapes of the classifier *)

Module ClassifierFacts.
Import JsStr Dom FieldSafety Desc FieldSafetyDesc Content StrFacts.

Lemma form_control_tag (e : element) :
  is_form_control e = true ->
  lower (el_tagName e) = "input" \/ lower (el_tagName e) = "textarea" \/
  lower (el_tagName e) = "select".
Proof.
  unfold is_form_control, mem. simpl. intros H.
  rewrite !orb_true_iff, !String.eqb_eq in H. intuition discriminate.
Qed.

(** The descriptor built from [e] classifies as [e] itself does. *)
Lemma descriptor_of_classifies_as_element (u : string) (e : element) (lbl : string) :
  is_form_control e = true ->
  isSensitiveFieldDescriptor (descriptor_of u e lbl) = isSensitiveFieldElement e lbl.
Proof.
  intros H.
  unfold isSensitiveFieldDescriptor, isSensitiveFieldElement, descriptor_of,
    getAutocompleteTokens, getElementTextForSensitivity.
  cbn [tag type autocomplete ariaLabel name id placeholder label map].
  destruct (form_control_tag e H) as [Ht|[Ht|Ht]]; rewrite Ht;
    rewrite !clean_lower, !lower_idem, !clean_idem; [|reflexivity|reflexivity].
  change (lower (clean "input")) with "input".
  destruct (String.eqb (lower (clean (el_type e))) "") eqn:E; [|reflexivity].
  apply String.eqb_eq in E. rewrite E. reflexivity.
Qed.

Lemma nth_error_update_nth {A} (i : nat) (f : A -> A) (l : list A) :
  nth_error (update_nth i f l) i = option_map f (nth_error l i).
Proof. revert l; induction i as [|i IH]; intros [|x l]; simpl; auto. Qed.

Lemma nth_error_update_nth_other {A} (i j : nat) (f : A -> A) (l : list A) :
  i <> j -> nth_error (update_nth i f l) j = nth_error l j.
Proof.
  revert j l; induction i as [|i IH]; intros [|j] [|x l] Hij; simpl; auto; try lia.
Qed.

Lemma length_update_nth {A} (i : nat) (f : A -> A) (l : list A) :
  length (update_nth i f l) = length l.
Proof. revert l; induction i as [|i IH]; intros [|x l]; simpl; auto. Qed.

(** [getFieldDescriptor] on element [e]: the descriptor is [descriptor_of]
    [e] with the uid read or stamped and [e]'s label. *)
Lemma getFieldDescriptor_descr (now i : nat) (st : page) (e : element) :
  nth_error (elements st) i = Some e ->
  exists u, fst (getFieldDescriptor now i st) = descriptor_of u e (el_label_text e).
Proof.
  intros He. unfold getFieldDescriptor, ensureFieldUid. rewrite He.
  destruct (el_aff_uid e) as [u|] eqn:Hu; [destruct (String.eqb u "")|];
    cbn [fst elements set_elements set_counter];
    rewrite ?nth_error_update_nth, ?He; cbn [option_map]; eexists; reflexivity.
Qed.

(** An element with its uid stamp removed: stamping changes nothing else. *)
Definition erase_uid (e : element) : element :=
  mk_element (el_tagName e) (el_type e) (el_name e) (el_id e) (el_placeholder e)
    (el_aria_label e) (el_autocomplete e) (el_required e) (el_disabled e)
    (el_readOnly e) (el_display e) (el_visibility e) (el_width e) (el_height e)
    (el_label_text e) (el_options e) (el_value e) (el_checked e) None.

Lemma descriptor_of_erase_eq (u : string) (e e' : element) :
  erase_uid e' = erase_uid e ->
  descriptor_of u e' (el_label_text e') = descriptor_of u e (el_label_text e).
Proof.
  intros H.
  change (descriptor_of u (erase_uid e') (el_label_text (erase_uid e')) =
          descriptor_of u (erase_uid e) (el_label_text (erase_uid e))).
  now rewrite H.
Qed.

Lemma map_update_nth_inv {A B} (g : A -> B) (f : A -> A) (i : nat) (l : list A) :
  (forall x, g (f x) = g x) -> map g (update_nth i f l) = map g l.
Proof.
  intros Hf. revert l; induction i as [|i IH]; intros [|x l]; simpl; rewrite ?Hf, ?IH; auto.
Qed.

Lemma getFieldDescriptor_elements (now i : nat) (st : page) :
  map erase_uid (elements (snd (getFieldDescriptor now i st))) = map erase_uid (elements st).
Proof.
  unfold getFieldDescriptor, ensureFieldUid.
  destruct (nth_error (elements st) i) as [e|]; [|reflexivity].
  destruct (el_aff_uid e) as [u|]; [destruct (String.eqb u "")|];
    cbn [snd elements set_fieldMap set_elements set_counter]; try reflexivity;
    apply map_update_nth_inv; reflexivity.
Qed.

Lemma nth_error_erase (l l' : list element) (i : nat) (e : element) :
  map erase_uid l' = map erase_uid l -> nth_error l i = Some e ->
  exists e', nth_error l' i = Some e' /\ erase_uid e' = erase_uid e.
Proof.
  intros Hm He.
  assert (H := f_equal (fun m => nth_error m i) Hm). cbv beta in H.
  rewrite !nth_error_map, He in H.
  destruct (nth_error l' i) as [e'|]; cbn [option_map] in H; [|discriminate].
  exists e'. split; [reflexivity|]. congruence.
Qed.

(** [describe_all] gives, at position [k], the descriptor of the [k]-th
    listed element, as it was before stamping. *)
Lemma describe_all_spec (now : nat) (idxs : list nat) (st : page) :
  map erase_uid (elements (snd (describe_all now idxs st))) = map erase_uid (elements st) /\
  length (fst (describe_all now idxs st)) = length idxs /\
  (forall k i e, nth_error idxs k = Some i -> nth_error (elements st) i = Some e ->
     exists u, nth_error (fst (describe_all now idxs st)) k = Some (descriptor_of u e (el_label_text e))).
Proof.
  revert st; induction idxs as [|i r IH]; intros st.
  - split; [reflexivity|]. split; [reflexivity|]. intros [|k] i e H; discriminate.
  - change (describe_all now (i :: r) st) with
      (let (d, st1) := getFieldDescriptor now i st in
       let (ds, st2) := describe_all now r st1 in (d :: ds, st2)).
    pose proof (getFieldDescriptor_elements now i st) as Hel.
    pose proof (getFieldDescriptor_descr now i st) as Hd.
    destruct (getFieldDescriptor now i st) as [d st1] eqn:E1.
    destruct (IH st1) as [IH1 [IH2 IH3]].
    destruct (describe_all now r st1) as [ds st2] eqn:E2. cbn [fst snd] in *.
    split; [congruence|]. split; [cbn [length]; congruence|].
    intros [|k] i' e Hk He.
    + injection Hk as <-. destruct (Hd e He) as [u Hu]. exists u. simpl. congruence.
    + destruct (nth_error_erase _ _ i' e Hel He) as [e' [He' Hee]].
      destruct (IH3 k i' e' Hk He') as [u Hu]. exists u. simpl. rewrite Hu.
      now rewrite (descriptor_of_erase_eq u e e' Hee).
Qed.

Lemma eligible_In (es : list element) (i : nat) :
  In i (eligible es) ->
  exists e, nth_error es i = Some e /\ is_form_control e = true /\ shouldSkipInput e = false.
Proof.
  unfold eligible. rewrite filter_In. intros [_ H].
  destruct (nth_error es i) as [e|]; [|discriminate].
  apply andb_prop in H as [H1 H2]. exists e. repeat split; auto.
  now apply negb_true_iff.
Qed.

End ClassifierFacts.

(** ** [fillField] *)

Module FillFacts.
Import JsStr Dom FieldSafety Content Fill.

Ltac break_all :=
  repeat match goal with
         | |- context [if ?b then _ else _] => destruct b
         | |- context [match ?x with _ => _ end] => destruct x
         end.

(** No failing call of [fillField] changes the page. *)
Lemma fillField_failure_pure (uid v : string) (allow : bool) (st : page) :
  fst (fillField uid v allow st) <> FillOk -> snd (fillField uid v allow st) = st.
Proof. unfold fillField. break_all; cbn [fst snd]; congruence. Qed.

Lemma find_first {A} (f : A -> bool) (l : list A) (x : A) :
  find f l = Some x ->
  exists pre post, l = app pre (x :: post) /\ f x = true /\ forall y, In y pre -> f y = false.
Proof.
  induction l as [|a l IH]; simpl; [discriminate|].
  destruct (f a) eqn:Ha.
  - intros [= <-]. exists [], l. repeat split; auto. intros y [].
  - intros H. destruct (IH H) as [pre [post [-> [Hx Hpre]]]].
    exists (a :: pre), post. repeat split; auto.
    intros y [<-|Hy]; auto.
Qed.

Lemma find_none_all {A} (f : A -> bool) (l : list A) :
  find f l = None -> forall y, In y l -> f y = false.
Proof.
  induction l as [|a l IH]; simpl; [tauto|].
  destruct (f a) eqn:Ha; [discriminate|]. intros H y [<-|Hy]; auto.
Qed.

(** Past the guards, [fillField] on a select is the option search. *)
Lemma fillField_select (uid v : string) (allow : bool) (st : page) (i : nat) (el : element) :
  map_get uid (fieldMap st) = Some i ->
  nth_error (elements st) i = Some el ->
  lower (el_tagName el) = "select" ->
  res_sensitive (isSensitiveFieldElement el (el_label_text el)) && negb allow = false ->
  clean v <> "" ->
  fillField uid v allow st =
  match select_match (lower (clean v)) (el_options el) with
  | None => (FillErr "No matching option found for select field.", st)
  | Some o => (FillOk, dispatch (set_elements st (update_nth i (with_value (opt_value o)) (elements st))) i "change")
  end.
Proof.
  intros Hm He Ht Hs Hv. unfold fillField. rewrite Hm, He, Hs, Ht.
  apply String.eqb_neq in Hv. rewrite Hv. reflexivity.
Qed.

(** Past the guards, [fillField] on a checkbox. *)
Lemma fillField_checkbox (uid v : string) (allow : bool) (st : page) (i : nat) (el : element) :
  map_get uid (fieldMap st) = Some i ->
  nth_error (elements st) i = Some el ->
  lower (el_tagName el) = "input" -> input_type el = "checkbox" ->
  res_sensitive (isSensitiveFieldElement el (el_label_text el)) && negb allow = false ->
  clean v <> "" ->
  fillField uid v allow st =
  if negb (is_truthy (clean v)) && negb (is_falsy (clean v))
  then (FillErr "Checkbox value must resolve to true/false.", st)
  else (FillOk, dispatch (set_elements st (update_nth i (with_checked (is_truthy (clean v))) (elements st))) i "change").
Proof.
  intros Hm He Ht Hc Hs Hv. unfold fillField. rewrite Hm, He, Hs, Ht, Hc.
  apply String.eqb_neq in Hv. rewrite Hv. reflexivity.
Qed.

Lemma find_app_hit {A} (f : A -> bool) (pre post : list A) (x : A) :
  (forall y, In y pre -> f y = false) -> f x = true -> find f (app pre (x :: post)) = Some x.
Proof.
  induction pre as [|a pre IH]; intros Hpre Hx; simpl; [now rewrite Hx|].
  rewrite (Hpre a (or_introl eq_refl)). apply IH; auto. intros y Hy; apply Hpre; now right.
Qed.

Lemma find_all_false {A} (f : A -> bool) (l : list A) :
  (forall y, In y l -> f y = false) -> find f l = None.
Proof.
  induction l as [|a l IH]; intros H; simpl; [reflexivity|].
  rewrite (H a (or_introl eq_refl)). apply IH. intros y Hy; apply H; now right.
Qed.

Lemma mem_In (x : string) (xs : list string) : mem x xs = true <-> In x xs.
Proof.
  unfold mem. rewrite existsb_exists. split.
  - intros [y [Hy Heq]]. apply String.eqb_eq in Heq. now subst.
  - intros H. exists x. split; [exact H | apply String.eqb_refl].
Qed.

End FillFacts.

(** ** [withRetry] *)

Module RetryFacts.
Import Background Retry.

Lemma in_attempts_of (n : nat) (evs : list retry_event) :
  In (EAttempt n) evs <-> In n (attempts_of evs).
Proof.
  induction evs as [|[m|m d] evs IH]; simpl; [tauto| |].
  - rewrite IH. split; intros [H|H]; auto; left; congruence.
  - rewrite IH. split; [intros [H|H]; [discriminate|auto] | auto].
Qed.

Lemma shouldRetry_spec (e : js_error) :
  shouldRetry e = true <->
  (err_status e = Some 408%Z \/ err_status e = Some 429%Z \/
   exists s, err_status e = Some s /\ (500 <= s)%Z).
Proof.
  unfold shouldRetry. destruct (err_status e) as [s|].
  - rewrite !orb_true_iff, !Z.eqb_eq, Z.leb_le. split.
    + intros [[H|H]|H]; subst.
      * left; reflexivity.
      * right; left; reflexivity.
      * right; right; exists s; split; [reflexivity | exact H].
    + intros [H|[H|[s' [H1 H2]]]].
      * injection H as <-. left; left; reflexivity.
      * injection H as <-. left; right; reflexivity.
      * injection H1 as <-. right; exact H2.
  - split; [discriminate|]. intros [H|[H|[s' [H1 _]]]]; discriminate.
Qed.

Lemma jitter_bounds (q : Q) : (0 <= q < 1)%Q -> (0 <= Qfloor (q * 120) < 120)%Z.
Proof.
  intros [H0 H1]. split.
  - change 0%Z with (Qfloor 0). apply Qfloor_resp_le.
    apply Qmult_le_0_compat; [exact H0 | discriminate].
  - rewrite Zlt_Qlt. eapply Qle_lt_trans; [apply Qfloor_le|].
    change (inject_Z 120) with (1 * 120)%Q. apply Qmult_lt_r; [reflexivity | exact H1].
Qed.

Section Loop.
Context {A : Type} (work : nat -> js_error + A) (rnd : nat -> Q) (R : nat).

Lemma retry_loop_spec (fuel a : nat) (last : option js_error) :
  fuel + a = S R -> 1 <= a ->
  let res := retry_loop work rnd R fuel a last in
  (exists k, attempts_of (fst res) = seq a k /\ k <= fuel /\ (1 <= fuel -> 1 <= k)) /\
  (forall n d, In (ESleep n d) (fst res) ->
     (exists e, work n = inl e /\ shouldRetry e = true) /\ n < R /\
     d = (base_delay n + jitter rnd n)%Z /\ In (EAttempt (S n)) (fst res)) /\
  (forall n, In (EAttempt (S n)) (fst res) -> a <= n -> exists d, In (ESleep n d) (fst res)) /\
  (forall n e, In (EAttempt n) (fst res) -> work n = inl e -> shouldRetry e = false ->
     snd res = Thrown (Some e) /\ ~ In (EAttempt (S n)) (fst res)).
Proof.
  revert a last. induction fuel as [|f IH]; intros a last Hf Ha; simpl.
  - refine (conj _ (conj _ (conj _ _))).
    + exists 0. simpl. repeat split; lia.
    + intros ? ? [].
    + intros ? [].
    + intros ? ? [].
  - destruct (work a) as [e|x] eqn:W.
    + destruct ((R <=? a) || negb (shouldRetry e)) eqn:C.
      * simpl. refine (conj _ (conj _ (conj _ _))).
        -- exists 1. simpl. repeat split; lia.
        -- intros ? ? [H|[]]. discriminate.
        -- intros n [H|[]] Hn. injection H. lia.
        -- intros n e' [H|[]] He Hr. injection H as ->. rewrite W in He. injection He as ->.
           split; [reflexivity|]. intros [H|[]]. injection H. lia.
      * apply orb_false_iff in C as [C1 C2]. apply Nat.leb_gt in C1.
        apply negb_false_iff in C2.
        specialize (IH (S a) (Some e) ltac:(lia) ltac:(lia)).
        destruct (retry_loop work rnd R f (S a) (Some e)) as [evs o] eqn:L.
        simpl in IH |- *.
        destruct IH as [[k [Hk1 [Hk2 Hk3]]] [IH2 [IH3 IH4]]].
        assert (Hnext : In (EAttempt (S a)) evs).
        { apply in_attempts_of. rewrite Hk1. destruct k; [lia|]. simpl. auto. }
        refine (conj _ (conj _ (conj _ _))).
        -- exists (S k). simpl. rewrite Hk1. repeat split; lia.
        -- intros n d [H|[H|H]]; [discriminate| |].
           ++ injection H as <- <-.
              refine (conj (ex_intro _ e (conj W C2)) (conj C1 (conj eq_refl _))).
              right; right; exact Hnext.
           ++ destruct (IH2 n d H) as [Hw [Hn [Hd Ha']]].
              refine (conj Hw (conj Hn (conj Hd _))). right; right; exact Ha'.
        -- intros n [H|[H|H]] Hn; [injection H; lia|discriminate|].
           destruct (Nat.eq_dec n a) as [->|Hna].
           ++ eexists. right; left; reflexivity.
           ++ destruct (IH3 n H ltac:(lia)) as [d Hd]. exists d. right; right; exact Hd.
        -- intros n e' [H|[H|H]] He Hr; [|discriminate|].
           ++ injection H as <-. rewrite W in He. injection He as <-. congruence.
           ++ destruct (IH4 n e' H He Hr) as [Ho Hno]. split; [exact Ho|].
              assert (S a <= n).
              { apply in_attempts_of in H. rewrite Hk1 in H. apply in_seq in H. lia. }
              intros [H'|[H'|H']]; [injection H'; lia|discriminate|contradiction].
    + simpl. refine (conj _ (conj _ (conj _ _))).
      * exists 1. simpl. repeat split; lia.
      * intros ? ? [H|[]]. discriminate.
      * intros n [H|[]] Hn. injection H. lia.
      * intros n e' [H|[]] He Hr. injection H as ->. congruence.
Qed.

Lemma retry_loop_rnd (rnd' : nat -> Q) (fuel a : nat) (last : option js_error) :
  snd (retry_loop work rnd R fuel a last) = snd (retry_loop work rnd' R fuel a last).
Proof.
  revert a last. induction fuel as [|f IH]; intros a last; simpl; [reflexivity|].
  destruct (work a) as [e|x]; [|reflexivity].
  destruct ((R <=? a) || negb (shouldRetry e)); [reflexivity|].
  specialize (IH (S a) (Some e)).
  destruct (retry_loop work rnd R f (S a) (Some e)) as [evs o].
  destruct (retry_loop work rnd' R f (S a) (Some e)) as [evs' o'].
  exact IH.
Qed.

End Loop.

End RetryFacts.

(** ** The retrieval and application phases *)

Module AutofillFacts.
Import Desc Background Retry Autofill RetryFacts.

(** *** [chunkArray] *)

Lemma chunk_loop_concat {T} (fuel size : nat) (l : list T) :
  0 < size -> length l <= fuel -> concat (chunk_loop fuel size l) = l.
Proof.
  revert l. induction fuel as [|f IH]; intros l Hs Hl.
  - destruct l; [reflexivity | exfalso; simpl in Hl; lia].
  - destruct l as [|x l']; [reflexivity|].
    change (chunk_loop (S f) size (x :: l'))
      with (firstn size (x :: l') :: chunk_loop f size (skipn size (x :: l'))).
    simpl concat. rewrite IH; [apply firstn_skipn | exact Hs |].
    rewrite length_skipn. cbn [length] in Hl |- *. lia.
Qed.

Lemma chunk_loop_sizes {T} (fuel size : nat) (l : list T) (b : list T) :
  0 < size -> In b (chunk_loop fuel size l) -> 1 <= length b <= size.
Proof.
  revert l. induction fuel as [|f IH]; intros l Hs Hb; [destruct Hb|].
  destruct l as [|x l']; [destruct Hb|].
  destruct Hb as [<-|Hb]; [|exact (IH _ Hs Hb)].
  rewrite length_firstn. simpl. lia.
Qed.

Lemma chunk_loop_length4 {T} (fuel : nat) (l : list T) :
  length l <= fuel -> length (chunk_loop fuel 4 l) = (length l + 3) / 4.
Proof.
  revert l. induction fuel as [|f IH]; intros l Hl.
  - destruct l; [reflexivity | exfalso; simpl in Hl; lia].
  - destruct l as [|x l']; [reflexivity|].
    change (length (chunk_loop (S f) 4 (x :: l')))
      with (S (length (chunk_loop f 4 (skipn 4 (x :: l'))))).
    rewrite IH; [|rewrite length_skipn; cbn [length] in Hl |- *; lia].
    rewrite length_skipn. remember (length (x :: l')) as n eqn:En.
    assert (1 <= n) by (subst; simpl; lia).
    destruct (Nat.le_gt_cases n 4) as [Hn|Hn].
    + replace (n - 4) with 0 by lia.
      destruct n as [|[|[|[|[|n]]]]]; try lia; reflexivity.
    + replace (n + 3) with ((n - 4 + 3) + 1 * 4) by lia.
      rewrite Nat.div_add by discriminate. lia.
Qed.

Lemma chunkArray_concat {T} (l : list T) (size : nat) :
  0 < size -> concat (chunkArray l size) = l.
Proof. intros Hs. unfold chunkArray. apply chunk_loop_concat; [exact Hs | lia]. Qed.

(** *** [uniqueFields] *)

Lemma dedup_loop_incl (seen : list string) (fs : list field) :
  incl (dedup_loop seen fs) fs.
Proof.
  revert seen. induction fs as [|f fs IH]; intros seen; simpl; [apply incl_refl|].
  destruct (FieldSafety.mem (fieldFingerprint f) seen).
  - apply incl_tl, IH.
  - apply incl_cons; [left; reflexivity | apply incl_tl, IH].
Qed.

Lemma dedup_loop_nodup (seen : list string) (fs : list field) :
  NoDup (map fieldFingerprint (dedup_loop seen fs)) /\
  (forall x, In x (map fieldFingerprint (dedup_loop seen fs)) -> ~ In x seen).
Proof.
  revert seen. induction fs as [|f fs IH]; intros seen; simpl.
  - split; [constructor | intros _ []].
  - destruct (FieldSafety.mem (fieldFingerprint f) seen) eqn:Hm; [apply IH|].
    destruct (IH (fieldFingerprint f :: seen)) as [Hnd Hfresh]. simpl. split.
    + constructor; [|exact Hnd]. intros Hin. apply (Hfresh _ Hin). left; reflexivity.
    + intros x [<-|Hx].
      * intros Hin. apply FillFacts.mem_In in Hin. congruence.
      * intros Hin. apply (Hfresh x Hx). right; exact Hin.
Qed.

Lemma dedup_loop_covers (seen : list string) (fs : list field) (f : field) :
  In f fs -> In (fieldFingerprint f) seen \/
             In (fieldFingerprint f) (map fieldFingerprint (dedup_loop seen fs)).
Proof.
  revert seen. induction fs as [|g fs IH]; intros seen Hin; [destruct Hin|]. simpl.
  destruct (FieldSafety.mem (fieldFingerprint g) seen) eqn:Hm.
  - destruct Hin as [<-|Hin]; [left; apply FillFacts.mem_In; exact Hm | apply IH, Hin].
  - simpl. destruct Hin as [<-|Hin]; [right; left; reflexivity|].
    destruct (IH (fieldFingerprint g :: seen) Hin) as [[H|H]|H]; auto.
Qed.

Lemma uniqueFields_length (fs : list field) :
  length (uniqueFields fs) = length (nodup string_dec (map fieldFingerprint fs)).
Proof.
  destruct (dedup_loop_nodup [] fs) as [Hnd _].
  rewrite <- (length_map fieldFingerprint (uniqueFields fs)).
  apply Nat.le_antisymm; apply NoDup_incl_length.
  - exact Hnd.
  - intros x Hx. apply nodup_In. apply in_map_iff in Hx as [f [<- Hf]].
    apply in_map, (dedup_loop_incl [] fs), Hf.
  - apply NoDup_nodup.
  - intros x Hx. apply nodup_In, in_map_iff in Hx as [f [<- Hf]].
    destruct (dedup_loop_covers [] fs f Hf) as [[]|H]; exact H.
Qed.

(** *** The retrieval phase *)

Lemma fm_has_cons (k k' v : string) (m : fmap) :
  fm_has k ((k', v) :: m) = (String.eqb k k' || fm_has k m)%bool.
Proof. unfold fm_has. simpl. destruct (String.eqb k k'); reflexivity. Qed.

Lemma fold_push_has (g : field -> string) (b : list field) (m : fmap) (k : string) :
  fm_has k (fold_left (fun m f => (fieldFingerprint f, g f) :: m) b m) = true <->
  In k (map fieldFingerprint b) \/ fm_has k m = true.
Proof.
  revert m. induction b as [|f b IH]; intros m; simpl; [tauto|].
  rewrite IH, fm_has_cons, orb_true_iff, String.eqb_eq.
  split; intros [H|H].
  - tauto.
  - destruct H as [H|H]; [left; left; congruence | tauto].
  - destruct H as [H|H]; [right; left; congruence | tauto].
  - tauto.
Qed.

Lemma withRetry_batch_succeeds (net : list field -> nat -> fetch_outcome) (rnd : nat -> Q)
    (b : list field) :
  batch_succeeds net b =
  match snd (withRetry (fun n => queryFieldBatchAnswers b (net b n)) rnd AUTOFILL_RETRIES) with
  | Returned _ => true
  | Thrown _ => false
  end.
Proof. unfold batch_succeeds, withRetry. now rewrite (retry_loop_rnd _ (fun _ => 0%Q) _ rnd). Qed.

Ltac run_batch_cases net rnd b :=
  unfold run_batch;
  pose proof (withRetry_batch_succeeds net rnd b) as Hok;
  destruct (withRetry (fun n => queryFieldBatchAnswers b (net b n)) rnd AUTOFILL_RETRIES)
    as [evs [answers|e]]; simpl in Hok |- *.

Lemma run_batch_answer (net : list field -> nat -> fetch_outcome) (rnd : nat -> Q)
    (b : list field) (r : retrieval) (k : string) :
  fm_has k (answerByFingerprint (run_batch net rnd b r)) = true <->
  fm_has k (answerByFingerprint r) = true \/
  (In k (map fieldFingerprint b) /\ batch_succeeds net b = true).
Proof.
  run_batch_cases net rnd b.
  - rewrite fold_push_has. rewrite Hok. tauto.
  - rewrite Hok. split; [tauto|]. intros [H|[_ H]]; [exact H|discriminate].
Qed.

Lemma run_batch_error (net : list field -> nat -> fetch_outcome) (rnd : nat -> Q)
    (b : list field) (r : retrieval) (k : string) :
  fm_has k (errorByFingerprint (run_batch net rnd b r)) = true <->
  fm_has k (errorByFingerprint r) = true \/
  (In k (map fieldFingerprint b) /\ batch_succeeds net b = false).
Proof.
  run_batch_cases net rnd b.
  - rewrite Hok. split; [tauto|]. intros [H|[_ H]]; [exact H|discriminate].
  - rewrite (fold_push_has (fun _ => _)). rewrite Hok. tauto.
Qed.

Lemma run_batch_calls (net : list field -> nat -> fetch_outcome) (rnd : nat -> Q)
    (b : list field) (r : retrieval) :
  calls (run_batch net rnd b r) =
  app (calls r) [(b, fst (withRetry (fun n => queryFieldBatchAnswers b (net b n)) rnd AUTOFILL_RETRIES),
                  batch_succeeds net b)].
Proof. run_batch_cases net rnd b; rewrite Hok; reflexivity. Qed.

Lemma run_batches_answer (net : list field -> nat -> fetch_outcome) (rnd : nat -> nat -> Q)
    (bs : list (list field)) (i : nat) (r : retrieval) (k : string) :
  fm_has k (answerByFingerprint (run_batches net rnd i bs r)) = true ->
  fm_has k (answerByFingerprint r) = true \/
  exists b, In b bs /\ In k (map fieldFingerprint b) /\ batch_succeeds net b = true.
Proof.
  revert i r. induction bs as [|b bs IH]; intros i r H; simpl in H; [auto|].
  destruct (IH _ _ H) as [H1|[b' [Hb' Hk]]].
  - apply run_batch_answer in H1 as [H1|H1]; [auto|]. right. exists b. simpl. auto.
  - right. exists b'. simpl. auto.
Qed.

Lemma run_batches_error (net : list field -> nat -> fetch_outcome) (rnd : nat -> nat -> Q)
    (bs : list (list field)) (i : nat) (r : retrieval) (k : string) :
  fm_has k (errorByFingerprint (run_batches net rnd i bs r)) = true ->
  fm_has k (errorByFingerprint r) = true \/
  exists b, In b bs /\ In k (map fieldFingerprint b) /\ batch_succeeds net b = false.
Proof.
  revert i r. induction bs as [|b bs IH]; intros i r H; simpl in H; [auto|].
  destruct (IH _ _ H) as [H1|[b' [Hb' Hk]]].
  - apply run_batch_error in H1 as [H1|H1]; [auto|]. right. exists b. simpl. auto.
  - right. exists b'. simpl. auto.
Qed.

Lemma run_batches_calls (net : list field -> nat -> fetch_outcome) (rnd : nat -> nat -> Q)
    (bs : list (list field)) (i : nat) (r : retrieval) :
  map (fun c => fst (fst c)) (calls (run_batches net rnd i bs r)) =
  app (map (fun c => fst (fst c)) (calls r)) bs /\
  (forall b evs ok, In (b, evs, ok) (calls (run_batches net rnd i bs r)) ->
     In (b, evs, ok) (calls r) \/
     (ok = batch_succeeds net b /\
      exists j, evs = fst (withRetry (fun n => queryFieldBatchAnswers b (net b n)) (rnd j)
                             AUTOFILL_RETRIES))).
Proof.
  revert i r. induction bs as [|b bs IH]; intros i r; simpl.
  - rewrite app_nil_r. split; [reflexivity | auto].
  - destruct (IH (S i) (run_batch net (rnd i) b r)) as [IH1 IH2]. split.
    + rewrite IH1, run_batch_calls, map_app, <- app_assoc. reflexivity.
    + intros b' evs ok Hin. destruct (IH2 _ _ _ Hin) as [H|H]; [|right; exact H].
      rewrite run_batch_calls in H. apply in_app_or in H as [H|[H|[]]]; [left; exact H|].
      injection H as <- <- <-. right. split; [reflexivity | exists i; reflexivity].
Qed.

(** Every key of a failed batch keeps an error entry. *)
Lemma run_batches_failed_keys (net : list field -> nat -> fetch_outcome) (rnd : nat -> nat -> Q)
    (bs : list (list field)) (i : nat) (r : retrieval) :
  (forall b evs k, In (b, evs, false) (calls r) -> In k (map fieldFingerprint b) ->
     fm_has k (errorByFingerprint r) = true) ->
  forall b evs k, In (b, evs, false) (calls (run_batches net rnd i bs r)) ->
    In k (map fieldFingerprint b) ->
    fm_has k (errorByFingerprint (run_batches net rnd i bs r)) = true.
Proof.
  revert i r. induction bs as [|b bs IH]; intros i r Hr; simpl; [exact Hr|].
  apply IH. intros b' evs k Hin Hk. apply run_batch_error.
  rewrite run_batch_calls in Hin. apply in_app_or in Hin as [H|[H|[]]].
  - left. exact (Hr _ _ _ H Hk).
  - injection H as <- _ Hf. right. auto.
Qed.

Lemma nodup_app_disjoint {T} (l1 l2 : list T) (x : T) :
  NoDup (app l1 l2) -> In x l1 -> In x l2 -> False.
Proof.
  induction l1 as [|y l1 IH]; intros Hnd H1 H2; [destruct H1|].
  inversion Hnd as [|? ? Hy Hnd']; subst.
  destruct H1 as [<-|H1]; [apply Hy, in_or_app; right; exact H2 | exact (IH Hnd' H1 H2)].
Qed.

(** Two different batches of a partition without repeated keys share no key. *)
Lemma batches_disjoint (bs : list (list field)) (b b' : list field) (k : string) :
  NoDup (map fieldFingerprint (concat bs)) -> In b bs -> In b' bs -> b <> b' ->
  In k (map fieldFingerprint b) -> In k (map fieldFingerprint b') -> False.
Proof.
  induction bs as [|c bs IH]; intros Hnd Hb Hb' Hne Hk Hk'; [destruct Hb|].
  simpl in Hnd. rewrite map_app in Hnd.
  assert (Hin : forall d, In d bs -> In k (map fieldFingerprint d) ->
                  In k (map fieldFingerprint (concat bs))).
  { intros d Hd Hkd. apply in_map_iff in Hkd as [f [<- Hf]]. apply in_map, in_concat.
    exists d. auto. }
  destruct Hb as [<-|Hb]; destruct Hb' as [<-|Hb'].
  - exact (Hne eq_refl).
  - exact (nodup_app_disjoint _ _ _ Hnd Hk (Hin _ Hb' Hk')).
  - exact (nodup_app_disjoint _ _ _ Hnd Hk' (Hin _ Hb Hk)).
  - exact (IH (NoDup_app_remove_l _ _ Hnd) Hb Hb' Hne Hk Hk').
Qed.

(** *** [queryFieldBatchAnswers] *)

Lemma get_answer_map_aux (g : string -> string) (fs : list field) (u : string)
    (acc : option string) :
  fold_left (fun acc kv => if String.eqb (fst kv) u then Some (snd kv) else acc)
    (map (fun f => (uid f, g (uid f))) fs) acc =
  if existsb (fun f => String.eqb (uid f) u) fs then Some (g u) else acc.
Proof.
  revert acc. induction fs as [|f fs IH]; intros acc; simpl; [reflexivity|].
  rewrite IH. destruct (String.eqb (uid f) u) eqn:E; simpl.
  - apply String.eqb_eq in E. subst u. destruct (existsb _ fs); reflexivity.
  - reflexivity.
Qed.

Lemma get_answer_map (g : string -> string) (fs : list field) (u : string) :
  In u (map uid fs) -> get_answer u (map (fun f => (uid f, g (uid f))) fs) = Some (g u).
Proof.
  intros Hin. unfold get_answer. rewrite get_answer_map_aux.
  destruct (existsb _ fs) eqn:E; [reflexivity|].
  exfalso. apply in_map_iff in Hin as [f [<- Hf]].
  assert (existsb (fun f' => String.eqb (uid f') (uid f)) fs = true)
    by (apply existsb_exists; exists f; split; [exact Hf | apply String.eqb_refl]).
  congruence.
Qed.

(** *** A completed run *)

Section Run.
Variable P : Type.
Variable page_fill : P -> string -> string -> Fill.fill_result * P.

Lemma processAutofill_inv (apiKey vectorStoreId : string) (fields : list field)
    (net : list field -> nat -> fetch_outcome) (rnd : nat -> nat -> Q) (pg : P)
    (r : retrieval) (os : list field_outcome) (filled skipped : nat) (pg' : P) :
  processAutofill P page_fill apiKey vectorStoreId fields net rnd pg
    = RunCompleted P r os filled skipped pg' ->
  r = run_batches net rnd 0 (chunkArray (uniqueFields fields) AUTOFILL_BATCH_SIZE)
        (mk_retrieval [] [] []) /\
  apply_loop P page_fill r fields pg = (os, filled, skipped, pg').
Proof.
  unfold processAutofill.
  destruct (String.eqb apiKey ""); [discriminate|].
  destruct (String.eqb vectorStoreId ""); [discriminate|].
  destruct fields as [|f fs]; [discriminate|].
  set (r0 := run_batches _ _ _ _ _).
  destruct (apply_loop P page_fill r0 (f :: fs) pg) as [[[os0 f0] s0] p0] eqn:E.
  intros H. injection H as <- <- <- <- <-. split; [reflexivity | exact E].
Qed.

Lemma run_keys_disjoint (apiKey vectorStoreId : string) (fields : list field)
    (net : list field -> nat -> fetch_outcome) (rnd : nat -> nat -> Q) (pg : P)
    (r : retrieval) (os : list field_outcome) (filled skipped : nat) (pg' : P) (k : string) :
  processAutofill P page_fill apiKey vectorStoreId fields net rnd pg
    = RunCompleted P r os filled skipped pg' ->
  fm_has k (answerByFingerprint r) = true -> fm_get k (errorByFingerprint r) = None.
Proof.
  intros H Ha. apply processAutofill_inv in H as [-> _].
  destruct (fm_get k _) as [msg|] eqn:Hg; [exfalso|reflexivity].
  assert (He : fm_has k (errorByFingerprint (run_batches net rnd 0
                 (chunkArray (uniqueFields fields) AUTOFILL_BATCH_SIZE) (mk_retrieval [] [] [])))
               = true) by (unfold fm_has; rewrite Hg; reflexivity).
  apply run_batches_answer in Ha as [Ha|[b [Hb [Hkb Hok]]]]; [discriminate|].
  apply run_batches_error in He as [He|[b' [Hb' [Hkb' Hok']]]]; [discriminate|].
  refine (batches_disjoint _ b b' k _ Hb Hb' _ Hkb Hkb').
  - rewrite chunkArray_concat by (unfold AUTOFILL_BATCH_SIZE; lia).
    exact (proj1 (dedup_loop_nodup [] fields)).
  - intros <-. congruence.
Qed.

Lemma apply_loop_spec (r : retrieval) (fields : list field) (pg : P)
    (os : list field_outcome) (filled skipped : nat) (pg' : P) :
  apply_loop P page_fill r fields pg = (os, filled, skipped, pg') ->
  length os = length fields /\
  filled = length (filter is_filled os) /\
  skipped = length (filter (fun o => negb (is_filled o)) os) /\
  forall i f, nth_error fields i = Some f -> exists o, nth_error os i = Some o /\
    match fm_get (fieldFingerprint f) (errorByFingerprint r) with
    | Some msg => o = OError msg
    | None =>
        let a := match fm_get (fieldFingerprint f) (answerByFingerprint r) with
                 | Some a => a | None => "" end in
        (a = "" /\ o = ONotFound) \/ (a <> "" /\ fill_value o = Some a)
    end.
Proof.
  revert pg os filled skipped pg'.
  induction fields as [|f fs IH]; intros pg os filled skipped pg' H; simpl in H.
  - injection H as <- <- <- <-. simpl. repeat split; [].
    intros [|i] f Hf; discriminate.
  - destruct (fm_get (fieldFingerprint f) (errorByFingerprint r)) as [msg|] eqn:He.
    + destruct (apply_loop P page_fill r fs pg) as [[[os1 f1] s1] p1] eqn:E.
      injection H as <- <- <- <-.
      destruct (IH _ _ _ _ _ E) as [L [F [S Hi]]]. simpl.
      split; [lia|]. split; [exact F|]. split; [lia|].
      intros [|i] g Hg; simpl in Hg |- *; [injection Hg as <-; rewrite He; eauto | eauto].
    + destruct (fm_get (fieldFingerprint f) (answerByFingerprint r)) as [a|] eqn:Ha.
      2:{ simpl in H.
          destruct (apply_loop P page_fill r fs pg) as [[[os1 f1] s1] p1] eqn:E.
          injection H as <- <- <- <-.
          destruct (IH _ _ _ _ _ E) as [L [F [S Hi]]]. simpl.
          split; [lia|]. split; [exact F|]. split; [lia|].
          intros [|i] g Hg; simpl in Hg |- *; [|eauto].
          injection Hg as <-. rewrite He, Ha. eauto. }
      destruct (String.eqb a "") eqn:Hae.
      * apply String.eqb_eq in Hae. subst a.
        destruct (apply_loop P page_fill r fs pg) as [[[os1 f1] s1] p1] eqn:E.
        injection H as <- <- <- <-.
        destruct (IH _ _ _ _ _ E) as [L [F [S Hi]]]. simpl.
        split; [lia|]. split; [exact F|]. split; [lia|].
        intros [|i] g Hg; simpl in Hg |- *; [|eauto].
        injection Hg as <-. rewrite He, Ha. eauto.
      * apply String.eqb_neq in Hae.
        destruct (page_fill pg (uid f) a) as [[|err] pg1].
        -- destruct (apply_loop P page_fill r fs pg1) as [[[os1 f1] s1] p1] eqn:E.
           injection H as <- <- <- <-.
           destruct (IH _ _ _ _ _ E) as [L [F [S Hi]]]. simpl.
           split; [lia|]. split; [lia|]. split; [exact S|].
           intros [|i] g Hg; simpl in Hg |- *; [|eauto].
           injection Hg as <-. rewrite He, Ha. eauto.
        -- destruct (apply_loop P page_fill r fs pg1) as [[[os1 f1] s1] p1] eqn:E.
           injection H as <- <- <- <-.
           destruct (IH _ _ _ _ _ E) as [L [F [S Hi]]]. simpl.
           split; [lia|]. split; [exact F|]. split; [lia|].
           intros [|i] g Hg; simpl in Hg |- *; [|eauto].
           injection Hg as <-. rewrite He, Ha. eauto.
Qed.

End Run.

End AutofillFacts.

(* ================================================================== *)
(** * The claims *)

Module Claims.
Import JsStr Dom FieldSafety Desc FieldSafetyDesc Content ClassifierFacts.

(** C5. For a form-control element and the descriptor [getFieldDescriptor]
    extracts from it, [isSensitiveFieldDescriptor(descriptor)] returns the
    same [{sensitive, reason}] as [isSensitiveFieldElement(element, label)],
    [label] being the descriptor's label (the element's resolved label). *)
Theorem C5_classifier_shapes_agree (now i : nat) (st : page) (e : element) :
  nth_error (elements st) i = Some e ->
  is_form_control e = true ->
  let d := fst (getFieldDescriptor now i st) in
  label d = el_label_text e /\
  isSensitiveFieldDescriptor d = isSensitiveFieldElement e (label d).
Proof.
  intros He Hf. destruct (getFieldDescriptor_descr now i st e He) as [u Hd].
  cbv zeta. rewrite Hd. split; [reflexivity|].
  apply descriptor_of_classifies_as_element. exact Hf.
Qed.

Lemma C5_witness :
  nth_error (elements Examples.page0) 1 = Some Examples.password_input /\
  is_form_control Examples.password_input = true /\
  (let d := fst (getFieldDescriptor 7 1 Examples.page0) in
   label d = el_label_text Examples.password_input /\
   isSensitiveFieldDescriptor d = isSensitiveFieldElement Examples.password_input (label d)).
Proof.
  split; [reflexivity|]. split; [reflexivity|].
  apply (C5_classifier_shapes_agree 7 1 Examples.page0 Examples.password_input); reflexivity.
Defined.

(** C1. On any page, [collectFields(false)] and [collectFields(true)] run
    the same descriptor pass (same resulting page state); the first keeps
    exactly the descriptors with [sensitive = false].  Every eligible
    element (form control, not skipped) yields a descriptor in
    [collectFields(true)] carrying its classifier result, and that
    descriptor is in [collectFields(false)] iff the classifier says it is
    not sensitive; nothing else is collected. *)
Theorem C1_collect_drops_exactly_sensitive (now : nat) (st : page) :
  let rf := collectFields now false st in
  let rt := collectFields now true st in
  snd rf = snd rt /\
  fst rf = filter (fun d => negb (sensitive d)) (fst rt) /\
  (forall d, In d (fst rf) <-> In d (fst rt) /\ sensitive d = false) /\
  (forall i e, In i (eligible (elements st)) -> nth_error (elements st) i = Some e ->
     exists u, In (descriptor_of u e (el_label_text e)) (fst rt) /\
       sensitive (descriptor_of u e (el_label_text e)) =
         res_sensitive (isSensitiveFieldElement e (el_label_text e)) /\
       (In (descriptor_of u e (el_label_text e)) (fst rf) <->
          res_sensitive (isSensitiveFieldElement e (el_label_text e)) = false)) /\
  (forall d, In d (fst rt) ->
     exists i e u, In i (eligible (elements st)) /\ nth_error (elements st) i = Some e /\
       d = descriptor_of u e (el_label_text e)).
Proof.
  unfold collectFields.
  pose proof (describe_all_spec now (eligible (elements (set_fieldMap st []))) (set_fieldMap st []))
    as [_ [Hlen Hspec]].
  destruct (describe_all now (eligible (elements (set_fieldMap st []))) (set_fieldMap st []))
    as [ds st1] eqn:E.
  cbn [fst snd elements set_fieldMap] in *.
  assert (Hf : forall d, In d (filter (fun f => negb (sensitive f)) ds) <-> In d ds /\ sensitive d = false).
  { intros d. rewrite filter_In, negb_true_iff. reflexivity. }
  split; [reflexivity|]. split; [reflexivity|]. split; [exact Hf|]. split.
  - intros i e Hi He.
    destruct (In_nth_error _ _ Hi) as [k Hk].
    destruct (Hspec k i e Hk He) as [u Hu]. exists u.
    assert (Hin : In (descriptor_of u e (el_label_text e)) ds) by (eapply nth_error_In; eauto).
    split; [exact Hin|]. split; [reflexivity|].
    rewrite Hf. cbn [sensitive descriptor_of]. tauto.
  - intros d Hd. destruct (In_nth_error _ _ Hd) as [k Hk].
    assert (Hk' : k < length (eligible (elements st))).
    { rewrite <- Hlen. apply nth_error_Some. congruence. }
    destruct (nth_error (eligible (elements st)) k) as [i|] eqn:Hi;
      [|apply nth_error_None in Hi; lia].
    assert (HiIn : In i (eligible (elements st))) by (eapply nth_error_In; eauto).
    destruct (eligible_In _ _ HiIn) as [e [He _]].
    destruct (Hspec k i e Hi He) as [u Hu].
    exists i, e, u. repeat split; auto. congruence.
Qed.

Lemma C1_witness :
  let rf := collectFields 7 false Examples.page0 in
  let rt := collectFields 7 true Examples.page0 in
  In 1 (eligible (elements Examples.page0)) /\
  res_sensitive (isSensitiveFieldElement Examples.password_input "Password") = true /\
  (exists u, In (descriptor_of u Examples.password_input "Password") (fst rt) /\
             ~ In (descriptor_of u Examples.password_input "Password") (fst rf)).
Proof.
  cbv zeta.
  destruct (C1_collect_drops_exactly_sensitive 7 Examples.page0) as [_ [_ [_ [H _]]]].
  assert (Hi : In 1 (eligible (elements Examples.page0))) by (vm_compute; tauto).
  destruct (H 1 Examples.password_input Hi eq_refl) as [u [Hin [_ Hiff]]].
  split; [exact Hi|]. split; [vm_compute; reflexivity|].
  exists u. split; [exact Hin|]. rewrite Hiff. vm_compute. discriminate.
Defined.

(** C6. For a select field past [fillField]'s guards (found, not refused
    as sensitive, non-empty value once cleaned), with [n] the cleaned value
    lower-cased: the first option whose cleaned lower-cased text (its value
    when the text is empty) or value equals [n] is chosen; when none does,
    the first option whose text contains [n] or is contained in [n]; the
    select's value is set to the chosen option's value with one [change]
    event; when no option qualifies, the call fails with the
    no-matching-option error and the page is unchanged. *)
Theorem C6_select_exact_then_partial (uid v : string) (allow : bool) (st : page) (i : nat)
    (el : element) :
  map_get uid (fieldMap st) = Some i ->
  nth_error (elements st) i = Some el ->
  lower (el_tagName el) = "select" ->
  res_sensitive (isSensitiveFieldElement el (el_label_text el)) && negb allow = false ->
  clean v <> "" ->
  let n := lower (clean v) in
  let exact o := String.eqb (Fill.option_candidate o) n || String.eqb (lower (clean (opt_value o))) n in
  let partial o := includes (Fill.option_candidate o) n || includes n (Fill.option_candidate o) in
  let chosen o :=
    (Fill.FillOk, dispatch (set_elements st (update_nth i (with_value (opt_value o)) (elements st))) i "change") in
  (forall pre o post, el_options el = app pre (o :: post) ->
     exact o = true -> (forall p, In p pre -> exact p = false) ->
     Fill.fillField uid v allow st = chosen o) /\
  (forall pre o post, el_options el = app pre (o :: post) ->
     (forall p, In p (el_options el) -> exact p = false) ->
     partial o = true -> (forall p, In p pre -> partial p = false) ->
     Fill.fillField uid v allow st = chosen o) /\
  ((forall o, In o (el_options el) -> exact o = false /\ partial o = false) ->
     Fill.fillField uid v allow st = (Fill.FillErr "No matching option found for select field.", st)).
Proof.
  intros Hm He Ht Hs Hv. cbv zeta.
  rewrite (FillFacts.fillField_select uid v allow st i el Hm He Ht Hs Hv). unfold Fill.select_match.
  split; [|split].
  - intros pre o post Ho Hx Hpre. rewrite Ho, FillFacts.find_app_hit; auto.
  - intros pre o post Ho Hnone Hx Hpre.
    rewrite (FillFacts.find_all_false _ _ Hnone), Ho, FillFacts.find_app_hit; auto.
  - intros Hnone.
    rewrite FillFacts.find_all_false by (intros p Hp; apply Hnone, Hp).
    rewrite FillFacts.find_all_false by (intros p Hp; apply Hnone, Hp).
    reflexivity.
Qed.

(** The example of the spec: ["canada"] on the options
    ["United States"; "Canada"] selects ["Canada"]. *)
Lemma C6_witness :
  exists st',
    Fill.fillField "aff-1-3" "canada" false Examples.page0_collected = (Fill.FillOk, st') /\
    option_map el_value (nth_error (elements st') 2) = Some "Canada".
Proof.
  destruct (C6_select_exact_then_partial "aff-1-3" "canada" false Examples.page0_collected 2
              (with_aff_uid "aff-1-3" Examples.country_select)) as [Hexact _];
    [vm_compute; reflexivity | vm_compute; reflexivity | vm_compute; reflexivity
    | vm_compute; reflexivity | vm_compute; discriminate |].
  eexists. split.
  - apply (Hexact [mk_option "United States" "United States"] (mk_option "Canada" "Canada") []);
      [reflexivity | vm_compute; reflexivity |].
    intros p [<-|[]]. vm_compute. reflexivity.
  - vm_compute. reflexivity.
Defined.

(** C7. A checkbox past [fillField]'s guards is checked when the cleaned
    value is, case-insensitively, one of true/yes/1/checked, unchecked when
    it is one of false/no/0/unchecked (one [change] event either way), and
    any other value fails with an error, the page unchanged.  More
    generally, every failing call of [fillField] leaves the page, its
    elements and its event log, as it was. *)
Theorem C7_checkbox_vocabulary_and_pure_failures (uid v : string) (allow : bool) (st : page)
    (i : nat) (el : element) :
  map_get uid (fieldMap st) = Some i ->
  nth_error (elements st) i = Some el ->
  lower (el_tagName el) = "input" -> input_type el = "checkbox" ->
  res_sensitive (isSensitiveFieldElement el (el_label_text el)) && negb allow = false ->
  clean v <> "" ->
  let set_to b :=
    (Fill.FillOk, dispatch (set_elements st (update_nth i (with_checked b) (elements st))) i "change") in
  (In (lower (clean v)) ["true"; "yes"; "1"; "checked"] -> Fill.fillField uid v allow st = set_to true) /\
  (In (lower (clean v)) ["false"; "no"; "0"; "unchecked"] -> Fill.fillField uid v allow st = set_to false) /\
  (~ In (lower (clean v)) ["true"; "yes"; "1"; "checked"; "false"; "no"; "0"; "unchecked"] ->
     Fill.fillField uid v allow st = (Fill.FillErr "Checkbox value must resolve to true/false.", st)) /\
  (forall uid' v' allow' st',
     fst (Fill.fillField uid' v' allow' st') <> Fill.FillOk -> snd (Fill.fillField uid' v' allow' st') = st').
Proof.
  intros Hm He Ht Hc Hs Hv. cbv zeta.
  rewrite (FillFacts.fillField_checkbox uid v allow st i el Hm He Ht Hc Hs Hv).
  unfold Fill.is_truthy, Fill.is_falsy.
  split; [|split; [|split]].
  - intros H. apply FillFacts.mem_In in H. now rewrite H.
  - intros Hin. pose proof Hin as H. apply FillFacts.mem_In in H. rewrite H.
    destruct (mem (lower (clean v)) ["true"; "yes"; "1"; "checked"]) eqn:Ht'; [|reflexivity].
    exfalso. revert Ht'. simpl in Hin.
    destruct Hin as [<-|[<-|[<-|[<-|[]]]]]; vm_compute; discriminate.
  - intros H.
    destruct (mem (lower (clean v)) ["true"; "yes"; "1"; "checked"]) eqn:H1;
      [apply FillFacts.mem_In in H1; exfalso; apply H; simpl in *; tauto|].
    destruct (mem (lower (clean v)) ["false"; "no"; "0"; "unchecked"]) eqn:H2;
      [apply FillFacts.mem_In in H2; exfalso; apply H; simpl in *; tauto|].
    reflexivity.
  - exact FillFacts.fillField_failure_pure.
Qed.

(** The spec's examples: "yes" checks the box; "maybe" fails and leaves the
    page as it was. *)
Lemma C7_witness :
  Fill.fillField "aff-1-4" "yes" false Examples.page0_collected =
    (Fill.FillOk, dispatch (set_elements Examples.page0_collected
        (update_nth 3 (with_checked true) (elements Examples.page0_collected))) 3 "change") /\
  Fill.fillField "aff-1-4" "maybe" false Examples.page0_collected =
    (Fill.FillErr "Checkbox value must resolve to true/false.", Examples.page0_collected).
Proof.
  split.
  - destruct (C7_checkbox_vocabulary_and_pure_failures "aff-1-4" "yes" false Examples.page0_collected 3
                (with_aff_uid "aff-1-4" Examples.newsletter_checkbox)) as [Hyes _];
      [vm_compute; reflexivity | vm_compute; reflexivity | vm_compute; reflexivity
      | vm_compute; reflexivity | vm_compute; reflexivity | vm_compute; discriminate |].
    apply Hyes. vm_compute. tauto.
  - destruct (C7_checkbox_vocabulary_and_pure_failures "aff-1-4" "maybe" false Examples.page0_collected 3
                (with_aff_uid "aff-1-4" Examples.newsletter_checkbox)) as [_ [_ [Hother _]]];
      [vm_compute; reflexivity | vm_compute; reflexivity | vm_compute; reflexivity
      | vm_compute; reflexivity | vm_compute; reflexivity | vm_compute; discriminate |].
    apply Hother. vm_compute. intuition discriminate.
Defined.

(** C8 (the code at the failing input).  Radios "No, thanks" (value
    no_thanks) then "No" (value no) in the group [consent]; filling the
    "No" radio with "No" checks "No, thanks": the single [find] takes the
    first radio whose label contains the value before an exact match of a
    later one. *)
Theorem C8_radio_first_substring_beats_later_exact :
  fst (Fill.fillField "aff-1-6" "No" false Examples.page0_collected) = Fill.FillOk /\
  option_map el_checked (nth_error (elements (snd (Fill.fillField "aff-1-6" "No" false Examples.page0_collected))) 4)
    = Some true /\
  option_map el_checked (nth_error (elements (snd (Fill.fillField "aff-1-6" "No" false Examples.page0_collected))) 5)
    = Some false /\
  Fill.radio_matches "no" (Examples.radio "No" "no") = true.
Proof. vm_compute. auto. Qed.

End Claims.

Module RunClaims.
Import JsStr Desc Json Background Retry Autofill RetryFacts AutofillFacts.

(** C2: a completed run issues one [withRetry] batch call per chunk of
    four distinct fingerprints: the number of calls is the ceiling of
    (number of distinct fingerprints) / 4, whatever the number of fields;
    the batches hold each fingerprint once and cover every field's; each
    batch holds 1 to 4 fields and makes 1 to 3 requests. *)
Theorem C2_batches_ceil_distinct (P : Type) (page_fill : P -> string -> string -> Fill.fill_result * P)
    (apiKey vectorStoreId : string) (fields : list field)
    (net : list field -> nat -> fetch_outcome) (rnd : nat -> nat -> Q) (pg : P)
    (r : retrieval) (os : list field_outcome) (filled skipped : nat) (pg' : P) :
  processAutofill P page_fill apiKey vectorStoreId fields net rnd pg
    = RunCompleted P r os filled skipped pg' ->
  length (calls r) = (length (nodup string_dec (map fieldFingerprint fields)) + 3) / 4 /\
  map (fun c => fst (fst c)) (calls r) = chunkArray (uniqueFields fields) AUTOFILL_BATCH_SIZE /\
  NoDup (map fieldFingerprint (concat (map (fun c => fst (fst c)) (calls r)))) /\
  (forall f, In f fields -> exists c g, In c (calls r) /\ In g (fst (fst c)) /\
                             fieldFingerprint g = fieldFingerprint f) /\
  (forall b evs ok, In (b, evs, ok) (calls r) ->
     1 <= length b <= 4 /\ 1 <= length (attempts_of evs) <= 3).
Proof.
  intros H. apply processAutofill_inv in H as [Hr _].
  destruct (run_batches_calls net rnd (chunkArray (uniqueFields fields) AUTOFILL_BATCH_SIZE) 0
              (mk_retrieval [] [] [])) as [Hmap Hcalls].
  rewrite <- Hr in Hmap, Hcalls. simpl in Hmap.
  assert (Hc : concat (map (fun c => fst (fst c)) (calls r)) = uniqueFields fields).
  { rewrite Hmap. apply chunkArray_concat. unfold AUTOFILL_BATCH_SIZE. lia. }
  refine (conj _ (conj Hmap (conj _ (conj _ _)))).
  - rewrite <- (length_map (fun c => fst (fst c))), Hmap. unfold chunkArray.
    rewrite chunk_loop_length4 by lia. now rewrite uniqueFields_length.
  - rewrite Hc. exact (proj1 (dedup_loop_nodup [] fields)).
  - intros f Hf. destruct (dedup_loop_covers [] fields f Hf) as [[]|Hu].
    apply in_map_iff in Hu as [g [Hg Hgu]]. fold (uniqueFields fields) in Hgu.
    rewrite <- Hc in Hgu. apply in_concat in Hgu as [b [Hb Hgb]].
    apply in_map_iff in Hb as [c [<- Hc']]. exists c, g. auto.
  - intros b evs ok Hin. split.
    + apply (chunk_loop_sizes (length (uniqueFields fields)) 4 (uniqueFields fields)); [lia|].
      fold (chunkArray (uniqueFields fields) 4). change 4 with AUTOFILL_BATCH_SIZE.
      rewrite <- Hmap. apply in_map_iff. exists (b, evs, ok). auto.
    + destruct (Hcalls b evs ok Hin) as [[]|[_ [j ->]]].
      destruct (retry_loop_spec (fun n => queryFieldBatchAnswers b (net b n)) (rnd j)
                  AUTOFILL_RETRIES AUTOFILL_RETRIES 1 None eq_refl (le_n 1)) as [[k [Hk [Hk3 Hk1]]] _].
      unfold withRetry. rewrite Hk, length_seq. unfold AUTOFILL_RETRIES in *.
      split; [apply Hk1|]; lia.
Qed.

(** The spec's multi-row form: two "Email" inputs, one batch, one request. *)
Lemma C2_witness :
  exists r os filled skipped pg',
    processAutofill unit Runs.accept_all "sk-test" "vs_1" Runs.two_emails
      Runs.net_ok Runs.rnd_half tt = RunCompleted unit r os filled skipped pg' /\
    length (calls r) = 1.
Proof.
  destruct (processAutofill unit Runs.accept_all "sk-test" "vs_1" Runs.two_emails
              Runs.net_ok Runs.rnd_half tt) as [m| |r os filled skipped pg'] eqn:E;
    try (vm_compute in E; discriminate).
  exists r, os, filled, skipped, pg'. split; [reflexivity|].
  destruct (C2_batches_ceil_distinct unit Runs.accept_all "sk-test" "vs_1" Runs.two_emails
              Runs.net_ok Runs.rnd_half tt r os filled skipped pg' E) as [H _].
  rewrite H. vm_compute. reflexivity.
Defined.

(** C3: two fields of one run with equal fingerprints get the same
    treatment: if the run records a non-empty answer [V] for the
    fingerprint, both are sent [V] with [FILL_FORM_FIELD]; if a batch that
    holds a field of that fingerprint failed after its retries, both are
    reported as the same per-field error; and [filled] counts exactly the
    filled fields, [skipped] all the others. *)
Theorem C3_same_fingerprint_same_outcome (P : Type)
    (page_fill : P -> string -> string -> Fill.fill_result * P)
    (apiKey vectorStoreId : string) (fields : list field)
    (net : list field -> nat -> fetch_outcome) (rnd : nat -> nat -> Q) (pg : P)
    (r : retrieval) (os : list field_outcome) (filled skipped : nat) (pg' : P)
    (i j : nat) (fi fj : field) :
  processAutofill P page_fill apiKey vectorStoreId fields net rnd pg
    = RunCompleted P r os filled skipped pg' ->
  nth_error fields i = Some fi -> nth_error fields j = Some fj ->
  fieldFingerprint fi = fieldFingerprint fj ->
  (forall V, fm_get (fieldFingerprint fi) (answerByFingerprint r) = Some V -> V <> "" ->
     exists oi oj, nth_error os i = Some oi /\ nth_error os j = Some oj /\
                   fill_value oi = Some V /\ fill_value oj = Some V) /\
  (forall b evs rep, In (b, evs, false) (calls r) -> In rep b ->
     fieldFingerprint rep = fieldFingerprint fi ->
     exists msg, nth_error os i = Some (OError msg) /\ nth_error os j = Some (OError msg)) /\
  filled = length (filter is_filled os) /\
  skipped = length (filter (fun o => negb (is_filled o)) os) /\
  length os = length fields.
Proof.
  intros H Hi Hj Hfp.
  pose proof H as Hrun. apply processAutofill_inv in H as [Hr Happ].
  destruct (apply_loop_spec P page_fill r fields pg os filled skipped pg' Happ)
    as [L [F [S Hall]]].
  destruct (Hall i fi Hi) as [oi [Hoi Ci]]. destruct (Hall j fj Hj) as [oj [Hoj Cj]].
  rewrite <- Hfp in Cj.
  refine (conj _ (conj _ (conj F (conj S L)))).
  - intros V HV Hne.
    assert (Hnone : fm_get (fieldFingerprint fi) (errorByFingerprint r) = None).
    { apply (run_keys_disjoint P page_fill apiKey vectorStoreId fields net rnd pg r os filled
               skipped pg'); [exact Hrun|]. unfold fm_has. rewrite HV. reflexivity. }
    rewrite Hnone, HV in Ci, Cj. simpl in Ci, Cj.
    exists oi, oj. split; [exact Hoi|]. split; [exact Hoj|]. split; [destruct Ci|destruct Cj]; tauto.
  - intros b evs rep Hb Hrep Hk.
    assert (Hhas : fm_has (fieldFingerprint fi) (errorByFingerprint r) = true).
    { rewrite Hr. rewrite Hr in Hb.
      apply (run_batches_failed_keys net rnd _ 0 (mk_retrieval [] [] [])) with (b := b) (evs := evs).
      - intros ? ? ? [].
      - exact Hb.
      - rewrite <- Hk. apply in_map, Hrep. }
    unfold fm_has in Hhas. destruct (fm_get _ (errorByFingerprint r)) as [msg|]; [|discriminate].
    exists msg. subst. auto.
Qed.

(** Two "Email" rows answered once: both are filled with the trimmed answer;
    with the service down, both are reported as the same error. *)
Lemma C3_witness :
  (exists r os filled skipped pg',
    processAutofill unit Runs.accept_all "sk-test" "vs_1" Runs.two_emails
      Runs.net_ok Runs.rnd_half tt = RunCompleted unit r os filled skipped pg' /\
    exists oi oj, nth_error os 0 = Some oi /\ nth_error os 1 = Some oj /\
                  fill_value oi = Some "a@b.c" /\ fill_value oj = Some "a@b.c") /\
  (exists r os filled skipped pg',
    processAutofill unit Runs.accept_all "sk-test" "vs_1" Runs.two_emails
      Runs.net_down Runs.rnd_half tt = RunCompleted unit r os filled skipped pg' /\
    exists msg, nth_error os 0 = Some (OError msg) /\ nth_error os 1 = Some (OError msg)).
Proof.
  split.
  - destruct (processAutofill unit Runs.accept_all "sk-test" "vs_1" Runs.two_emails
                Runs.net_ok Runs.rnd_half tt) as [m| |r os filled skipped pg'] eqn:E;
      try (vm_compute in E; discriminate).
    exists r, os, filled, skipped, pg'. split; [reflexivity|].
    destruct (C3_same_fingerprint_same_outcome unit Runs.accept_all "sk-test" "vs_1"
                Runs.two_emails Runs.net_ok Runs.rnd_half tt r os filled skipped pg'
                0 1 (Examples.email_field "aff-1-1") (Examples.email_field "aff-1-7") E
                eq_refl eq_refl) as [Hfan _]; [vm_compute; reflexivity|].
    apply Hfan; [|discriminate].
    assert (Hr : r = run_batches Runs.net_ok Runs.rnd_half 0
                   (chunkArray (uniqueFields Runs.two_emails) AUTOFILL_BATCH_SIZE)
                   (mk_retrieval [] [] [])).
    { exact (proj1 (processAutofill_inv _ _ _ _ _ _ _ _ _ _ _ _ _ E)). }
    rewrite Hr. vm_compute. reflexivity.
  - destruct (processAutofill unit Runs.accept_all "sk-test" "vs_1" Runs.two_emails
                Runs.net_down Runs.rnd_half tt) as [m| |r os filled skipped pg'] eqn:E;
      try (vm_compute in E; discriminate).
    exists r, os, filled, skipped, pg'. split; [reflexivity|].
    destruct (C3_same_fingerprint_same_outcome unit Runs.accept_all "sk-test" "vs_1"
                Runs.two_emails Runs.net_down Runs.rnd_half tt r os filled skipped pg'
                0 1 (Examples.email_field "aff-1-1") (Examples.email_field "aff-1-7") E
                eq_refl eq_refl) as [_ [Hfail _]]; [vm_compute; reflexivity|].
    assert (Hr : r = run_batches Runs.net_down Runs.rnd_half 0
                   (chunkArray (uniqueFields Runs.two_emails) AUTOFILL_BATCH_SIZE)
                   (mk_retrieval [] [] [])).
    { exact (proj1 (processAutofill_inv _ _ _ _ _ _ _ _ _ _ _ _ _ E)). }
    apply (Hfail [Examples.email_field "aff-1-1"]
             (fst (withRetry (fun n => queryFieldBatchAnswers [Examples.email_field "aff-1-1"]
                                (Runs.net_down [Examples.email_field "aff-1-1"] n))
                     (Runs.rnd_half 0) AUTOFILL_RETRIES))
             (Examples.email_field "aff-1-1")).
    + rewrite Hr. vm_compute. left. reflexivity.
    + left. reflexivity.
    + reflexivity.
Defined.

(** C4, as stated, fails: an HTTP 408 response is an "other 4xx" for
    [classifyHttpError] (the generic message), yet the batch call is
    attempted again after it, as after the client timeout that the code
    also reports as status 408. *)
Lemma C4_counterexample :
  createHttpError 408 "" = mk_error "OpenAI request failed with status 408." (Some 408%Z) /\
  fst (withRetry Runs.work_http408_then_ok (fun _ => 0%Q) AUTOFILL_RETRIES)
    = [EAttempt 1; ESleep 1 400; EAttempt 2] /\
  fst (withRetry Runs.work_timeout_then_ok (fun _ => 0%Q) AUTOFILL_RETRIES)
    = [EAttempt 1; ESleep 1 400; EAttempt 2].
Proof. vm_compute. repeat split. Qed.

(** C4 (amended): a batch call makes attempts 1, ..., k with 1 <= k <= 3.
    Attempt n is followed by a sleep, and then attempt n + 1, only if it
    failed with status 408 (the client timeout or an HTTP 408), 429 or
    >= 500 and n < 3; the sleep lasts min(5000, 400 * 2^(n-1)) ms plus a
    jitter j = floor(120 * Math.random()), 0 <= j < 120.  An attempt that
    fails with any other error (401/403, other 4xx, no status such as an
    invalid model output) ends the call: that error is thrown and nothing
    follows. *)
Theorem C4_retry_policy {A : Type} (work : nat -> js_error + A) (rnd : nat -> Q) :
  (forall n, 0 <= rnd n < 1)%Q ->
  let evs := fst (withRetry work rnd AUTOFILL_RETRIES) in
  let o := snd (withRetry work rnd AUTOFILL_RETRIES) in
  (exists k, 1 <= k <= 3 /\ attempts_of evs = seq 1 k) /\
  (forall n d, In (ESleep n d) evs ->
     (exists e, work n = inl e /\
        (err_status e = Some 408%Z \/ err_status e = Some 429%Z \/
         exists s, err_status e = Some s /\ (500 <= s)%Z)) /\
     n < 3 /\
     (exists j, d = (Z.min 5000 (400 * 2 ^ Z.of_nat (n - 1)) + j)%Z /\
                j = Qfloor (rnd n * 120) /\ (0 <= j < 120)%Z) /\
     In (EAttempt (S n)) evs) /\
  (forall n, 1 <= n -> In (EAttempt (S n)) evs -> exists d, In (ESleep n d) evs) /\
  (forall n e, In (EAttempt n) evs -> work n = inl e ->
     ~ (err_status e = Some 408%Z \/ err_status e = Some 429%Z \/
        exists s, err_status e = Some s /\ (500 <= s)%Z) ->
     o = Thrown (Some e) /\ ~ In (EAttempt (S n)) evs).
Proof.
  intros Hrnd evs o.
  destruct (retry_loop_spec work rnd AUTOFILL_RETRIES AUTOFILL_RETRIES 1 None eq_refl (le_n 1))
    as [[k [Hk [Hk3 Hk1]]] [H2 [H3 H4]]].
  unfold AUTOFILL_RETRIES in *.
  refine (conj _ (conj _ (conj _ _))).
  - exists k. split; [split; [apply Hk1|]; lia | exact Hk].
  - intros n d Hin. destruct (H2 n d Hin) as [[e [He Hr]] [Hn [Hd Hnext]]].
    split; [exists e; split; [exact He | apply shouldRetry_spec, Hr]|].
    split; [exact Hn|]. split; [|exact Hnext].
    exists (Qfloor (rnd n * 120)). split; [exact Hd|]. split; [reflexivity|].
    apply jitter_bounds, Hrnd.
  - intros n Hn Hin. exact (H3 n Hin Hn).
  - intros n e Hin He Hnr. apply (H4 n e Hin He).
    destruct (shouldRetry e) eqn:Hs; [|reflexivity].
    exfalso. apply Hnr, shouldRetry_spec, Hs.
Qed.

(** The timeout on the first request, then an answer: two attempts, one
    sleep of 400 ms plus 60 ms of jitter. *)
Lemma C4_witness :
  (forall n, 0 <= Runs.rnd_half 0 n < 1)%Q /\
  fst (withRetry Runs.work_timeout_then_ok (Runs.rnd_half 0) AUTOFILL_RETRIES)
    = [EAttempt 1; ESleep 1 460; EAttempt 2] /\
  (exists k, 1 <= k <= 3 /\
     attempts_of (fst (withRetry Runs.work_timeout_then_ok (Runs.rnd_half 0)
                         AUTOFILL_RETRIES)) = seq 1 k).
Proof.
  assert (Hr : (forall n, 0 <= Runs.rnd_half 0 n < 1)%Q).
  { intros n. unfold Runs.rnd_half. split; vm_compute; [discriminate | reflexivity]. }
  split; [exact Hr|]. split; [vm_compute; reflexivity|].
  exact (proj1 (C4_retry_policy Runs.work_timeout_then_ok (Runs.rnd_half 0) Hr)).
Defined.

(** C9: [fieldFingerprint] depends only on the trimmed, lower-cased label,
    name, id, placeholder, type and tag and on the first 50 normalised
    options: two descriptors that agree there get the same key, whatever
    their uids (and other fields). *)
Theorem C9_fingerprint_of_normalized_fields (d1 d2 : field) :
  norm (label d1) = norm (label d2) ->
  norm (name d1) = norm (name d2) ->
  norm (id d1) = norm (id d2) ->
  norm (placeholder d1) = norm (placeholder d2) ->
  norm (type d1) = norm (type d2) ->
  norm (tag d1) = norm (tag d2) ->
  fp_options d1 = fp_options d2 ->
  fieldFingerprint d1 = fieldFingerprint d2.
Proof.
  intros Hl Hn Hi Hp Ht Hg Ho. unfold fieldFingerprint.
  rewrite Hl, Hn, Hi, Hp, Ht, Hg, Ho. reflexivity.
Qed.

(** Two rows of a form: "Email " and "email", different uids, one key. *)
Lemma C9_witness :
  fieldFingerprint (Examples.email_field "aff-1-1") =
  fieldFingerprint (Desc.mk_field "aff-1-7" "INPUT" "email" "email" "" "email " "" "" " Email" true false "" None).
Proof.
  apply C9_fingerprint_of_normalized_fields; vm_compute; reflexivity.
Defined.

(** C10: a batch request that succeeds yields an answer for every uid of
    the batch, the cleaned string value of the model's output for it or
    ""; cleaning gives "" exactly for an empty string or NOT_FOUND (any
    case) once trimmed and unquoted; and a field whose fingerprint's
    recorded answer is "" is reported as not found, not as an error. *)
Theorem C10_total_answers_empty_is_not_found :
  (forall (fields : list field) (o : fetch_outcome) (m : uid_answers),
     queryFieldBatchAnswers fields o = inr m ->
     exists parsed, o = FResponse (Some parsed) /\
       map fst m = map uid fields /\
       forall f, In f fields ->
         get_answer (uid f) m =
           Some (cleanModelAnswer (match get_prop (uid f) parsed with
                                   | Some (JStr raw) => raw
                                   | _ => ""
                                   end))) /\
  (forall raw, cleanModelAnswer raw = "" <->
     strip_quotes (trim raw) = "" \/ lower (strip_quotes (trim raw)) = "not_found") /\
  cleanModelAnswer "" = "" /\
  (forall (P : Type) (page_fill : P -> string -> string -> Fill.fill_result * P)
      apiKey vectorStoreId fields net rnd pg r os filled skipped pg' i f,
     processAutofill P page_fill apiKey vectorStoreId fields net rnd pg
       = RunCompleted P r os filled skipped pg' ->
     nth_error fields i = Some f ->
     fm_get (fieldFingerprint f) (answerByFingerprint r) = Some "" ->
     nth_error os i = Some ONotFound).
Proof.
  refine (conj _ (conj _ (conj eq_refl _))).
  - intros fields o m H.
    destruct o as [| e | st det | [parsed|]]; try discriminate.
    simpl in H. destruct (is_object parsed); simpl in H; [|discriminate].
    injection H as <-. exists parsed. split; [reflexivity|]. split.
    + rewrite map_map. reflexivity.
    + intros f Hf.
      apply (get_answer_map (fun u => cleanModelAnswer (match get_prop u parsed with
                                                        | Some (JStr raw) => raw
                                                        | _ => ""
                                                        end))).
      apply in_map, Hf.
  - intros raw. unfold cleanModelAnswer.
    destruct (String.eqb (strip_quotes (trim raw)) "") eqn:E1.
    + apply String.eqb_eq in E1. tauto.
    + apply String.eqb_neq in E1.
      destruct (String.eqb (lower (strip_quotes (trim raw))) "not_found") eqn:E2.
      * apply String.eqb_eq in E2. tauto.
      * apply String.eqb_neq in E2. tauto.
  - intros P page_fill apiKey vectorStoreId fields net rnd pg r os filled skipped pg' i f
      H Hf Ha.
    pose proof H as Hrun. apply processAutofill_inv in H as [_ Happ].
    destruct (apply_loop_spec P page_fill r fields pg os filled skipped pg' Happ)
      as [_ [_ [_ Hall]]].
    destruct (Hall i f Hf) as [o [Ho C]].
    rewrite (run_keys_disjoint P page_fill apiKey vectorStoreId fields net rnd pg r os filled
               skipped pg' (fieldFingerprint f) Hrun) in C
      by (unfold fm_has; rewrite Ha; reflexivity).
    rewrite Ha in C. simpl in C. destruct C as [[_ ->]|[C _]]; [exact Ho | now destruct C].
Qed.

(** The model answers " NOT_FOUND " for both "Email" rows: both are
    reported as not found. *)
Lemma C10_witness :
  exists r os filled skipped pg',
    processAutofill unit Runs.accept_all "sk-test" "vs_1" Runs.two_emails
      Runs.net_not_found Runs.rnd_half tt = RunCompleted unit r os filled skipped pg' /\
    nth_error os 0 = Some ONotFound /\ nth_error os 1 = Some ONotFound.
Proof.
  destruct (processAutofill unit Runs.accept_all "sk-test" "vs_1" Runs.two_emails
              Runs.net_not_found Runs.rnd_half tt) as [m| |r os filled skipped pg'] eqn:E;
    try (vm_compute in E; discriminate).
  exists r, os, filled, skipped, pg'. split; [reflexivity|].
  pose proof (proj1 (processAutofill_inv _ _ _ _ _ _ _ _ _ _ _ _ _ E)) as Hr.
  destruct C10_total_answers_empty_is_not_found as [_ [_ [_ H]]].
  split.
  - apply (H unit Runs.accept_all "sk-test" "vs_1" Runs.two_emails Runs.net_not_found
             Runs.rnd_half tt r os filled skipped pg' 0 (Examples.email_field "aff-1-1") E
             eq_refl). rewrite Hr. vm_compute. reflexivity.
  - apply (H unit Runs.accept_all "sk-test" "vs_1" Runs.two_emails Runs.net_not_found
             Runs.rnd_half tt r os filled skipped pg' 1 (Examples.email_field "aff-1-7") E
             eq_refl). rewrite Hr. vm_compute. reflexivity.
Defined.

End RunClaims.

(* ================================================================== *)
(** * Further properties of the embedded code *)

Module Base64Facts.
Import Base64.
Local Open Scope list_scope.

Ltac dm x k := pose proof (Nat.div_mod_eq x k); pose proof (Nat.mod_upper_bound x k ltac:(lia)).

Lemma div_add_small (x k y : nat) : y < k -> (x * k + y) / k = x.
Proof. intros H. rewrite Nat.div_add_l by lia. rewrite Nat.div_small by lia. lia. Qed.

Lemma mod_add_small (x k y : nat) : y < k -> (x * k + y) mod k = y.
Proof. intros H. rewrite Nat.add_comm, Nat.Div0.mod_add. apply Nat.mod_small; lia. Qed.

Lemma groups3_ind (P : list nat -> Prop) :
  P [] -> (forall b0, P [b0]) -> (forall b0 b1, P [b0; b1]) ->
  (forall b0 b1 b2 r, P r -> P (b0 :: b1 :: b2 :: r)) -> forall l, P l.
Proof.
  intros H0 H1 H2 H3. fix IH 1. intros [|b0 [|b1 [|b2 r]]]; [apply H0|apply H1|apply H2|apply H3, IH].
Qed.

(** The sextets [btoa] writes, without the padding. *)
Fixpoint sextets (bs : list nat) : list nat :=
  match bs with
  | b0 :: b1 :: b2 :: rest =>
      b0 / 4 :: ((b0 mod 4) * 16 + b1 / 16) :: ((b1 mod 16) * 4 + b2 / 64) :: (b2 mod 64) :: sextets rest
  | [b0; b1] => [b0 / 4; (b0 mod 4) * 16 + b1 / 16; (b1 mod 16) * 4]
  | [b0] => [b0 / 4; (b0 mod 4) * 16]
  | [] => []
  end.

Fixpoint padding (bs : list nat) : list ascii :=
  match bs with
  | _ :: _ :: _ :: r => padding r
  | [_; _] => [pad]
  | [_] => [pad; pad]
  | [] => []
  end.

Lemma encode_groups_chars (bs : list nat) :
  list_ascii_of_string (encode_groups bs) = map b64_char (sextets bs) ++ padding bs.
Proof.
  induction bs using groups3_ind; try reflexivity.
  simpl. now rewrite IHbs.
Qed.

Lemma b64_char_props (n : nat) : n < 64 ->
  b64_value (b64_char n) = Some n /\ ascii_whitespace (b64_char n) = false /\
  Ascii.eqb (b64_char n) pad = false.
Proof.
  intros H. do 64 (destruct n as [|n]; [vm_compute; auto|]). lia.
Qed.

Lemma sextets_bound (bs : list nat) : Forall (fun b => b <= 255) bs -> Forall (fun c => c < 64) (sextets bs).
Proof.
  induction bs using groups3_ind; intros H; cbn [sextets].
  - constructor.
  - apply Forall_cons_iff in H as [Hb0 _]. dm b0 4. repeat (apply Forall_cons; [lia|]); apply Forall_nil.
  - apply Forall_cons_iff in H as [Hb0 H]. apply Forall_cons_iff in H as [Hb1 _]. dm b0 4. dm b1 16. dm b1 4.
    repeat (apply Forall_cons; [lia|]); apply Forall_nil.
  - apply Forall_cons_iff in H as [Hb0 H]. apply Forall_cons_iff in H as [Hb1 H].
    apply Forall_cons_iff in H as [Hb2 H].
    dm b0 4. dm b1 16. dm b2 64.
    repeat (apply Forall_cons; [lia|]). now apply IHbs.
Qed.

Lemma length_chars (bs : list nat) :
  length (sextets bs) mod 4 <> 1 /\ length (map b64_char (sextets bs) ++ padding bs) mod 4 = 0.
Proof.
  induction bs using groups3_ind; cbn [sextets padding]; try (split; [cbn; lia|reflexivity]).
  rewrite length_app, length_map in *. destruct IHbs as [H1 H2]. split.
  - cbn [length]. replace (S (S (S (S (length (sextets bs)))))) with (length (sextets bs) + 1 * 4) by lia.
    rewrite Nat.Div0.mod_add. exact H1.
  - match goal with |- ?a mod 4 = 0 =>
      replace a with (length (sextets bs) + length (padding bs) + 1 * 4) by (cbn [length]; lia) end.
    rewrite Nat.Div0.mod_add. exact H2.
Qed.

Lemma padding_shape (bs : list nat) : padding bs = [] \/ padding bs = [pad] \/ padding bs = [pad; pad].
Proof. induction bs using groups3_ind; simpl; auto. Qed.

Lemma strip_padding_app (l p : list ascii) :
  Forall (fun c => Ascii.eqb c pad = false) l ->
  (p = [] \/ p = [pad] \/ p = [pad; pad]) -> length (l ++ p) mod 4 = 0 ->
  strip_padding (l ++ p) = l.
Proof.
  intros Hl Hp Hlen. unfold strip_padding. rewrite Hlen. cbn [Nat.eqb].
  rewrite rev_app_distr.
  assert (Hr : Forall (fun c => Ascii.eqb c pad = false) (rev l)) by (now apply Forall_rev).
  destruct Hp as [Hp|[Hp|Hp]]; subst p; cbn [rev app].
  - rewrite app_nil_r. destruct (rev l) as [|c1 [|c2 r]] eqn:E.
    + reflexivity.
    + inversion Hr as [|? ? Hc]. now rewrite Hc.
    + inversion Hr as [|? ? Hc]. now rewrite Hc.
  - destruct (rev l) as [|c2 r] eqn:E.
    + apply (f_equal (@rev ascii)) in E. rewrite rev_involutive in E. subst l. reflexivity.
    + inversion Hr as [|? ? Hc]. change (Ascii.eqb pad pad) with true. rewrite Hc.
      apply (f_equal (@rev ascii)) in E. rewrite rev_involutive in E. rewrite E. reflexivity.
  - change (Ascii.eqb pad pad) with true. cbn iota. now rewrite rev_involutive.
Qed.

Lemma map_option_b64 (cs : list nat) :
  Forall (fun c => c < 64) cs -> map_option b64_value (map b64_char cs) = Some cs.
Proof.
  induction 1 as [|c cs Hc _ IH]; [reflexivity|].
  simpl. rewrite (proj1 (b64_char_props c Hc)), IH. reflexivity.
Qed.

Lemma decode_sextets (bs : list nat) : Forall (fun b => b <= 255) bs -> decode_groups (sextets bs) = bs.
Proof.
  induction bs using groups3_ind; intros H; cbn [sextets decode_groups].
  - reflexivity.
  - apply Forall_cons_iff in H as [Hb0 _]. dm b0 4. rewrite Nat.div_mul by lia. f_equal. lia.
  - apply Forall_cons_iff in H as [Hb0 H]. apply Forall_cons_iff in H as [Hb1 _]. dm b0 4. dm b1 16.
    rewrite div_add_small by (dm b1 16; lia). rewrite mod_add_small by lia.
    rewrite Nat.div_mul by lia. f_equal; [lia|f_equal; lia].
  - apply Forall_cons_iff in H as [Hb0 H]. apply Forall_cons_iff in H as [Hb1 H].
    apply Forall_cons_iff in H as [Hb2 H].
    dm b0 4. dm b1 16. dm b2 64.
    rewrite (div_add_small (b0 mod 4) 16 (b1 / 16)) by lia.
    rewrite (mod_add_small (b0 mod 4) 16 (b1 / 16)) by lia.
    rewrite (div_add_small (b1 mod 16) 4 (b2 / 64)) by lia.
    rewrite (mod_add_small (b1 mod 16) 4 (b2 / 64)) by lia.
    rewrite (IHbs H). f_equal; [lia|]. f_equal; [lia|]. f_equal. lia.
Qed.

Lemma to_uint8_to_nat (b : Byte.byte) : to_uint8 (Byte.to_nat b) = b.
Proof.
  unfold to_uint8. rewrite Nat.mod_small by (pose proof (Byte.to_nat_bounded b); lia).
  now rewrite Byte.of_to_nat.
Qed.

Lemma bytes_base64_round_trip (bytes : list Byte.byte) :
  exists s, bytesToBase64 bytes = Some s /\ base64ToBytes s = Some bytes.
Proof.
  assert (Hb : Forall (fun b => b <= 255) (map Byte.to_nat bytes)).
  { apply Forall_map, Forall_forall. intros b _. apply Byte.to_nat_bounded. }
  unfold bytesToBase64, btoa.
  replace (forallb (fun n => n <=? 255) (map Byte.to_nat bytes)) with true
    by (symmetry; apply forallb_forall; intros n Hn; apply Nat.leb_le;
        rewrite Forall_forall in Hb; auto).
  eexists; split; [reflexivity|].
  unfold base64ToBytes, atob. rewrite encode_groups_chars.
  pose proof (sextets_bound _ Hb) as Hs.
  assert (Hf : filter (fun c => negb (ascii_whitespace c))
                 (map b64_char (sextets (map Byte.to_nat bytes)) ++ padding (map Byte.to_nat bytes))
               = map b64_char (sextets (map Byte.to_nat bytes)) ++ padding (map Byte.to_nat bytes)).
  { apply forallb_filter_id. rewrite forallb_app. apply andb_true_intro. split.
    - apply forallb_forall. intros c Hc. apply in_map_iff in Hc as [n [<- Hn]].
      rewrite Forall_forall in Hs. now rewrite (proj1 (proj2 (b64_char_props n (Hs n Hn)))).
    - destruct (padding_shape (map Byte.to_nat bytes)) as [E|[E|E]]; rewrite E; reflexivity. }
  rewrite Hf.
  destruct (length_chars (map Byte.to_nat bytes)) as [Hl1 Hl2].
  rewrite strip_padding_app; [| | apply padding_shape | exact Hl2].
  2:{ apply Forall_map. eapply Forall_impl; [|exact Hs]. intros n Hn. apply (b64_char_props n Hn). }
  rewrite length_map. destruct (length (sextets (map Byte.to_nat bytes)) mod 4 =? 1) eqn:E.
  { apply Nat.eqb_eq in E. contradiction. }
  rewrite map_option_b64 by exact Hs. rewrite decode_sextets by exact Hb.
  rewrite map_map. f_equal. rewrite map_ext with (g := fun b => b) by apply to_uint8_to_nat.
  apply map_id.
Qed.

Lemma bytesToBase64_nonempty (bytes : list Byte.byte) (s : string) :
  bytes <> [] -> bytesToBase64 bytes = Some s -> s <> "".
Proof.
  unfold bytesToBase64, btoa. intros Hne.
  destruct (forallb _ _); [|discriminate]. intros H. injection H as <-.
  destruct bytes as [|b0 [|b1 [|b2 r]]]; [contradiction| | |]; cbn [map encode_groups]; discriminate.
Qed.

(** X1: [bytesToBase64] succeeds on every byte array, [base64ToBytes]
    gives the bytes back from its result, and the text is empty exactly
    for an empty array. *)
Theorem bytesToBase64_base64ToBytes (bytes : list Byte.byte) :
  exists s, bytesToBase64 bytes = Some s /\ base64ToBytes s = Some bytes /\ (s = "" <-> bytes = []).
Proof.
  destruct (bytes_base64_round_trip bytes) as [s [He Hd]]. exists s. split; [exact He|].
  split; [exact Hd|]. split.
  - intros Hs. destruct bytes as [|b r]; [reflexivity|].
    exfalso. exact (bytesToBase64_nonempty (b :: r) s ltac:(discriminate) He Hs).
  - intros ->. cbn in He. injection He as <-. reflexivity.
Qed.

End Base64Facts.

Module HelperFacts.
Import JsStr Json Desc Background Helpers StrFacts.

Lemma trim_idem (s : string) : trim (trim s) = trim s.
Proof.
  unfold trim. rewrite trim_left_trim_right_trim_left. apply trim_right_idem.
Qed.

Lemma trim_left_idem (s : string) : trim_left (trim_left s) = trim_left s.
Proof.
  induction s as [|c s IH]; simpl; [reflexivity|].
  destruct (is_ws c) eqn:E; [exact IH|simpl; now rewrite E].
Qed.

Lemma trim_left_app (a b : string) : trim_left b = b -> trim_left (a ++ b) = trim_left a ++ b.
Proof.
  intros Hb. induction a as [|c a IH]; simpl; [exact Hb|].
  destruct (is_ws c); [exact IH|reflexivity].
Qed.

Lemma trim_right_app (a b : string) : trim_right a = a -> trim_right (a ++ b) = a ++ trim_right b.
Proof.
  induction a as [|c a IH]; intros Ha; [reflexivity|].
  change (String c a ++ b) with (String c (a ++ b)).
  rewrite trim_right_cons in Ha |- *.
  destruct (trim_right a) as [|c' t] eqn:Ea.
  - destruct (is_ws c) eqn:Ec; [discriminate|]. injection Ha as <-.
    simpl. destruct (trim_right b) as [|c2 t2]; [rewrite ?Ec; reflexivity|reflexivity].
  - injection Ha as Ha. assert (Ha' : trim_right a = a) by congruence.
    rewrite (IH Ha). rewrite <- Ha. reflexivity.
Qed.

Lemma str_app_assoc (a b c : string) : (a ++ b) ++ c = a ++ (b ++ c).
Proof. induction a as [|x a IH]; simpl; [reflexivity|now rewrite IH]. Qed.

Lemma str_app_nil_r (a : string) : a ++ "" = a.
Proof. induction a as [|x a IH]; simpl; [reflexivity|now rewrite IH]. Qed.

Lemma trim_right_keep (x t : string) :
  trim_right t = t -> t <> "" -> trim_right (x ++ t) = x ++ t.
Proof.
  intros Ht Hne. induction x as [|c x IH]; [exact Ht|].
  change (String c x ++ t) with (String c (x ++ t)). rewrite trim_right_cons, IH.
  destruct x; simpl; [destruct t; [contradiction|reflexivity]|reflexivity].
Qed.

Lemma length_lower (s : string) : String.length (lower s) = String.length s.
Proof. induction s as [|c s IH]; simpl; congruence. Qed.

Lemma substring_all (n : nat) (s : string) : String.length s <= n -> substring 0 n s = s.
Proof.
  revert n; induction s as [|c s IH]; intros [|n] H; simpl in *; try reflexivity; try lia.
  rewrite IH by lia. reflexivity.
Qed.

Lemma substring_app_left (a b : string) : substring 0 (String.length a) (a ++ b) = a.
Proof. induction a as [|c a IH]; simpl; [destruct b; reflexivity|now rewrite IH]. Qed.

Lemma substring_app_right (a b : string) (n : nat) :
  substring (String.length a) n (a ++ b) = substring 0 n b.
Proof. induction a as [|c a IH]; simpl; [reflexivity|exact IH]. Qed.

Lemma length_app_str (a b : string) : String.length (a ++ b) = String.length a + String.length b.
Proof. induction a as [|c a IH]; simpl; congruence. Qed.

Definition tick : string := "`".

Lemma index_of_tick_cons (c : ascii) (u : string) :
  index_of tick (String c u) = None -> Ascii.eqb "`"%char c = false /\ index_of tick u = None.
Proof.
  unfold tick. intros H. cbn [index_of prefixb] in H. rewrite andb_true_r in H.
  destruct (Ascii.eqb "`"%char c); [discriminate|].
  split; [reflexivity|]. destruct (index_of "`" u); [discriminate|reflexivity].
Qed.

Lemma index_of_tick_trim_left (u : string) : index_of tick u = None -> index_of tick (trim_left u) = None.
Proof.
  induction u as [|c u IH]; intros H; [reflexivity|]. simpl.
  destruct (is_ws c); [apply IH, (index_of_tick_cons c u H)|exact H].
Qed.

Lemma before_fence_app (u r : string) :
  index_of tick u = None -> before_fence (u ++ fence ++ r) = Some u.
Proof.
  induction u as [|c u IH]; intros H; [reflexivity|].
  destruct (index_of_tick_cons c u H) as [Hc Hu].
  change (String c u ++ fence ++ r) with (String c (u ++ fence ++ r)).
  cbn [before_fence prefixb fence]. rewrite Hc. cbn [andb]. rewrite (IH Hu). reflexivity.
Qed.

Lemma fence_match_skip (u r : string) :
  index_of tick u = None -> fence_match (u ++ fence ++ r) = fence_match (fence ++ r).
Proof.
  induction u as [|c u IH]; intros H; [reflexivity|].
  destruct (index_of_tick_cons c u H) as [Hc Hu].
  change (String c u ++ fence ++ r) with (String c (u ++ fence ++ r)).
  cbn [fence_match prefixb fence]. rewrite Hc. cbn [andb]. exact (IH Hu).
Qed.

Lemma fence_body_json (tag body post : string) :
  lower tag = "json" -> index_of tick body = None ->
  fence_body (tag ++ body ++ fence ++ post) = Some (trim_left body).
Proof.
  intros Ht Hb. unfold fence_body.
  assert (Hlen : String.length tag = 4) by (rewrite <- length_lower, Ht; reflexivity).
  rewrite <- Hlen, substring_app_left, Ht. cbn [String.eqb Ascii.eqb Bool.eqb andb].
  rewrite substring_app_right, substring_all by (rewrite (length_app_str tag); lia).
  rewrite trim_left_app by reflexivity.
  apply before_fence_app, index_of_tick_trim_left, Hb.
Qed.

Lemma fence_match_at (s b : string) :
  prefixb fence s = true -> fence_body (substring 3 (String.length s) s) = Some b ->
  fence_match s = Some b.
Proof.
  destruct s as [|c s']; [discriminate|]. intros P Hb.
  cbn [fence_match]. rewrite P, Hb. reflexivity.
Qed.

Lemma substring_fence (r : string) : substring 3 (String.length (fence ++ r)) (fence ++ r) = r.
Proof.
  change 3 with (String.length fence). rewrite substring_app_right.
  apply substring_all. rewrite length_app_str. lia.
Qed.

(** X4: a reply holding a fenced block [```json ... ```] (tag in any
    case), with no backtick before it nor inside it, gives what
    [JSON.parse] makes of the trimmed body, whatever text surrounds the
    block. *)
Lemma extractJsonObject_fenced (parse : string -> option json) (pre tag body post : string) (v : json) :
  index_of tick pre = None -> lower tag = "json" -> index_of tick body = None ->
  parse (trim body) = Some v ->
  extractJsonObject parse (pre ++ fence ++ tag ++ body ++ fence ++ post) = Some v.
Proof.
  intros Hpre Htag Hbody Hparse. unfold extractJsonObject. cbv zeta.
  assert (Hin : trim (pre ++ fence ++ tag ++ body ++ fence ++ post)
                = trim_left pre ++ fence ++ tag ++ body ++ fence ++ trim_right post).
  { unfold trim. rewrite trim_left_app by reflexivity.
    replace (trim_left pre ++ fence ++ tag ++ body ++ fence ++ post)
      with ((trim_left pre ++ fence ++ tag ++ body ++ fence) ++ post) by (rewrite !str_app_assoc; reflexivity).
    rewrite trim_right_app; [rewrite !str_app_assoc; reflexivity|].
    replace (trim_left pre ++ fence ++ tag ++ body ++ fence)
      with ((trim_left pre ++ fence ++ tag ++ body) ++ fence) by (rewrite !str_app_assoc; reflexivity).
    apply trim_right_keep; [reflexivity|discriminate]. }
  rewrite Hin.
  replace (String.eqb (trim_left pre ++ fence ++ tag ++ body ++ fence ++ trim_right post) "") with false
    by (destruct (trim_left pre); reflexivity).
  rewrite fence_match_skip by (apply index_of_tick_trim_left; exact Hpre).
  rewrite (fence_match_at _ (trim_left body)).
  - unfold trim at 1. rewrite trim_left_idem. fold (trim body). rewrite Hparse. reflexivity.
  - unfold fence. simpl. destruct (tag ++ body ++ fence ++ trim_right post); reflexivity.
  - rewrite substring_fence. apply fence_body_json; assumption.
Qed.

(** A fenced block after some prose, with an upper-case tag. *)
Lemma extractJsonObject_fenced_witness :
  extractJsonObject ExtraRuns.parse_empty_object ("Answer: " ++ fence ++ "JSON" ++ " {} " ++ fence ++ "")
    = Some (JObj []).
Proof.
  apply (extractJsonObject_fenced ExtraRuns.parse_empty_object "Answer: " "JSON" " {} " "" (JObj []));
    vm_compute; reflexivity.
Defined.

(** The two outer double quotes of [cleanModelAnswer] after [trim]. *)
Lemma strip_quotes_quoted (s : string) : strip_quotes (dq ++ s ++ dq) = s.
Proof.
  unfold strip_quotes, dq. cbn [append]. rewrite Ascii.eqb_refl.
  fold dq. rewrite length_app_str. simpl String.length. rewrite Nat.add_1_r.
  rewrite substring_app_right. change (substring 0 1 dq) with dq. rewrite String.eqb_refl.
  apply substring_app_left.
Qed.

Lemma trim_quoted (s : string) : trim (dq ++ s ++ dq) = dq ++ s ++ dq.
Proof.
  unfold trim. change (trim_left (dq ++ s ++ dq)) with (dq ++ s ++ dq).
  rewrite <- str_app_assoc. apply trim_right_keep; [reflexivity|discriminate].
Qed.

(** X3: on an answer wrapped in one pair of double quotes,
    [cleanModelAnswer] returns the text between them unchanged (no second
    trim), and [""] when that text is empty or NOT_FOUND in any case. *)
Lemma cleanModelAnswer_quoted (s : string) :
  cleanModelAnswer (dq ++ s ++ dq) =
  if String.eqb s "" then "" else if String.eqb (lower s) "not_found" then "" else s.
Proof. unfold cleanModelAnswer. rewrite trim_quoted, strip_quotes_quoted. reflexivity. Qed.

(** Percent-decoding of [%XX] escapes with upper-case hex digits, the
    inverse of [encodeURIComponent] on bytes. *)
Definition hex_value (c : ascii) : nat :=
  match index_of (String c EmptyString) "0123456789ABCDEF" with Some k => k | None => 0 end.

Fixpoint uri_decode (s : string) : string :=
  match s with
  | EmptyString => EmptyString
  | String c r =>
      if Ascii.eqb c "%"%char then
        match r with
        | String h (String l r') => String (ascii_of_nat (hex_value h * 16 + hex_value l)) (uri_decode r')
        | _ => String c (uri_decode r)
        end
      else String c (uri_decode r)
  end.

Lemma hex_value_upper (k : nat) : k < 16 -> hex_value (hex_upper k) = k.
Proof. intros H. do 16 (destruct k as [|k]; [reflexivity|]). lia. Qed.

Lemma hex_upper_unreserved (k : nat) : k < 16 -> uri_unreserved (hex_upper k) = true.
Proof. intros H. do 16 (destruct k as [|k]; [reflexivity|]). lia. Qed.

Lemma unreserved_not_percent (c : ascii) : uri_unreserved c = true -> Ascii.eqb c "%"%char = false.
Proof.
  intros H. destruct (Ascii.eqb c "%"%char) eqn:E; [|reflexivity].
  apply Ascii.eqb_eq in E. subst c. discriminate.
Qed.

Lemma uri_decode_encode (s : string) : uri_decode (encodeURIComponent s) = s.
Proof.
  induction s as [|c s IH]; [reflexivity|]. cbn [encodeURIComponent].
  destruct (uri_unreserved c) eqn:U.
  - cbn [uri_decode]. rewrite (unreserved_not_percent c U), IH. reflexivity.
  - cbn [uri_decode]. rewrite Ascii.eqb_refl, IH.
    pose proof (nat_ascii_bounded c) as B.
    rewrite !hex_value_upper.
    + rewrite (Nat.mul_comm (nat_of_ascii c / 16)), <- Nat.div_mod_eq, ascii_nat_embedding. reflexivity.
    + apply Nat.mod_upper_bound. lia.
    + apply Nat.Div0.div_lt_upper_bound. lia.
Qed.

Lemma encodeURIComponent_chars (s : string) (c : ascii) :
  In c (list_ascii_of_string (encodeURIComponent s)) -> uri_unreserved c = true \/ c = "%"%char.
Proof.
  induction s as [|c0 s IH]; [intros []|]. cbn [encodeURIComponent].
  pose proof (nat_ascii_bounded c0) as B.
  destruct (uri_unreserved c0) eqn:U; cbn [list_ascii_of_string In].
  - intros [E|H]; [subst c; auto|auto].
  - intros [E|[E|[E|H]]]; [subst c; auto| | |auto]; subst c; left; apply hex_upper_unreserved.
    + apply Nat.Div0.div_lt_upper_bound. lia.
    + apply Nat.mod_upper_bound. lia.
Qed.

(** X2: [encodeURIComponentSafe] loses nothing: percent-decoding its
    result gives the value back, and the result holds only the characters
    [encodeURIComponent] leaves alone and [%]. *)
Lemma encodeURIComponentSafe_decode (value : string) :
  uri_decode (encodeURIComponentSafe value) = value /\
  (forall c, In c (list_ascii_of_string (encodeURIComponentSafe value)) ->
     uri_unreserved c = true \/ c = "%"%char).
Proof.
  split; [apply uri_decode_encode|apply encodeURIComponent_chars].
Qed.

Lemma first_some_none {A B} (f : A -> option B) (l : list A) :
  first_some f l = None <-> forall x, In x l -> f x = None.
Proof.
  induction l as [|x l IH]; simpl; [split; [intros _ y []|reflexivity]|].
  destruct (f x) eqn:E; split.
  - discriminate.
  - intros H. rewrite (H x (or_introl eq_refl)) in E. discriminate.
  - intros H y [<-|Hy]; [exact E|]. apply IH; assumption.
  - intros H. apply IH. intros y Hy. apply H. right. exact Hy.
Qed.

Lemma first_some_some {A B} (f : A -> option B) (l : list A) (y : B) :
  first_some f l = Some y -> exists x, In x l /\ f x = Some y.
Proof.
  induction l as [|x l IH]; simpl; [discriminate|].
  destruct (f x) eqn:E; intros H.
  - injection H as <-. exists x. auto.
  - destruct (IH H) as [z [Hz Hf]]. exists z. auto.
Qed.

Lemma nonblank_text_some (v : option json) (t : string) :
  nonblank_text v = Some t -> trim t = t /\ t <> "".
Proof.
  unfold nonblank_text. destruct v as [[| | | s | |]|]; try discriminate.
  destruct (String.eqb (trim s) "") eqn:E; [discriminate|]. intros H. injection H as <-.
  split; [apply trim_idem|apply String.eqb_neq, E].
Qed.

(** X5: [parseOutputText] returns a trimmed string, and [""] exactly when
    neither [output_text] nor any [text] of a [content] chunk of an
    [output] item is a string with a non-blank character. *)
Lemma parseOutputText_spec (data : json) :
  trim (parseOutputText data) = parseOutputText data /\
  (parseOutputText data = "" <->
     nonblank_text (get_prop "output_text" data) = None /\
     forall item chunk, In item (json_array (get_prop "output" data)) ->
       In chunk (json_array (get_prop "content" item)) ->
       nonblank_text (get_prop "text" chunk) = None).
Proof.
  unfold parseOutputText.
  destruct (nonblank_text (get_prop "output_text" data)) as [t|] eqn:E1.
  - destruct (nonblank_text_some _ _ E1) as [Ht Hne]. split; [exact Ht|].
    split; [intros H; contradiction|intros [H _]; discriminate].
  - destruct (first_some _ _) as [t|] eqn:E2.
    + destruct (first_some_some _ _ _ E2) as [item [Hi Hc]].
      destruct (first_some_some _ _ _ Hc) as [chunk [Hch Ht]].
      destruct (nonblank_text_some _ _ Ht) as [Htr Hne].
      split; [exact Htr|]. split; [intros H; contradiction|].
      intros [_ H]. rewrite (H item chunk Hi Hch) in Ht. discriminate.
    + split; [reflexivity|]. split; [|reflexivity]. intros _. split; [reflexivity|].
      intros item chunk Hi Hch.
      exact (proj1 (first_some_none _ _) (proj1 (first_some_none _ _) E2 item Hi) chunk Hch).
Qed.



(** X7: [fieldDisplayName] never returns an empty name. *)
Lemma fieldDisplayName_nonempty (f : field) : fieldDisplayName f <> "".
Proof.
  unfold fieldDisplayName.
  destruct (String.eqb (label f) "") eqn:E1; [|apply String.eqb_neq, E1].
  destruct (String.eqb (name f) "") eqn:E2; [|apply String.eqb_neq, E2].
  destruct (String.eqb (placeholder f) "") eqn:E3; [|apply String.eqb_neq, E3].
  destruct (String.eqb (id f) "") eqn:E4; [|apply String.eqb_neq, E4].
  destruct (String.eqb (tag f) "") eqn:E5; [discriminate|apply String.eqb_neq, E5].
Qed.

End HelperFacts.

Module StoreFacts.
Import JsStr Json Background Helpers Store Popup Base64Facts.
Local Open Scope list_scope.

Lemma bind_call (A : Type) (api : request -> response) (r : request) (k : response -> M A) :
  bind (call api r) k = (r :: fst (k (api r)), snd (k (api r))).
Proof. unfold bind, call. destruct (k (api r)). reflexivity. Qed.

Lemma bind_ret (A B : Type) (a : A) (k : A -> M B) : bind (ret a) k = k a.
Proof. unfold bind, ret. destruct (k a). reflexivity. Qed.

Lemma bind_throw (A B : Type) (msg : string) (k : A -> M B) : bind (throw msg) k = ([], Err msg).
Proof. reflexivity. Qed.

Lemma bind_fst_prefix (A B : Type) (m : M A) (k : A -> M B) :
  exists rest, fst (bind m k) = app (fst m) rest.
Proof.
  destruct m as [log [a|msg|]]; cbn [bind fst].
  - destruct (k a) as [l2 r]. exists l2. reflexivity.
  - exists []. symmetry. apply app_nil_r.
  - exists []. symmetry. apply app_nil_r.
Qed.

Lemma expect_ok_shape (resp : response) :
  fst (expect_ok resp) = [] /\ snd (expect_ok resp) <> Diverge.
Proof. destruct resp; split; try reflexivity; discriminate. Qed.

Lemma ignore_errors_call (api : request -> response) (r : request) :
  ignore_errors (resp <- call api r; expect_ok resp) = ([r], Val tt).
Proof.
  unfold ignore_errors. rewrite bind_call. destruct (expect_ok_shape (api r)) as [H1 H2].
  cbn [fst snd]. rewrite H1. destruct (snd (expect_ok (api r))); [reflexivity|reflexivity|contradiction].
Qed.

Definition delete_requests (key vs : string) (ids : list json) : list request :=
  flat_map (fun fileId => [DetachFile key vs fileId; DeleteFile key fileId]) ids.

Lemma delete_files_log (api : request -> response) (key vs : string) (ids : list json) :
  delete_files api key vs ids = (delete_requests key vs ids, Val tt).
Proof.
  induction ids as [|fileId rest IH]; [reflexivity|]. cbn [delete_files].
  unfold detachFileFromVectorStore, deleteOpenAIFile.
  rewrite !ignore_errors_call, IH. reflexivity.
Qed.

(** A server that lists [pages] in turn, starting at cursor [after]: each
    page but the last says [has_more] and ends with a file whose [id] is
    the next cursor. *)
Definition page_payload (p : list json) (more : bool) : json :=
  JObj [("data", JArr p); ("has_more", JBool more)].

Inductive serves (api : request -> response) (key vs : string) : option json -> list (list json) -> Prop :=
| serves_last (after : option json) (p : list json) :
    api (ListFiles key vs after) = Ok (inr (page_payload p false)) ->
    serves api key vs after [p]
| serves_more (after : option json) (p : list json) (ps : list (list json)) (idv : json) :
    api (ListFiles key vs after) = Ok (inr (page_payload p true)) ->
    p <> [] -> get_prop "id" (last p JNull) = Some idv -> js_truthy idv = true ->
    serves api key vs (Some idv) ps ->
    serves api key vs after (p :: ps).

Lemma list_pages_serves (api : request -> response) (key vs : string) (after : option json)
    (pages : list (list json)) (fuel : nat) :
  serves api key vs after pages -> length pages <= fuel ->
  exists log, list_pages api fuel key vs after = (log, Val (concat pages)) /\ length log = length pages.
Proof.
  intros H. revert fuel. induction H as [after p Hapi|after p ps idv Hapi Hne Hid Htr Hs IH];
    intros [|f] Hf; cbn [length] in Hf; try lia.
  - cbn [list_pages]. rewrite bind_call, Hapi. cbn [expect_json]. rewrite bind_ret.
    exists [ListFiles key vs after]. split; [|reflexivity]. cbn. rewrite ?app_nil_r. reflexivity.
  - destruct (IH f ltac:(lia)) as [log [Hl Hlen]].
    cbn [list_pages]. rewrite bind_call, Hapi. cbn [expect_json]. rewrite bind_ret.
    cbn [page_payload get_prop fold_left fst snd String.eqb Ascii.eqb Bool.eqb andb json_array js_truthy negb orb].
    destruct p as [|x p']; [contradiction|]. cbn [length Nat.eqb]. rewrite Hid, Htr, Hl.
    eexists. split; [cbn [bind ret fst snd concat]; reflexivity|].
    cbn [length]. rewrite length_app, Hlen. cbn [length]. lia.
Qed.

Lemma list_pages_repeat (api : request -> response) (key vs : string) (p : list json) (idv : json) :
  api (ListFiles key vs (Some idv)) = Ok (inr (page_payload p true)) ->
  p <> [] -> get_prop "id" (last p JNull) = Some idv -> js_truthy idv = true ->
  forall fuel after, api (ListFiles key vs after) = Ok (inr (page_payload p true)) ->
  snd (list_pages api fuel key vs after) = Diverge.
Proof.
  intros Hapi Hne Hid Htr fuel. induction fuel as [|f IH]; intros after Ha; [reflexivity|].
  cbn [list_pages]. rewrite bind_call, Ha. cbn [expect_json]. rewrite bind_ret.
  cbn [page_payload get_prop fold_left fst snd String.eqb Ascii.eqb Bool.eqb andb json_array js_truthy negb orb].
  destruct p as [|x p']; [contradiction|]. cbn [length Nat.eqb]. rewrite Hid, Htr.
  specialize (IH (Some idv) Hapi). destruct (list_pages api f key vs (Some idv)) as [l r].
  cbn [snd] in IH |- *. subst r. reflexivity.
Qed.





(** X10: once the key and the selected file database are set and the
    listing succeeded, [processVectorStoreDelete] detaches then deletes
    each distinct file id in turn, ignoring their failures, then deletes
    the database; it reports the number of ids, or the error of that last
    request. *)
Lemma processVectorStoreDelete_trace (api : request -> response) (fuel : nat) (arg : string)
    (s : settings) (L : list request) (files : list json) :
  let key := trim (apiKey s) in
  let vs := trim (if String.eqb arg "" then vectorStoreId s else arg) in
  key <> "" -> vs <> "" ->
  listAllVectorStoreFilesRaw api fuel key vs = (L, Val files) ->
  processVectorStoreDelete api fuel arg s =
    (L ++ flat_map (fun fileId => [DetachFile key vs fileId; DeleteFile key fileId]) (uniqueFileIds files)
       ++ [DeleteStore key vs],
     match api (DeleteStore key vs) with
     | Ok _ => Val (length (uniqueFileIds files))
     | NetErr m => Err m
     | HttpErr st d => Err (err_message (createHttpError st d))
     end).
Proof.
  intros key vs Hk Hv HL. unfold processVectorStoreDelete. cbv zeta.
  change (trim (apiKey s)) with key. change (trim (if String.eqb arg "" then vectorStoreId s else arg)) with vs.
  rewrite (proj2 (String.eqb_neq _ _) Hk), (proj2 (String.eqb_neq _ _) Hv), HL.
  cbn [bind]. rewrite delete_files_log. cbn [bind]. unfold deleteVectorStore. rewrite bind_call.
  fold (delete_requests key vs (uniqueFileIds files)).
  destruct (api (DeleteStore key vs)) as [m|st d|b]; cbn; rewrite ?app_nil_r; reflexivity.
Qed.

Lemma processVectorStoreDelete_trace_witness :
  processVectorStoreDelete ExtraRuns.api_two_pages 2 "" ExtraRuns.settings0 =
    ([ListFiles "sk-1" "vs_1" None; ListFiles "sk-1" "vs_1" (Some (JStr "vsf_1"));
      DetachFile "sk-1" "vs_1" (JStr "file-1"); DeleteFile "sk-1" (JStr "file-1");
      DetachFile "sk-1" "vs_1" (JStr "file-2"); DeleteFile "sk-1" (JStr "file-2");
      DeleteStore "sk-1" "vs_1"], Val 2).
Proof.
  refine (eq_trans (processVectorStoreDelete_trace ExtraRuns.api_two_pages 2 "" ExtraRuns.settings0
            [ListFiles "sk-1" "vs_1" None; ListFiles "sk-1" "vs_1" (Some (JStr "vsf_1"))]
            [ExtraRuns.vs_file1; ExtraRuns.vs_file2] _ _ _) _);
    vm_compute; first [discriminate | reflexivity].
Defined.



(** X12: [processVectorFileUpdate] removes the old file before it looks
    at the new one: with a missing or incomplete replacement, the old file
    is detached and deleted, and only then does the call fail with
    "Invalid file payload.". *)
Lemma processVectorFileUpdate_invalid_payload (api : request -> response) (fileId : json)
    (file : option file_payload) (s : settings) (body : string + json) :
  let key := trim (apiKey s) in
  let vs := trim (vectorStoreId s) in
  key <> "" -> vs <> "" -> js_truthy fileId = true ->
  api (DetachFile key vs fileId) = Ok body ->
  (file = None \/ exists f, file = Some f /\ (filename f = "" \/ base64 f = "")) ->
  processVectorFileUpdate api fileId file s =
    ([DetachFile key vs fileId; DeleteFile key fileId], Err "Invalid file payload.").
Proof.
  intros key vs Hk Hv Hid Hd Hf. unfold processVectorFileUpdate, processVectorFileDelete, processVectorFileAdd.
  cbv zeta. change (trim (apiKey s)) with key. change (trim (vectorStoreId s)) with vs.
  rewrite (proj2 (String.eqb_neq _ _) Hk), (proj2 (String.eqb_neq _ _) Hv), Hid. cbn [negb].
  unfold detachFileFromVectorStore. rewrite bind_call, Hd. cbn [expect_ok].
  unfold deleteOpenAIFile. rewrite ignore_errors_call.
  assert (Hu : uploadFileToOpenAI api key file = ([], Err "Invalid file payload.")).
  { destruct Hf as [->|[f [-> [Hn|Hn]]]]; [reflexivity| |]; unfold uploadFileToOpenAI; rewrite Hn;
      [reflexivity|rewrite orb_true_r; reflexivity]. }
  cbn [bind ret fst snd]. rewrite Hu. reflexivity.
Qed.

Lemma processVectorFileUpdate_invalid_payload_witness :
  processVectorFileUpdate ExtraRuns.api_two_pages (JStr "file-1") None ExtraRuns.settings0 =
    ([DetachFile "sk-1" "vs_1" (JStr "file-1"); DeleteFile "sk-1" (JStr "file-1")],
     Err "Invalid file payload.").
Proof.
  apply (processVectorFileUpdate_invalid_payload ExtraRuns.api_two_pages (JStr "file-1") None ExtraRuns.settings0
           (inr (JObj [("id", JStr "file-9")])));
    [vm_compute; discriminate|vm_compute; discriminate|reflexivity|reflexivity|left; reflexivity].
Defined.

(** X13: when detaching the old file fails, [processVectorFileUpdate]
    stops there with an error: the old file is not deleted and nothing is
    uploaded. *)
Lemma processVectorFileUpdate_detach_fails (api : request -> response) (fileId : json)
    (file : option file_payload) (s : settings) :
  let key := trim (apiKey s) in
  let vs := trim (vectorStoreId s) in
  key <> "" -> vs <> "" -> js_truthy fileId = true ->
  (forall body, api (DetachFile key vs fileId) <> Ok body) ->
  fst (processVectorFileUpdate api fileId file s) = [DetachFile key vs fileId] /\
  exists msg, snd (processVectorFileUpdate api fileId file s) = Err msg.
Proof.
  intros key vs Hk Hv Hid Hd. unfold processVectorFileUpdate, processVectorFileDelete.
  cbv zeta. change (trim (apiKey s)) with key. change (trim (vectorStoreId s)) with vs.
  rewrite (proj2 (String.eqb_neq _ _) Hk), (proj2 (String.eqb_neq _ _) Hv), Hid. cbn [negb].
  unfold detachFileFromVectorStore. rewrite bind_call.
  destruct (api (DetachFile key vs fileId)) as [m|st d|b] eqn:E.
  - cbn. eauto.
  - cbn. eauto.
  - exfalso. exact (Hd b eq_refl).
Qed.

Lemma processVectorFileUpdate_detach_fails_witness :
  fst (processVectorFileUpdate ExtraRuns.api_detach_404 (JStr "file-1") None ExtraRuns.settings0)
    = [DetachFile "sk-1" "vs_1" (JStr "file-1")] /\
  exists msg, snd (processVectorFileUpdate ExtraRuns.api_detach_404 (JStr "file-1") None ExtraRuns.settings0)
    = Err msg.
Proof.
  apply (processVectorFileUpdate_detach_fails ExtraRuns.api_detach_404 (JStr "file-1") None ExtraRuns.settings0);
    [vm_compute; discriminate|vm_compute; discriminate|reflexivity|intros b; discriminate].
Defined.

(** X14: a non-empty file read by the popup's [fileToPayload] reaches the
    upload request with its name, its bytes unchanged and its type
    ([application/octet-stream] when the browser gives none); an empty
    file is refused with "Invalid file payload." before any request. *)
Lemma processVectorFileAdd_fileToPayload (api : request -> response) (name type : string)
    (bytes : list Byte.byte) (s : settings) :
  let key := trim (apiKey s) in
  let vs := trim (vectorStoreId s) in
  key <> "" -> vs <> "" -> name <> "" ->
  (bytes <> [] ->
   exists rest, fst (processVectorFileAdd api (fileToPayload name type bytes) s) =
     UploadFile key name (if String.eqb type "" then "application/octet-stream" else type) bytes :: rest) /\
  processVectorFileAdd api (fileToPayload name type []) s = ([], Err "Invalid file payload.").
Proof.
  intros key vs Hk Hv Hn. unfold processVectorFileAdd. cbv zeta.
  change (trim (apiKey s)) with key. change (trim (vectorStoreId s)) with vs.
  rewrite (proj2 (String.eqb_neq _ _) Hk), (proj2 (String.eqb_neq _ _) Hv).
  split.
  - intros Hb. destruct (bytes_base64_round_trip bytes) as [b64 [He Hd]].
    pose proof (bytesToBase64_nonempty bytes b64 Hb He) as Hne.
    unfold fileToPayload. rewrite He.
    set (mt := if String.eqb type "" then "application/octet-stream" else type).
    assert (Hup : exists l, fst (uploadFileToOpenAI api key (Some (mk_payload name b64 mt)))
                            = UploadFile key name mt bytes :: l).
    { unfold uploadFileToOpenAI. cbn [filename base64 mimeType].
      rewrite (proj2 (String.eqb_neq _ _) Hn), (proj2 (String.eqb_neq _ _) Hne), Hd. cbn [orb].
      assert (Hm : (if String.eqb mt "" then "application/octet-stream" else mt) = mt).
      { unfold mt. destruct (String.eqb type "") eqn:Et; [reflexivity|]. rewrite Et. reflexivity. }
      rewrite Hm, bind_call. eexists. reflexivity. }
    destruct Hup as [l Hl].
    match goal with |- context [bind ?m ?k] => destruct (bind_fst_prefix _ _ m k) as [rest Hr] end.
    rewrite Hr, Hl. eexists. reflexivity.
  - unfold fileToPayload. cbn [Base64.bytesToBase64 Base64.btoa map forallb Base64.encode_groups].
    unfold uploadFileToOpenAI. cbn [filename base64]. rewrite orb_true_r. reflexivity.
Qed.

Lemma processVectorFileAdd_fileToPayload_witness :
  (exists rest, fst (processVectorFileAdd ExtraRuns.api_two_pages
                       (fileToPayload "notes.txt" "" [Byte.x61; Byte.x62]) ExtraRuns.settings0) =
     UploadFile "sk-1" "notes.txt" "application/octet-stream" [Byte.x61; Byte.x62] :: rest) /\
  processVectorFileAdd ExtraRuns.api_two_pages (fileToPayload "notes.txt" "" []) ExtraRuns.settings0
    = ([], Err "Invalid file payload.").
Proof.
  destruct (processVectorFileAdd_fileToPayload ExtraRuns.api_two_pages "notes.txt" "" [Byte.x61; Byte.x62]
              ExtraRuns.settings0) as [H1 H2]; [vm_compute; discriminate|vm_compute; discriminate|discriminate|].
  split; [exact (H1 ltac:(discriminate))|exact H2].
Defined.

End StoreFacts.

Module RetryExtra.
Import Background Retry RetryFacts.

Section Last.
Context {A : Type} (work : nat -> js_error + A) (rnd : nat -> Q) (R : nat).

Lemma retry_loop_last (fuel a : nat) (last : option js_error) :
  1 <= fuel ->
  exists k, 1 <= k /\ attempts_of (fst (retry_loop work rnd R fuel a last)) = seq a k /\
    (forall j, a <= j < a + k - 1 -> exists e, work j = inl e) /\
    snd (retry_loop work rnd R fuel a last) =
      match work (a + k - 1) with inr x => Returned x | inl e => Thrown (Some e) end.
Proof.
  revert a last. induction fuel as [|f IH]; intros a last Hf; [lia|].
  cbn [retry_loop]. destruct (work a) as [e|x] eqn:W.
  - destruct ((R <=? a) || negb (shouldRetry e)).
    + exists 1. cbn. replace (a + 1 - 1) with a by lia. rewrite W.
      repeat split; [lia|intros j Hj; lia].
    + destruct f as [|f'].
      * exists 1. cbn. replace (a + 1 - 1) with a by lia. rewrite W.
        repeat split; [lia|intros j Hj; lia].
      * destruct (IH (S a) (Some e) ltac:(lia)) as [k [Hk [Ha [Hj Ho]]]].
        destruct (retry_loop work rnd R (S f') (S a) (Some e)) as [evs o].
        cbn [fst snd] in *. exists (S k). cbn [attempts_of flat_map app].
        fold (attempts_of evs). rewrite Ha.
        replace (a + S k - 1) with (S a + k - 1) by lia.
        repeat split; [lia| |exact Ho].
        intros j Hj'. destruct (Nat.eq_dec j a) as [->|Hne]; [eauto|]. apply Hj. lia.
  - exists 1. cbn. replace (a + 1 - 1) with a by lia. rewrite W.
    repeat split; [lia|intros j Hj; lia].
Qed.

End Last.

(** The total time [withRetry] sleeps. *)
Definition total_sleep (evs : list retry_event) : Z :=
  fold_right (fun ev acc => match ev with ESleep _ d => (d + acc)%Z | EAttempt _ => acc end) 0%Z evs.

(** X15: [withRetry] makes attempts 1..k for some 1 <= k <= 3, every
    attempt before the last one failed, and its outcome is the one of
    attempt k: its value, or its error rethrown. *)
Lemma withRetry_last_attempt {A : Type} (work : nat -> js_error + A) (rnd : nat -> Q) :
  exists k, 1 <= k <= AUTOFILL_RETRIES /\
    attempts_of (fst (withRetry work rnd AUTOFILL_RETRIES)) = seq 1 k /\
    (forall j, 1 <= j < k -> exists e, work j = inl e) /\
    snd (withRetry work rnd AUTOFILL_RETRIES) =
      match work k with inr x => Returned x | inl e => Thrown (Some e) end.
Proof.
  destruct (retry_loop_last work rnd AUTOFILL_RETRIES AUTOFILL_RETRIES 1 None ltac:(unfold AUTOFILL_RETRIES; lia))
    as [k [Hk [Ha [Hj Ho]]]].
  destruct (retry_loop_spec work rnd AUTOFILL_RETRIES AUTOFILL_RETRIES 1 None eq_refl (le_n 1))
    as [[k' [Hk' [Hk'3 _]]] _].
  assert (k = k') as <-.
  { rewrite Hk' in Ha. apply (f_equal (@length nat)) in Ha. rewrite !length_seq in Ha. lia. }
  exists k. unfold withRetry. replace (1 + k - 1) with k in Ho by lia.
  repeat split; [lia|lia|exact Ha| |exact Ho].
  intros j Hj'. apply Hj. lia.
Qed.

(** X16: with [Math.random()] in [0, 1), the sleeps of one [withRetry]
    call add up to at most 1438 ms (400 + 800 ms and two jitters below
    120 ms). *)
Lemma withRetry_total_sleep {A : Type} (work : nat -> js_error + A) (rnd : nat -> Q) :
  (forall n, 0 <= rnd n < 1)%Q ->
  (0 <= total_sleep (fst (withRetry work rnd AUTOFILL_RETRIES)) <= 1438)%Z.
Proof.
  intros Hr. pose proof (jitter_bounds _ (Hr 1)) as J1. pose proof (jitter_bounds _ (Hr 2)) as J2.
  unfold withRetry, AUTOFILL_RETRIES. cbn [retry_loop].
  assert (B1 : base_delay 1 = 400%Z) by reflexivity. assert (B2 : base_delay 2 = 800%Z) by reflexivity.
  destruct (work 1) as [e1|x1]; [|cbn; lia].
  destruct (shouldRetry e1); cbn [Nat.leb orb negb]; [|cbn; lia].
  destruct (work 2) as [e2|x2].
  - destruct (shouldRetry e2); cbn [Nat.leb orb negb].
    + destruct (work 3) as [e3|x3]; cbn [Nat.leb orb negb fst total_sleep fold_right];
        rewrite ?B1, ?B2; unfold jitter; lia.
    + cbn [fst total_sleep fold_right]. rewrite ?B1, ?B2; unfold jitter; lia.
  - cbn [fst total_sleep fold_right]. rewrite ?B1, ?B2; unfold jitter; lia.
Qed.

Lemma withRetry_total_sleep_witness :
  (0 <= total_sleep (fst (withRetry Runs.work_timeout_then_ok (Runs.rnd_half 0) AUTOFILL_RETRIES)) <= 1438)%Z.
Proof.
  apply withRetry_total_sleep. intros n. unfold Runs.rnd_half, Qle, Qlt. cbn. lia.
Defined.

End RetryExtra.

Module ConcurrencyFacts.
Import Concurrency.
Local Open Scope list_scope.

Section Facts.
Context {T : Type} (truthy : T -> bool).

Lemma take_spec (q s : list T) :
  Forall (fun x => truthy x = true) q ->
  let '(w, q', s') := take T truthy q s in
  s' ++ q' = s ++ q /\ Forall (fun x => truthy x = true) q' /\ (w = Finished -> q' = []) /\ (q = [] -> q' = []).
Proof.
  intros Hq. destruct q as [|x q]; cbn [take].
  - rewrite app_nil_r. repeat split; auto.
  - apply Forall_cons_iff in Hq as [Hx Hq]. rewrite Hx.
    rewrite <- app_assoc. repeat split; auto; discriminate.
Qed.

Lemma start_workers_spec (n : nat) (q s : list T) :
  Forall (fun x => truthy x = true) q ->
  let '(ws, q2, s2) := start_workers T truthy n q s in
  s2 ++ q2 = s ++ q /\ Forall (fun x => truthy x = true) q2 /\ length ws = n /\
  (In Finished ws -> q2 = []) /\ (q = [] -> q2 = []).
Proof.
  revert q s. induction n as [|n IH]; intros q s Hq; cbn [start_workers].
  - repeat split; auto. intros [].
  - pose proof (take_spec q s Hq) as Ht. destruct (take T truthy q s) as [[w q1] s1].
    destruct Ht as [Ht1 [Ht2 [Ht3 Ht4]]].
    specialize (IH q1 s1 Ht2). destruct (start_workers T truthy n q1 s1) as [[ws q2] s2].
    destruct IH as [I1 [I2 [I3 [I4 I5]]]].
    repeat split; auto.
    + congruence.
    + cbn [length]. congruence.
    + intros [Hw|Hin]; [apply I5, Ht3, Hw|apply I4, Hin].
Qed.

(** What stays true while the pool runs. *)
Definition pool_inv (items : list T) (limit : nat) (p : pool T) : Prop :=
  started p ++ queue p = items /\ Forall (fun x => truthy x = true) (queue p) /\
  length (workers p) = Nat.min limit (length items) /\ (In Finished (workers p) -> queue p = []).

Lemma pool_inv_init (items : list T) (limit : nat) :
  Forall (fun x => truthy x = true) items ->
  pool_inv items limit (runWithConcurrency_init T truthy items limit).
Proof.
  intros H. unfold runWithConcurrency_init.
  pose proof (start_workers_spec (Nat.min limit (length items)) items [] H) as S.
  destruct (start_workers T truthy (Nat.min limit (length items)) items []) as [[ws q] s].
  destruct S as [S1 [S2 [S3 [S4 _]]]]. unfold pool_inv. cbn [started queue workers]. auto.
Qed.

Lemma pool_inv_step (items : list T) (limit : nat) (p p' : pool T) :
  step T truthy p p' -> pool_inv items limit p -> pool_inv items limit p'.
Proof.
  intros [q ws1 ws2 x s w q' s' Ht] [I1 [I2 [I3 I4]]]. cbn [started queue workers] in *.
  pose proof (take_spec q s I2) as S. rewrite Ht in S. destruct S as [S1 [S2 [S3 S4]]].
  unfold pool_inv. cbn [started queue workers]. repeat split.
  - congruence.
  - exact S2.
  - rewrite length_app in *. cbn [length] in *. lia.
  - intros Hin. apply in_app_or in Hin as [Hin|[Hw|Hin]].
    + apply S4, I4, in_or_app. left. exact Hin.
    + apply S3. congruence.
    + apply S4, I4, in_or_app. right. right. exact Hin.
Qed.

Lemma pool_inv_reach (items : list T) (limit : nat) (p : pool T) :
  Forall (fun x => truthy x = true) items ->
  clos_refl_trans _ (step T truthy) (runWithConcurrency_init T truthy items limit) p ->
  pool_inv items limit p.
Proof.
  intros Hi Hr. apply clos_rt_rt1n in Hr.
  assert (H0 := pool_inv_init items limit Hi). revert H0.
  induction Hr as [|p0 p1 p2 Hs Hr IH]; intros H0; [exact H0|].
  apply IH, (pool_inv_step items limit p0 p1 Hs H0).
Qed.


End Facts.


End ConcurrencyFacts.

Module AvailabilityFacts.
Import Dom FieldSafety Desc Content Availability ClassifierFacts.
Local Open Scope list_scope.

(** X18: [hasFillableForms] is true exactly when some eligible element
    (a form control not skipped) is not classified as sensitive. *)
Lemma hasFillableForms_spec (now : nat) (st : page) :
  fst (hasFillableForms now st) = true <->
  exists i e, In i (eligible (elements st)) /\ nth_error (elements st) i = Some e /\
    res_sensitive (isSensitiveFieldElement e (el_label_text e)) = false.
Proof.
  unfold hasFillableForms, collectFields.
  pose proof (describe_all_spec now (eligible (elements (set_fieldMap st []))) (set_fieldMap st []))
    as [_ [Hlen Hspec]].
  destruct (describe_all now (eligible (elements (set_fieldMap st []))) (set_fieldMap st []))
    as [ds st1] eqn:E.
  cbn [fst snd elements set_fieldMap] in *.
  rewrite negb_true_iff, Nat.eqb_neq. split.
  - intros H. destruct (filter (fun f => negb (sensitive f)) ds) as [|d r] eqn:Ef; [contradiction|].
    assert (Hd : In d (filter (fun f => negb (sensitive f)) ds)) by (rewrite Ef; left; reflexivity).
    apply filter_In in Hd as [Hd Hs]. apply negb_true_iff in Hs.
    destruct (In_nth_error _ _ Hd) as [k Hk].
    assert (Hk' : k < length (eligible (elements st))).
    { rewrite <- Hlen. apply nth_error_Some. congruence. }
    destruct (nth_error (eligible (elements st)) k) as [i|] eqn:Hi;
      [|apply nth_error_None in Hi; lia].
    assert (HiIn : In i (eligible (elements st))) by (eapply nth_error_In; eauto).
    destruct (eligible_In _ _ HiIn) as [e [He _]].
    destruct (Hspec k i e Hi He) as [u Hu].
    exists i, e. repeat split; auto. rewrite Hk in Hu. injection Hu as ->. exact Hs.
  - intros [i [e [Hi [He Hs]]]].
    destruct (In_nth_error _ _ Hi) as [k Hk].
    destruct (Hspec k i e Hk He) as [u Hu].
    assert (Hin : In (descriptor_of u e (el_label_text e)) (filter (fun f => negb (sensitive f)) ds)).
    { apply filter_In. split; [eapply nth_error_In; eauto|]. cbn [sensitive descriptor_of]. now rewrite Hs. }
    destruct (filter (fun f => negb (sensitive f)) ds); [destruct Hin|discriminate].
Qed.

(** Each value sent differs from the [lastKnownHasForm] before it. *)
Fixpoint alternates (prev : option bool) (l : list bool) : Prop :=
  match l with
  | [] => True
  | b :: r => prev <> Some b /\ alternates (Some b) r
  end.

(** X19: over successive unforced calls of [notifyFormAvailability],
    each [hasForm] sent differs from the value known before it, and the
    final [lastKnownHasForm] is the last value sent (the initial one when
    nothing was sent). *)
Lemma notify_run_unforced (calls : list (nat * bool * page)) (last : option bool) :
  Forall (fun c => snd (fst c) = false) calls ->
  alternates last (snd (notify_run calls last)) /\
  fst (notify_run calls last) = match rev (snd (notify_run calls last)) with b :: _ => Some b | [] => last end.
Proof.
  revert last. induction calls as [|[[now force] st] rest IH]; intros last Hc; [split; reflexivity|].
  apply Forall_cons_iff in Hc as [Hf Hc]. cbn [fst snd] in Hf. subst force.
  cbn [notify_run]. unfold notifyFormAvailability.
  destruct (hasFillableForms now st) as [h st'].
  cbn [negb andb].
  destruct (match last with Some b => Bool.eqb h b | None => false end) eqn:Eq.
  - specialize (IH last Hc). destruct (notify_run rest last) as [l2 s2]. exact IH.
  - specialize (IH (Some h) Hc). destruct (notify_run rest (Some h)) as [l2 s2].
    cbn [fst snd app] in *. destruct IH as [IH1 IH2]. split.
    + split; [|exact IH1]. destruct last as [b|]; [|discriminate].
      intros Hb. injection Hb as ->. rewrite Bool.eqb_reflx in Eq. discriminate.
    + rewrite IH2. cbn [rev]. destruct (rev s2) as [|x r]; reflexivity.
Qed.

Lemma notify_run_unforced_witness :
  alternates None (snd (notify_run [(1, false, Examples.page0); (2, false, Examples.page0)] None)) /\
  fst (notify_run [(1, false, Examples.page0); (2, false, Examples.page0)] None) =
    match rev (snd (notify_run [(1, false, Examples.page0); (2, false, Examples.page0)] None)) with
    | b :: _ => Some b | [] => None end.
Proof.
  apply notify_run_unforced. repeat constructor.
Defined.

End AvailabilityFacts.

Module InlineFacts.
Import JsStr Dom FieldSafety Desc FieldSafetyDesc Content Fill Retry Background Store Inline ClassifierFacts.
Local Open Scope list_scope.

Lemma erase_uid_sensitivity (e e' : element) :
  erase_uid e' = erase_uid e ->
  isSensitiveFieldElement e' (el_label_text e') = isSensitiveFieldElement e (el_label_text e).
Proof.
  intros H.
  change (isSensitiveFieldElement (erase_uid e') (el_label_text (erase_uid e')) =
          isSensitiveFieldElement (erase_uid e) (el_label_text (erase_uid e))).
  now rewrite H.
Qed.

Lemma erase_uid_tag (e e' : element) :
  erase_uid e' = erase_uid e -> el_tagName e' = el_tagName e /\ input_type e' = input_type e.
Proof.
  intros H. split.
  - change (el_tagName (erase_uid e') = el_tagName (erase_uid e)). now rewrite H.
  - change (input_type (erase_uid e') = input_type (erase_uid e)). now rewrite H.
Qed.

(** [getFieldDescriptor] on a present element: the descriptor of the
    stamped element, whose uid now maps to it; no event. *)
Lemma getFieldDescriptor_shape (now i : nat) (st : page) (el : element) :
  nth_error (elements st) i = Some el ->
  exists u e1, fst (getFieldDescriptor now i st) = descriptor_of u e1 (el_label_text e1) /\
    nth_error (elements (snd (getFieldDescriptor now i st))) i = Some e1 /\
    erase_uid e1 = erase_uid el /\
    map_get u (fieldMap (snd (getFieldDescriptor now i st))) = Some i /\
    events (snd (getFieldDescriptor now i st)) = events st.
Proof.
  intros He. unfold getFieldDescriptor, ensureFieldUid. rewrite He.
  destruct (el_aff_uid el) as [u|] eqn:Hu; [destruct (String.eqb u "") eqn:Eu|];
    cbn [fst snd elements fieldMap events set_fieldMap set_elements set_counter map_get];
    rewrite ?nth_error_update_nth, ?He; cbn [option_map];
    eexists; eexists; (split; [reflexivity|]); (split; [reflexivity|]);
    rewrite ?String.eqb_refl; repeat split; reflexivity.
Qed.





End InlineFacts.

Module ChunkFacts.
Import Autofill AutofillFacts.
Local Open Scope list_scope.

Lemma div_step (n size : nat) : 0 < size -> size < n -> 1 + (n - size + size - 1) / size = (n + size - 1) / size.
Proof.
  intros Hs Hn. replace (n + size - 1) with ((n - size + size - 1) + 1 * size) by lia.
  rewrite Nat.div_add by lia. lia.
Qed.

Lemma div_one (n size : nat) : 0 < size -> 1 <= n <= size -> (n + size - 1) / size = 1.
Proof.
  intros Hs Hn. symmetry. apply Nat.div_unique with (n - 1); lia.
Qed.

Lemma chunk_loop_count {T} (fuel size : nat) (l : list T) :
  0 < size -> length l <= fuel -> length (chunk_loop fuel size l) = (length l + size - 1) / size.
Proof.
  revert l. induction fuel as [|f IH]; intros l Hs Hl.
  - destruct l; [cbn; rewrite Nat.div_small; lia | exfalso; simpl in Hl; lia].
  - destruct l as [|x l'].
    + cbn. rewrite Nat.div_small; lia.
    + change (length (chunk_loop (S f) size (x :: l')))
        with (S (length (chunk_loop f size (skipn size (x :: l'))))).
      rewrite IH; [|exact Hs|rewrite length_skipn; cbn [length] in Hl |- *; lia].
      rewrite length_skipn. remember (length (x :: l')) as n eqn:En.
      assert (1 <= n) by (subst; simpl; lia).
      destruct (Nat.le_gt_cases n size) as [Hn|Hn].
      * replace (n - size) with 0 by lia. rewrite Nat.div_small by lia. rewrite div_one; lia.
      * rewrite <- (div_step n size Hs Hn). lia.
Qed.

Lemma chunk_loop_full {T} (fuel size : nat) (l : list T) (k : nat) (b : list T) :
  0 < size -> nth_error (chunk_loop fuel size l) k = Some b ->
  S k < length (chunk_loop fuel size l) -> length b = size.
Proof.
  revert l k. induction fuel as [|f IH]; intros l k Hs Hk Hlen; [destruct k; discriminate|].
  destruct l as [|x l']; [destruct k; discriminate|].
  change (chunk_loop (S f) size (x :: l'))
    with (firstn size (x :: l') :: chunk_loop f size (skipn size (x :: l'))) in *.
  destruct k as [|k].
  - cbn [nth_error] in Hk. injection Hk as <-. cbn [length] in Hlen.
    rewrite length_firstn. destruct (Nat.le_gt_cases (length (x :: l')) size) as [Hn|Hn]; [|lia].
    rewrite skipn_all2 in Hlen by exact Hn. destruct f; cbn in Hlen; lia.
  - cbn [nth_error length] in Hk, Hlen. exact (IH _ k Hs Hk ltac:(lia)).
Qed.

(** X22: [chunkArray(values, size)] with [size > 0] splits the values in
    order into ceil(n / size) chunks of 1 to [size] values, all of
    exactly [size] values but the last. *)
Lemma chunkArray_shape {T} (l : list T) (size : nat) :
  0 < size ->
  concat (chunkArray l size) = l /\
  length (chunkArray l size) = (length l + size - 1) / size /\
  (forall b, In b (chunkArray l size) -> 1 <= length b <= size) /\
  (forall k b, nth_error (chunkArray l size) k = Some b -> S k < length (chunkArray l size) ->
     length b = size).
Proof.
  intros Hs. unfold chunkArray. split; [apply chunk_loop_concat; [exact Hs|lia]|].
  split; [apply chunk_loop_count; [exact Hs|lia]|].
  split; [intros b Hb; exact (chunk_loop_sizes _ _ _ b Hs Hb)|].
  intros k b Hk Hl. exact (chunk_loop_full _ _ _ k b Hs Hk Hl).
Qed.

Lemma chunkArray_shape_witness :
  concat (chunkArray [1; 2; 3; 4; 5] 2) = [1; 2; 3; 4; 5] /\
  length (chunkArray [1; 2; 3; 4; 5] 2) = (length [1; 2; 3; 4; 5] + 2 - 1) / 2 /\
  (forall b, In b (chunkArray [1; 2; 3; 4; 5] 2) -> 1 <= length b <= 2) /\
  (forall k b, nth_error (chunkArray [1; 2; 3; 4; 5] 2) k = Some b ->
     S k < length (chunkArray [1; 2; 3; 4; 5] 2) -> length b = 2).
Proof.
  apply chunkArray_shape. lia.
Defined.

End ChunkFacts.

Module FileIdFacts.
Import Json Helpers Store.
Local Open Scope list_scope.

Lemma same_value_zero_sym (a b : json) : same_value_zero a b = same_value_zero b a.
Proof.
  destruct a, b; cbn [same_value_zero]; try reflexivity.
  - destruct b, b0; reflexivity.
  - apply Z.eqb_sym.
  - apply String.eqb_sym.
Qed.

Lemma set_values_incl (seen xs : list json) : incl (set_values seen xs) xs.
Proof.
  revert seen. induction xs as [|x r IH]; intros seen; cbn [set_values]; [intros y []|].
  destruct (existsb (same_value_zero x) seen).
  - intros y Hy. right. exact (IH seen y Hy).
  - intros y [<-|Hy]; [left; reflexivity|right; exact (IH _ y Hy)].
Qed.

Lemma set_values_fresh (seen xs : list json) (y : json) :
  In y (set_values seen xs) -> existsb (same_value_zero y) seen = false.
Proof.
  revert seen. induction xs as [|x r IH]; intros seen; cbn [set_values]; [intros []|].
  destruct (existsb (same_value_zero x) seen) eqn:E; [apply IH|].
  intros [<-|Hy]; [exact E|]. specialize (IH _ Hy). cbn [existsb] in IH.
  apply orb_false_iff in IH as [_ IH]. exact IH.
Qed.

Lemma set_values_distinct (seen xs : list json) :
  ForallOrdPairs (fun a b => same_value_zero a b = false) (set_values seen xs).
Proof.
  revert seen. induction xs as [|x r IH]; intros seen; cbn [set_values]; [constructor|].
  destruct (existsb (same_value_zero x) seen); [apply IH|].
  constructor; [|apply IH]. apply Forall_forall. intros y Hy.
  pose proof (set_values_fresh _ _ _ Hy) as F. cbn [existsb] in F.
  apply orb_false_iff in F as [F _]. rewrite same_value_zero_sym. exact F.
Qed.

Lemma set_values_covers (seen xs : list json) (x : json) :
  In x xs -> existsb (same_value_zero x) seen = true \/ In x (set_values seen xs) \/
    exists y, In y (set_values seen xs) /\ same_value_zero x y = true.
Proof.
  revert seen. induction xs as [|x0 r IH]; intros seen Hx; [destruct Hx|]. cbn [set_values].
  destruct Hx as [->|Hx].
  - destruct (existsb (same_value_zero x) seen) eqn:E; [left; reflexivity|right; left; left; reflexivity].
  - destruct (existsb (same_value_zero x0) seen) eqn:E; [apply IH, Hx|].
    destruct (IH (x0 :: seen) Hx) as [H|[H|[y [Hy Hxy]]]].
    + cbn [existsb] in H. apply orb_true_iff in H as [H|H]; [|left; exact H].
      right; right. exists x0. split; [left; reflexivity|exact H].
    + right; left; right; exact H.
    + right; right. exists y. split; [right; exact Hy|exact Hxy].
Qed.

(** X23: the ids [processVectorStoreDelete] deletes are truthy [file_id]s
    of listed files, pairwise distinct under SameValueZero, and every
    truthy [file_id] of a listed file is among them (itself or a
    SameValueZero-equal id). *)
Lemma uniqueFileIds_spec (files : list json) :
  (forall x, In x (uniqueFileIds files) -> js_truthy x = true /\ exists f, In f files /\ file_id_of f = x) /\
  ForallOrdPairs (fun a b => same_value_zero a b = false) (uniqueFileIds files) /\
  (forall f, In f files -> js_truthy (file_id_of f) = true ->
     In (file_id_of f) (uniqueFileIds files) \/
     exists y, In y (uniqueFileIds files) /\ same_value_zero (file_id_of f) y = true).
Proof.
  unfold uniqueFileIds. split; [|split].
  - intros x Hx. apply set_values_incl in Hx. apply filter_In in Hx as [Hx Ht].
    split; [exact Ht|]. apply in_map_iff in Hx as [f [Hf Hin]]. eauto.
  - apply set_values_distinct.
  - intros f Hf Ht.
    assert (Hin : In (file_id_of f) (filter js_truthy (map file_id_of files)))
      by (apply filter_In; split; [apply in_map, Hf|exact Ht]).
    destruct (set_values_covers [] _ _ Hin) as [H|H]; [discriminate|exact H].
Qed.

End FileIdFacts.

Module CollectFacts.
Import JsStr Dom FieldSafety Desc Content ClassifierFacts.

(** Element [i] carries a non-empty [data-aff-uid]. *)
Definition stamped (st : page) (i : nat) : Prop :=
  exists e u, nth_error (elements st) i = Some e /\ el_aff_uid e = Some u /\ u <> "".

Lemma getFieldDescriptor_stamped (now i : nat) (st : page) (e : element) (u : string) :
  nth_error (elements st) i = Some e -> el_aff_uid e = Some u -> u <> "" ->
  getFieldDescriptor now i st = (descriptor_of u e (el_label_text e), set_fieldMap st ((u, i) :: fieldMap st)).
Proof.
  intros He Hu Hne. unfold getFieldDescriptor, ensureFieldUid. rewrite He, Hu.
  rewrite (proj2 (String.eqb_neq _ _) Hne). rewrite He. reflexivity.
Qed.

Lemma with_aff_uid_stamp (u : string) (e : element) : el_aff_uid (with_aff_uid u e) = Some u.
Proof. reflexivity. Qed.

Lemma aff_uid_nonempty (now n : nat) : "aff-" ++ nat_to_string now ++ "-" ++ nat_to_string n <> "".
Proof. discriminate. Qed.

(** After [getFieldDescriptor] on a present element, that element is
    stamped, the descriptor is the one of the stamped element, and its uid
    was pushed on [fieldMap]. *)
Lemma getFieldDescriptor_after (now i : nat) (st : page) (el : element) :
  nth_error (elements st) i = Some el ->
  exists u e1, nth_error (elements (snd (getFieldDescriptor now i st))) i = Some e1 /\
    el_aff_uid e1 = Some u /\ u <> "" /\
    fst (getFieldDescriptor now i st) = descriptor_of u e1 (el_label_text e1) /\
    fieldMap (snd (getFieldDescriptor now i st)) = (u, i) :: fieldMap st.
Proof.
  intros He. unfold getFieldDescriptor, ensureFieldUid. rewrite He.
  destruct (el_aff_uid el) as [u|] eqn:Hu; [destruct (String.eqb u "") eqn:Eu|];
    cbn [fst snd elements fieldMap set_fieldMap set_elements set_counter];
    rewrite ?nth_error_update_nth, ?He; cbn [option_map].
  - eexists; eexists. split; [reflexivity|]. split; [reflexivity|]. split; [apply aff_uid_nonempty|].
    split; reflexivity.
  - eexists; eexists. split; [reflexivity|]. split; [exact Hu|]. split; [apply String.eqb_neq, Eu|].
    split; reflexivity.
  - eexists; eexists. split; [reflexivity|]. split; [reflexivity|]. split; [apply aff_uid_nonempty|].
    split; reflexivity.
Qed.

(** Stamped elements are never touched again. *)
Lemma getFieldDescriptor_keeps (now i j : nat) (st : page) (e : element) (u : string) :
  nth_error (elements st) j = Some e -> el_aff_uid e = Some u -> u <> "" ->
  nth_error (elements (snd (getFieldDescriptor now i st))) j = Some e.
Proof.
  intros He Hu Hne. unfold getFieldDescriptor, ensureFieldUid.
  destruct (nth_error (elements st) i) as [el|] eqn:Hi; [|exact He].
  destruct (Nat.eq_dec i j) as [<-|Hij].
  - rewrite He in Hi. injection Hi as <-. rewrite Hu, (proj2 (String.eqb_neq _ _) Hne). exact He.
  - destruct (el_aff_uid el) as [u'|]; [destruct (String.eqb u' "")|];
      cbn [snd elements set_fieldMap set_elements set_counter];
      rewrite ?nth_error_update_nth_other by exact Hij; exact He.
Qed.

Lemma getFieldDescriptor_length (now i : nat) (st : page) :
  length (elements (snd (getFieldDescriptor now i st))) = length (elements st).
Proof.
  unfold getFieldDescriptor, ensureFieldUid.
  destruct (nth_error (elements st) i) as [el|]; [|reflexivity].
  destruct (el_aff_uid el) as [u'|]; [destruct (String.eqb u' "")|];
    cbn [snd elements set_fieldMap set_elements set_counter]; rewrite ?length_update_nth; reflexivity.
Qed.

Lemma describe_all_keeps (now : nat) (idxs : list nat) (st : page) (j : nat) (e : element) (u : string) :
  nth_error (elements st) j = Some e -> el_aff_uid e = Some u -> u <> "" ->
  nth_error (elements (snd (describe_all now idxs st))) j = Some e.
Proof.
  revert st. induction idxs as [|i r IH]; intros st He Hu Hne; [exact He|].
  change (describe_all now (i :: r) st) with
    (let (d, st1) := getFieldDescriptor now i st in
     let (ds, st2) := describe_all now r st1 in (d :: ds, st2)).
  pose proof (getFieldDescriptor_keeps now i j st e u He Hu Hne) as H1.
  destruct (getFieldDescriptor now i st) as [d st1]. cbn [snd] in H1.
  specialize (IH st1 H1 Hu Hne). destruct (describe_all now r st1) as [ds st2]. exact IH.
Qed.

Lemma describe_all_length (now : nat) (idxs : list nat) (st : page) :
  length (elements (snd (describe_all now idxs st))) = length (elements st).
Proof.
  revert st. induction idxs as [|i r IH]; intros st; [reflexivity|].
  change (describe_all now (i :: r) st) with
    (let (d, st1) := getFieldDescriptor now i st in
     let (ds, st2) := describe_all now r st1 in (d :: ds, st2)).
  pose proof (getFieldDescriptor_length now i st) as H1.
  destruct (getFieldDescriptor now i st) as [d st1]. cbn [snd] in H1.
  specialize (IH st1). destruct (describe_all now r st1) as [ds st2]. cbn [snd] in *. congruence.
Qed.

Lemma set_fieldMap_twice (st : page) (m m' : list (string * nat)) :
  set_fieldMap (set_fieldMap st m) m' = set_fieldMap st m'.
Proof. reflexivity. Qed.

Lemma set_fieldMap_self (st : page) : set_fieldMap st (fieldMap st) = st.
Proof. destruct st. reflexivity. Qed.

(** Describing the same elements again, from the final page with the
    initial [fieldMap], gives the same descriptors and the same page. *)
Lemma describe_all_replay (now now' : nat) (idxs : list nat) (st0 : page) :
  Forall (fun i => i < length (elements st0)) idxs ->
  Forall (stamped (snd (describe_all now idxs st0))) idxs /\
  describe_all now' idxs (set_fieldMap (snd (describe_all now idxs st0)) (fieldMap st0))
    = describe_all now idxs st0.
Proof.
  revert st0. induction idxs as [|i r IH]; intros st0 Hb.
  - split; [constructor|]. cbn [describe_all snd]. f_equal. apply set_fieldMap_self.
  - apply Forall_cons_iff in Hb as [Hi Hb].
    destruct (nth_error (elements st0) i) as [el|] eqn:He;
      [|apply nth_error_None in He; lia].
    destruct (getFieldDescriptor_after now i st0 el He) as [u [e1 [He1 [Hu [Hne [Hd Hm]]]]]].
    pose proof (getFieldDescriptor_length now i st0) as Hl.
    change (describe_all now (i :: r) st0) with
      (let (d, st1) := getFieldDescriptor now i st0 in
       let (ds, st2) := describe_all now r st1 in (d :: ds, st2)).
    destruct (getFieldDescriptor now i st0) as [d stA] eqn:EA. cbn [fst snd] in *.
    assert (Hb' : Forall (fun i => i < length (elements stA)) r) by (rewrite Hl; exact Hb).
    destruct (IH stA Hb') as [IH1 IH2].
    pose proof (describe_all_keeps now r stA i e1 u He1 Hu Hne) as Hk.
    destruct (describe_all now r stA) as [ds st1] eqn:E1. cbn [snd] in *.
    split.
    + constructor; [|exact IH1]. exists e1, u. auto.
    + change (describe_all now' (i :: r) (set_fieldMap st1 (fieldMap st0))) with
        (let (d, st1') := getFieldDescriptor now' i (set_fieldMap st1 (fieldMap st0)) in
         let (ds, st2) := describe_all now' r st1' in (d :: ds, st2)).
      rewrite (getFieldDescriptor_stamped now' i (set_fieldMap st1 (fieldMap st0)) e1 u Hk Hu Hne).
      cbn [fieldMap set_fieldMap]. rewrite set_fieldMap_twice, <- Hm, IH2, Hd. reflexivity.
Qed.

Lemma eligible_pred_erase (es : list element) (i : nat) :
  match nth_error es i with
  | Some e => is_form_control e && negb (shouldSkipInput e)
  | None => false
  end =
  match option_map erase_uid (nth_error es i) with
  | Some e => is_form_control e && negb (shouldSkipInput e)
  | None => false
  end.
Proof. destruct (nth_error es i); reflexivity. Qed.

Lemma eligible_erase (es es' : list element) :
  map erase_uid es' = map erase_uid es -> eligible es' = eligible es.
Proof.
  intros H. unfold eligible.
  assert (Hl : length es' = length es) by (rewrite <- (length_map erase_uid es'), H; apply length_map).
  rewrite Hl. apply filter_ext. intros i. rewrite !eligible_pred_erase, <- !nth_error_map, H.
  reflexivity.
Qed.

Lemma eligible_bound (es : list element) : Forall (fun i => i < length es) (eligible es).
Proof.
  apply Forall_forall. intros i Hi. unfold eligible in Hi. apply filter_In in Hi as [Hi _].
  apply in_seq in Hi. lia.
Qed.

(** X24: collecting the fields again gives the same descriptors, uids
    included, and leaves the page unchanged: [ensureFieldUid] keeps the
    uid an element already has. *)
Lemma collectFields_stable (now1 now2 : nat) (b1 b2 : bool) (st : page) :
  collectFields now2 b2 (snd (collectFields now1 b1 st)) =
  (fst (collectFields now1 b2 st), snd (collectFields now1 b1 st)).
Proof.
  unfold collectFields.
  set (st0 := set_fieldMap st []).
  pose proof (describe_all_spec now1 (eligible (elements st0)) st0) as [Hel _].
  destruct (describe_all_replay now1 now2 (eligible (elements st0)) st0 (eligible_bound _)) as [_ Hr].
  destruct (describe_all now1 (eligible (elements st0)) st0) as [ds st1] eqn:E.
  cbn [fst snd] in *. cbv zeta.
  change (elements (set_fieldMap st1 [])) with (elements st1).
  rewrite (eligible_erase _ _ Hel).
  change (set_fieldMap st1 []) with (set_fieldMap st1 (fieldMap st0)).
  rewrite Hr. reflexivity.
Qed.

End CollectFacts.
